(** * Todotasks: the TaskManager of [src/todo/script.js]

    A shallow embedding of the Task Store of the to-do application (class
    [TaskManager], lines 21-94 of [script.js]) together with the parts of
    the browser it talks to: [localStorage], [console.error],
    [JSON.stringify] / [JSON.parse], [String.prototype.trim],
    [Math.random] and [Date.now].

    Conventions of the embedding.
    - A JavaScript string is the list of its UTF-16 code units.
    - A task is the four-field object that [addTask] builds, and the list
      of the manager holds such objects; the object handed to
      [updateTask] is a partial record over the same four fields, and
      [Object.assign] merges the fields that are present. Numbers are
      integral ([Date.now()] is).
    - The methods run in a state monad over the manager ([this]) and the
      host; a computation ends normally or throws, and [try_catch] is the
      [try { } catch (e) { }] of the source. The host keeps the trace of
      the calls made to it, so that writing to the storage is observable.
    - The two sources of non-determinism, [Math.random()] and
      [Date.now()], are arguments of [addTask].
    - [JSON.parse] is a parameter of [load]; a reference parser for the
      values of type [json] is given and shown to invert
      [JSON.stringify].
    - The constructor (lines 22-25) and the view (lines 97-315) are not
      part of the embedding, apart from the calls the view makes to the
      store when a task is toggled or edited. *)

From stdpp Require Import base list gmap strings.
From Stdlib Require Import ZArith NArith Lia.

Open Scope Z_scope.
Open Scope nat_scope.

(** ** JavaScript strings *)

(** A string value: the sequence of its UTF-16 code units. *)
Definition jsstring : Type := list N.

(** The string value of an ASCII literal of the source. *)
Definition js (s : string) : jsstring :=
  (λ a, Ascii.N_of_ascii a) <$> String.list_ascii_of_string s.

(** ECMA-262 [WhiteSpace] and [LineTerminator] code points, the ones
    [String.prototype.trim] strips: TAB, VT, FF, ZWNBSP, the space
    separators (category Zs), LF, CR, LS and PS. All of them are in the
    basic plane, so the test is one on code units. *)
Definition isStrWhiteSpaceChar (c : N) : bool :=
  ((c =? 0x09) || (c =? 0x0A) || (c =? 0x0B) || (c =? 0x0C) || (c =? 0x0D)
   || (c =? 0x20) || (c =? 0xA0) || (c =? 0x1680)
   || ((0x2000 <=? c) && (c <=? 0x200A))
   || (c =? 0x2028) || (c =? 0x2029) || (c =? 0x202F) || (c =? 0x205F)
   || (c =? 0x3000) || (c =? 0xFEFF))%N.

Fixpoint trimStart (s : jsstring) : jsstring :=
  match s with
  | c :: s' => if isStrWhiteSpaceChar c then trimStart s' else s
  | [] => []
  end.

Definition trimEnd (s : jsstring) : jsstring := rev (trimStart (rev s)).

(** [s.trim()] *)
Definition trim (s : jsstring) : jsstring := trimEnd (trimStart s).

(** [s.slice(b, e)] for indices [0 <= b <= e]; positions past the end of
    the string are clamped, as in JavaScript. *)
Definition slice (b e : nat) (s : jsstring) : jsstring := take (e - b) (drop b s).

(** [ID()] of line 18: ['_' + Math.random().toString(36).slice(2, 9)].
    The argument is the base-36 text of the random number,
    [Math.random().toString(36)]. *)
Definition ID (random36 : jsstring) : jsstring := js "_" ++ slice 2 9 random36.

(** ** Tasks *)

Record Task : Type := mkTask {
  id : jsstring;
  text : jsstring;
  completed : bool;
  createdAt : Z
}.

(** The [updates] object of [updateTask]: each field is present or not. *)
Record Updates : Type := mkUpdates {
  upd_id : option jsstring;
  upd_text : option jsstring;
  upd_completed : option bool;
  upd_createdAt : option Z
}.

(** [{}], the default value of [updates]. *)
Definition no_updates : Updates := mkUpdates None None None None.
(** [{ text: s }] and [{ completed: b }], the objects the view passes. *)
Definition text_update (s : jsstring) : Updates := mkUpdates None (Some s) None None.
Definition completed_update (b : bool) : Updates := mkUpdates None None (Some b) None.

(** [Object.assign(t, updates)]: every field present in [updates]
    overwrites the field of [t]; the others are kept. *)
Definition Object_assign (t : Task) (u : Updates) : Task :=
  {| id := default (id t) (upd_id u);
     text := default (text t) (upd_text u);
     completed := default (completed t) (upd_completed u);
     createdAt := default (createdAt t) (upd_createdAt u) |}.

#[global] Instance Task_eq_dec : EqDecision Task.
Proof. solve_decision. Defined.

(** ** JSON values and [JSON.stringify] *)

#[warnings="-register-all"]
Inductive json : Type :=
  | JNull
  | JBool (b : bool)
  | JNumber (n : Z)
  | JString (s : jsstring)
  | JArray (elems : list json)
  | JObject (props : list (jsstring * json)).

(** The object that a task is, with its keys in the order of the object
    literal of [addTask] (lines 49-54). *)
Definition task_json (t : Task) : json :=
  JObject [ (js "id", JString (id t));
            (js "text", JString (text t));
            (js "completed", JBool (completed t));
            (js "createdAt", JNumber (createdAt t)) ].

Definition Array_isArray (v : json) : bool :=
  match v with JArray _ => true | _ => false end.

(** Digits. *)
Definition digit_char (d : N) : N := (48 + d)%N.
Definition hex_char (d : N) : N := if (d <? 10)%N then (48 + d)%N else (87 + d)%N.

Fixpoint pos_digits (fuel : nat) (n : N) (acc : jsstring) : jsstring :=
  match fuel with
  | O => acc
  | S fuel' =>
      let acc' := digit_char (n mod 10) :: acc in
      if (n <? 10)%N then acc' else pos_digits fuel' (n / 10) acc'
  end.

(** Decimal text of a natural number. *)
Definition N_to_string (n : N) : jsstring := pos_digits (S (N.to_nat (N.log2 n))) n [].

(** [Number::toString] on an integral Number. *)
Definition Number_toString (z : Z) : jsstring :=
  match z with
  | Z.neg p => js "-" ++ N_to_string (Npos p)
  | _ => N_to_string (Z.to_N z)
  end.

Definition is_high_surrogate (c : N) : bool := ((0xD800 <=? c) && (c <=? 0xDBFF))%N.
Definition is_low_surrogate (c : N) : bool := ((0xDC00 <=? c) && (c <=? 0xDFFF))%N.

(** [UnicodeEscape]: a backslash, [u] and four lower-case hex digits. *)
Definition UnicodeEscape (c : N) : jsstring :=
  [92; 117; hex_char ((c / 4096) mod 16); hex_char ((c / 256) mod 16);
   hex_char ((c / 16) mod 16); hex_char (c mod 16)]%N.

(** The escape of one code unit that is not half of a surrogate pair. *)
Definition quote_unit (c : N) : jsstring :=
  if (c =? 0x08)%N then js "\b"
  else if (c =? 0x09)%N then js "\t"
  else if (c =? 0x0A)%N then js "\n"
  else if (c =? 0x0C)%N then js "\f"
  else if (c =? 0x0D)%N then js "\r"
  else if (c =? 0x22)%N then [92; 34]%N
  else if (c =? 0x5C)%N then [92; 92]%N
  else if (c <? 0x20)%N || is_high_surrogate c || is_low_surrogate c
       then UnicodeEscape c
  else [c].

(** The body of [QuoteJSONString]: a surrogate pair is copied, a lone
    surrogate and a control character are escaped. *)
Fixpoint quote_units (s : jsstring) : jsstring :=
  match s with
  | [] => []
  | c :: s' =>
      match s' with
      | d :: s'' =>
          if is_high_surrogate c && is_low_surrogate d
          then c :: d :: quote_units s''
          else quote_unit c ++ quote_units s'
      | [] => quote_unit c
      end
  end.

Definition QuoteJSONString (s : jsstring) : jsstring := [34%N] ++ quote_units s ++ [34%N].

(** [l.join(",")] on texts. *)
Fixpoint join_comma (l : list jsstring) : jsstring :=
  match l with
  | [] => []
  | [x] => x
  | x :: l' => x ++ [44%N] ++ join_comma l'
  end.

(** [JSON.stringify(v)] without indentation. *)
Fixpoint JSON_stringify (v : json) : jsstring :=
  match v with
  | JNull => js "null"
  | JBool true => js "true"
  | JBool false => js "false"
  | JNumber n => Number_toString n
  | JString s => QuoteJSONString s
  | JArray l => js "[" ++ join_comma (map JSON_stringify l) ++ js "]"
  | JObject ps =>
      js "{" ++
      join_comma (map (λ p, match p with
                            | (k, x) => QuoteJSONString k ++ js ":" ++ JSON_stringify x
                            end) ps) ++
      js "}"
  end.


(** ** The host: [localStorage] and the console *)

Inductive error : Type :=
  | SyntaxError          (* JSON.parse on a malformed text *)
  | SecurityError        (* storage is not accessible *)
  | QuotaExceededError.  (* storage is full *)

(** What the program does to the host, in order. *)
Inductive event : Type :=
  | E_getItem (key : jsstring)
  | E_setItem (key value : jsstring)
  | E_console_error (message : string) (e : error).

Record Host : Type := mkHost {
  items : gmap jsstring jsstring;   (* the entries of localStorage *)
  quota : N;                        (* code units the storage may hold *)
  accessible : bool;                (* false: every access throws *)
  trace : list event                (* the calls made so far, oldest first *)
}.

(** Code units held by the storage: keys and values. *)
Definition usage (m : gmap jsstring jsstring) : N :=
  map_fold (λ k v n, N.of_nat (length k) + N.of_nat (length v) + n)%N 0%N m.

(** The manager: the fields of [this]. *)
Record TaskManager : Type := mkTaskManager {
  storageKey : jsstring;
  tasks : list Task
}.

Record World : Type := mkWorld {
  this : TaskManager;
  host : Host
}.

(** ** Computations *)

Inductive completion (A : Type) : Type :=
  | Normal (a : A)
  | Throw (e : error).
Arguments Normal {A} a.
Arguments Throw {A} e.

Definition Js (A : Type) : Type := World → completion A * World.

#[global] Instance Js_ret : MRet Js := λ A a w, (Normal a, w).

#[global] Instance Js_bind : MBind Js := λ A B k m w,
  match m w with
  | (Normal a, w') => k a w'
  | (Throw e, w') => (Throw e, w')
  end.

Definition throw {A} (e : error) : Js A := λ w, (Throw e, w).

(** [try { body } catch (e) { handler e }] *)
Definition try_catch {A} (body : Js A) (handler : error → Js A) : Js A :=
  λ w, match body w with
       | (Normal a, w') => (Normal a, w')
       | (Throw e, w') => handler e w'
       end.

Definition get_tasks : Js (list Task) := λ w, (Normal (tasks (this w)), w).
Definition get_storageKey : Js jsstring := λ w, (Normal (storageKey (this w)), w).

(** [this.tasks = l] *)
Definition set_tasks (l : list Task) : Js unit :=
  λ w, (Normal (), mkWorld (mkTaskManager (storageKey (this w)) l) (host w)).

Definition log_event (ev : event) (h : Host) : Host :=
  mkHost (items h) (quota h) (accessible h) (trace h ++ [ev]).

(** [localStorage.getItem(key)]: the entry, or [null] ([None]). *)
Definition localStorage_getItem (key : jsstring) : Js (option jsstring) :=
  λ w, let h := log_event (E_getItem key) (host w) in
       if accessible h
       then (Normal (items h !! key), mkWorld (this w) h)
       else (Throw SecurityError, mkWorld (this w) h).

(** [localStorage.setItem(key, value)]: refused when the storage is not
    accessible or would hold more than its quota. *)
Definition localStorage_setItem (key value : jsstring) : Js unit :=
  λ w, let h := log_event (E_setItem key value) (host w) in
       if accessible h
       then if (usage (<[key:=value]> (items h)) <=? quota h)%N
            then (Normal (),
                  mkWorld (this w)
                    (mkHost (<[key:=value]> (items h)) (quota h) (accessible h) (trace h)))
            else (Throw QuotaExceededError, mkWorld (this w) h)
       else (Throw SecurityError, mkWorld (this w) h).

(** [console.error(message, e)] *)
Definition console_error (message : string) (e : error) : Js unit :=
  λ w, (Normal (), mkWorld (this w) (log_event (E_console_error message e) (host w))).

(** [!raw] on the result of [getItem]: [null] and the empty string are falsy. *)
Definition falsy (raw : option jsstring) : bool :=
  match raw with
  | None | Some [] => true
  | Some (_ :: _) => false
  end.

(** ** The methods of [TaskManager] *)

Section TaskManager.

(** [JSON.parse] of the host: the value a text denotes, or [None] when
    the text is not JSON and the call throws a [SyntaxError]. *)
Variable JSON_parse : jsstring → option json.

Definition JSON_parse_or_throw (raw : jsstring) : Js json :=
  match JSON_parse raw with
  | Some v => mret v
  | None => throw SyntaxError
  end.

(** Lines 27-38. *)
Definition load : Js json :=
  try_catch
    (key ← get_storageKey;
     raw ← localStorage_getItem key;
     if falsy raw then mret (JArray []) else
     parsed ← JSON_parse_or_throw (default [] raw);
     if negb (Array_isArray parsed) then mret (JArray []) else
     mret parsed)
    (λ e,
      console_error "Failed to load tasks:" e;;
      mret (JArray [])).

(** Lines 40-46. *)
Definition save : Js unit :=
  try_catch
    (key ← get_storageKey;
     l ← get_tasks;
     localStorage_setItem key (JSON_stringify (JArray (task_json <$> l))))
    (λ e, console_error "Failed to save tasks:" e).

(** Lines 48-59. [random36] is [Math.random().toString(36)] and [now]
    is [Date.now()]; [String(text)] is [text] itself on a string. *)
Definition addTask (text0 : jsstring) (random36 : jsstring) (now : Z)
  : Js (option Task) :=
  let task := {| id := ID random36;
                 text := trim text0;
                 completed := false;
                 createdAt := now |} in
  if bool_decide (text task = []) then mret None else
  l ← get_tasks;
  set_tasks (task :: l);;   (* unshift: newest on top *)
  save;;
  mret (Some task).

(** Lines 61-67. [find] yields the first task with the given id; the
    object found is the one held by the list at that index, so
    assigning to it updates the list in place. *)
Definition updateTask (id0 : jsstring) (updates : Updates) : Js bool :=
  l ← get_tasks;
  match list_find (λ x, id x = id0) l with
  | None => mret false
  | Some (i, t) =>
      set_tasks (<[i := Object_assign t updates]> l);;
      save;;
      mret true
  end.

(** Lines 69-77. *)
Definition removeTask (id0 : jsstring) : Js bool :=
  l ← get_tasks;
  let before := length l in
  set_tasks (filter (λ t, id t ≠ id0) l);;
  l' ← get_tasks;
  if bool_decide (length l' ≠ before) then
    save;;
    mret true
  else mret false.

(** Lines 79-85. *)
Definition clearCompleted : Js unit :=
  l ← get_tasks;
  let before := length l in
  set_tasks (filter (λ t, completed t = false) l);;
  l' ← get_tasks;
  if bool_decide (length l' ≠ before) then save else mret ().

(** Lines 87-89. *)
Definition getRemainingCount : Js nat :=
  l ← get_tasks;
  mret (length (filter (λ t, completed t = false) l)).

(** Lines 91-93. *)
Definition getAll : Js (list Task) := get_tasks.

End TaskManager.

(** ** Sequences of calls *)

(** The mutating operations of the Task Store, with their arguments. *)
Inductive call : Type :=
  | Call_addTask (text0 random36 : jsstring) (now : Z)
  | Call_updateTask (id0 : jsstring) (updates : Updates)
  | Call_removeTask (id0 : jsstring)
  | Call_clearCompleted.

(** The world after one call; none of the four methods throws (lemma
    [exec_normal]), so the completion is dropped here. *)
Definition exec (c : call) (w : World) : World :=
  match c with
  | Call_addTask s r now => (addTask s r now w).2
  | Call_updateTask i u => (updateTask i u w).2
  | Call_removeTask i => (removeTask i w).2
  | Call_clearCompleted => (clearCompleted w).2
  end.

Definition run (cs : list call) (w : World) : World := foldl (λ w c, exec c w) w cs.

(** The list a call leaves. *)
Definition tasks_after (c : call) (l : list Task) : list Task :=
  match c with
  | Call_addTask s r now =>
      if bool_decide (trim s = []) then l else mkTask (ID r) (trim s) false now :: l
  | Call_updateTask id0 u =>
      match list_find (λ x, id x = id0) l with
      | Some (i, t) => <[i := Object_assign t u]> l
      | None => l
      end
  | Call_removeTask id0 => filter (λ t, id t ≠ id0) l
  | Call_clearCompleted => filter (λ t, completed t = false) l
  end.

(** A manager that holds the empty list. *)
Definition empty_manager (key : jsstring) (h : Host) : World :=
  mkWorld (mkTaskManager key []) h.

(** A session that has just started on host [h]: the manager a page
    load constructs, before [load] has filled its list. *)
Definition fresh_session (key : jsstring) (h : Host) : World := empty_manager key h.

(** The key of the source (line 22) and a storage that holds nothing. *)
Definition default_storageKey : jsstring := js "todo.tasks.v1".
Definition empty_host (quota0 : N) : Host := mkHost ∅ quota0 true [].

(** The text [save] hands to the storage. *)
Definition stored_text (tm : TaskManager) : jsstring :=
  JSON_stringify (JArray (task_json <$> tasks tm)).

(** Would the storage of [h] take [value] under [key]? *)
Definition write_accepted (h : Host) (key value : jsstring) : bool :=
  accessible h && (usage (<[key:=value]> (items h)) <=? quota h)%N.

(** [w'] is [w] after a call that persisted the list of [w']: the
    storage was asked to store the serialised list, and holds it if it
    took the write. *)
Definition persisted (w w' : World) : Prop :=
  let key := storageKey (this w') in
  let value := stored_text (this w') in
  (∃ tail, trace (host w') = trace (host w) ++ E_setItem key value :: tail) ∧
  (write_accepted (host w) key value = true →
     items (host w') = <[key:=value]> (items (host w))) ∧
  (write_accepted (host w) key value = false →
     items (host w') = items (host w)).

(** The count that [getRemainingCount] is specified to return. *)
Fixpoint count_not_completed (l : list Task) : nat :=
  match l with
  | [] => 0
  | t :: l' => (if completed t then 0 else 1) + count_not_completed l'
  end.

(** A text that [trim] leaves as it is. *)
Definition trimmed (s : jsstring) : Prop := trim s = s.

(** The texts of a list are non-empty and trimmed. *)
Definition texts_ok (l : list Task) : Prop :=
  Forall (λ t, text t ≠ [] ∧ trimmed (text t)) l.

(** Calls that respect the identity of tasks: a generated id is not held
    by a task of the list, and an update carries no [id] field. *)
Definition keeps_ids (c : call) (w : World) : bool :=
  match c with
  | Call_addTask s r _ =>
      bool_decide (trim s = []) || bool_decide (ID r ∉ id <$> tasks (this w))
  | Call_updateTask _ u => bool_decide (upd_id u = None)
  | _ => true
  end.

(** Calls whose update, when it carries a text, carries a non-empty
    trimmed one (what the edit handler of the view passes, lines 199-216). *)
Definition keeps_texts (c : call) : bool :=
  match c with
  | Call_updateTask _ u =>
      match upd_text u with
      | Some s => bool_decide (s ≠ []) && bool_decide (trim s = s)
      | None => true
      end
  | _ => true
  end.

(** [P] holds of every call of the sequence, in the world it is made in. *)
Fixpoint all_calls (P : call → World → bool) (cs : list call) (w : World) : bool :=
  match cs with
  | [] => true
  | c :: cs' => P c w && all_calls P cs' (exec c w)
  end.

(** ** The calls of the view

    What the handlers of a task row ask of the store. The checkbox handler
    (lines 165-173) passes the new state; the blur handler of the editable
    text (lines 199-216) trims what was typed and, when nothing is left,
    removes the task if the user confirms and otherwise does nothing. *)
Definition view_toggle (id0 : jsstring) (checked : bool) : call :=
  Call_updateTask id0 (completed_update checked).

Definition view_edit_commit (id0 textContent : jsstring) (confirmed : bool)
  : option call :=
  let newText := trim textContent in
  if bool_decide (newText = []) then
    if confirmed then Some (Call_removeTask id0) else None
  else Some (Call_updateTask id0 (text_update newText)).

(** ** A reference [JSON.parse]

    A recursive-descent reader of the JSON grammar (ECMA-404) for the
    values of type [json]: a number literal with a fraction or an exponent
    has no value in [JNumber] and is refused. [load] does not depend on
    it; it is the parser the round trip is checked against. *)

Definition is_json_ws (c : N) : bool :=
  ((c =? 0x20) || (c =? 0x09) || (c =? 0x0A) || (c =? 0x0D))%N.

Fixpoint skip_ws (s : jsstring) : jsstring :=
  match s with
  | c :: s' => if is_json_ws c then skip_ws s' else s
  | [] => []
  end.

Definition is_digit (c : N) : bool := ((48 <=? c) && (c <=? 57))%N.

Definition hex_value (c : N) : option N :=
  if ((48 <=? c) && (c <=? 57))%N then Some (c - 48)%N
  else if ((97 <=? c) && (c <=? 102))%N then Some (c - 87)%N
  else if ((65 <=? c) && (c <=? 70))%N then Some (c - 55)%N
  else None.

(** The character a one-letter escape stands for. *)
Definition unescape (e : N) : option N :=
  if (e =? 34)%N then Some 34%N          (* quotation mark *)
  else if (e =? 92)%N then Some 92%N     (* reverse solidus *)
  else if (e =? 47)%N then Some 47%N     (* solidus *)
  else if (e =? 98)%N then Some 8%N      (* b: backspace *)
  else if (e =? 102)%N then Some 12%N    (* f: form feed *)
  else if (e =? 110)%N then Some 10%N    (* n: line feed *)
  else if (e =? 114)%N then Some 13%N    (* r: carriage return *)
  else if (e =? 116)%N then Some 9%N     (* t: tab *)
  else None.

(** The characters of a string literal after its opening quote, and the
    text after its closing quote. *)
Fixpoint parse_chars (s : jsstring) : option (jsstring * jsstring) :=
  match s with
  | [] => None
  | c :: s' =>
      if (c =? 34)%N then Some ([], s')
      else if (c =? 92)%N then
        match s' with
        | [] => None
        | e :: s'' =>
            if (e =? 117)%N then
              match s'' with
              | h1 :: h2 :: h3 :: h4 :: s4 =>
                  a ← hex_value h1; b ← hex_value h2;
                  c' ← hex_value h3; d ← hex_value h4;
                  r ← parse_chars s4;
                  Some ((a * 4096 + b * 256 + c' * 16 + d)%N :: r.1, r.2)
              | _ => None
              end
            else
              u ← unescape e;
              r ← parse_chars s'';
              Some (u :: r.1, r.2)
        end
      else if (c <? 0x20)%N then None
      else r ← parse_chars s'; Some (c :: r.1, r.2)
  end.

(** The longest prefix of digits, and what follows it. *)
Fixpoint read_digits (s : jsstring) : jsstring * jsstring :=
  match s with
  | c :: s' =>
      if is_digit c then let r := read_digits s' in (c :: r.1, r.2) else ([], s)
  | [] => ([], [])
  end.

Definition digits_value (ds : jsstring) : N :=
  foldl (λ a d, a * 10 + (d - 48))%N 0%N ds.

(** An integer literal: an optional minus sign, then [0] or a digit
    sequence that does not start with [0]. *)
Definition parse_number (s : jsstring) : option (Z * jsstring) :=
  let signed := match s with
                | c :: s' => if (c =? 45)%N then (true, s') else (false, s)
                | [] => (false, s)
                end in
  let r := read_digits signed.2 in
  match r.1 with
  | [] => None
  | d :: ds' =>
      if (d =? 48)%N && negb (bool_decide (ds' = [])) then None
      else if match r.2 with
              | c :: _ => (c =? 46)%N || (c =? 101)%N || (c =? 69)%N
              | [] => false
              end
      then None
      else let n := Z.of_N (digits_value r.1) in
           Some (if signed.1 then (- n)%Z else n, r.2)
  end.

(** [s] starts with [word]: the text after it. *)
Fixpoint expect (word s : jsstring) : option jsstring :=
  match word with
  | [] => Some s
  | c :: word' =>
      match s with
      | d :: s' => if (c =? d)%N then expect word' s' else None
      | [] => None
      end
  end.

Fixpoint parse_value (fuel : nat) (s : jsstring) : option (json * jsstring) :=
  match fuel with
  | O => None
  | S fuel' =>
      match skip_ws s with
      | [] => None
      | c :: s' =>
          if (c =? 110)%N then rest ← expect (js "ull") s'; Some (JNull, rest)
          else if (c =? 116)%N then rest ← expect (js "rue") s'; Some (JBool true, rest)
          else if (c =? 102)%N then rest ← expect (js "alse") s'; Some (JBool false, rest)
          else if (c =? 34)%N then r ← parse_chars s'; Some (JString r.1, r.2)
          else if (c =? 91)%N then
            match skip_ws s' with
            | d :: s'' =>
                if (d =? 93)%N then Some (JArray [], s'')
                else r ← parse_elements fuel' s'; Some (JArray r.1, r.2)
            | [] => None
            end
          else if (c =? 123)%N then
            match skip_ws s' with
            | d :: s'' =>
                if (d =? 125)%N then Some (JObject [], s'')
                else r ← parse_members fuel' s'; Some (JObject r.1, r.2)
            | [] => None
            end
          else r ← parse_number (c :: s'); Some (JNumber r.1, r.2)
      end
  end
with parse_elements (fuel : nat) (s : jsstring) : option (list json * jsstring) :=
  match fuel with
  | O => None
  | S fuel' =>
      v ← parse_value fuel' s;
      match skip_ws v.2 with
      | c :: rest =>
          if (c =? 44)%N then r ← parse_elements fuel' rest; Some (v.1 :: r.1, r.2)
          else if (c =? 93)%N then Some ([v.1], rest)
          else None
      | [] => None
      end
  end
with parse_members (fuel : nat) (s : jsstring)
  : option (list (jsstring * json) * jsstring) :=
  match fuel with
  | O => None
  | S fuel' =>
      match skip_ws s with
      | q :: s' =>
          if (q =? 34)%N then
            k ← parse_chars s';
            match skip_ws k.2 with
            | colon :: s'' =>
                if (colon =? 58)%N then
                  v ← parse_value fuel' s'';
                  match skip_ws v.2 with
                  | c :: rest =>
                      if (c =? 44)%N then
                        r ← parse_members fuel' rest; Some ((k.1, v.1) :: r.1, r.2)
                      else if (c =? 125)%N then Some ([(k.1, v.1)], rest)
                      else None
                  | [] => None
                  end
                else None
            | [] => None
            end
          else None
      | [] => None
      end
  end.

(** The value of a whole text: one value, then only white space. *)
Definition JSON_parse_ref (s : jsstring) : option json :=
  r ← parse_value (S (length s)) s;
  match skip_ws r.2 with
  | [] => Some r.1
  | _ :: _ => None
  end.


(** What may follow an integer literal: not a digit, a point or an exponent. *)
Definition delimited (rest : jsstring) : bool :=
  match rest with
  | [] => true
  | c :: _ => negb (is_digit c) && negb ((c =? 46)%N || (c =? 101)%N || (c =? 69)%N)
  end.

(** [fuel] is enough to read [v] back, whatever text follows it. *)
Definition reads_back (v : json) : Prop :=
  ∀ fuel rest, length (JSON_stringify v) < fuel → delimited rest = true →
    parse_value fuel (JSON_stringify v ++ rest) = Some (v, rest).

(** ** More of the Task Store *)

(** A text made of white space and line terminators only. *)
Definition blank (s : jsstring) : bool := forallb isStrWhiteSpaceChar s.

(** Does the call reach [this.save()]? [addTask] saves unless the text is
    blank, [updateTask] when it finds the task, [removeTask] and
    [clearCompleted] when the list got shorter. *)
Definition call_saves (c : call) (l : list Task) : bool :=
  match c with
  | Call_addTask s _ _ => negb (bool_decide (trim s = []))
  | Call_updateTask id0 _ => bool_decide (is_Some (list_find (λ x, id x = id0) l))
  | Call_removeTask _ | Call_clearCompleted =>
      bool_decide (length (tasks_after c l) ≠ length l)
  end.

(** The storage takes the write of the call, if the call writes. *)
Definition write_ok (c : call) (w : World) : bool :=
  negb (call_saves c (tasks (this w))) ||
  write_accepted (host w) (storageKey (this w))
    (JSON_stringify (JArray (task_json <$> tasks_after c (tasks (this w))))).

(** The exception of a refused write. *)
Definition setItem_error (h : Host) : error :=
  if accessible h then QuotaExceededError else SecurityError.

(** A fresh session over the storage of [w] loads the list of [w]. *)
Definition reloads (w : World) : Prop :=
  (load JSON_parse_ref (fresh_session (storageKey (this w)) (host w))).1
    = Normal (JArray (task_json <$> tasks (this w))).

(** [o[name]] on the object that [JSON.parse] builds from the members
    [ms]: the value of the last member of that name. *)
Fixpoint get_property (name : jsstring) (ms : list (jsstring * json)) : option json :=
  match ms with
  | [] => None
  | (k, v) :: ms' =>
      match get_property name ms' with
      | Some v' => Some v'
      | None => if bool_decide (k = name) then Some v else None
      end
  end.

(** The keys of a task (lines 49-54). *)
Definition task_keys : list jsstring :=
  [js "id"; js "text"; js "completed"; js "createdAt"].

(** The task record that a value of [JSON.parse] is: an object with the
    keys of a task and no other, holding two strings, a boolean and a
    number. The code reads the fields by name ([x.id], [t.completed],
    [task.text]), so the order of the keys does not count; the record
    does not keep it. *)
Definition json_task (v : json) : option Task :=
  match v with
  | JObject ms =>
      if forallb (λ kv, bool_decide (kv.1 ∈ task_keys)) ms then
        match get_property (js "id") ms, get_property (js "text") ms,
              get_property (js "completed") ms, get_property (js "createdAt") ms with
        | Some (JString i), Some (JString t), Some (JBool c), Some (JNumber n) =>
            Some (mkTask i t c n)
        | _, _, _, _ => None
        end
      else None
  | _ => None
  end.

Definition json_tasks (v : json) : option (list Task) :=
  match v with
  | JArray l => mapM json_task l
  | _ => None
  end.

(** The same object, whatever the order of its members. *)
Definition same_object (v v' : json) : Prop :=
  ∃ ms ms', v = JObject ms ∧ v' = JObject ms' ∧ ms ≡ₚ ms'.

(** The object the constructor builds: [this.storageKey] and
    [this.tasks], the value [load] returned, of whatever elements. *)
Record LoadedManager : Type := mkLoadedManager {
  loaded_storageKey : jsstring;
  loaded_tasks : json
}.

(** The constructor (lines 22-25): [this.storageKey = storageKey;
    this.tasks = this.load()]. [load] reads [this.storageKey] only; it
    runs on a manager that has no list yet. *)
Definition new_TaskManager (JSON_parse : jsstring → option json)
    (storageKey0 : jsstring) (h : Host) : completion LoadedManager * Host :=
  match load JSON_parse (mkWorld (mkTaskManager storageKey0 []) h) with
  | (Normal v, w) => (Normal (mkLoadedManager storageKey0 v), host w)
  | (Throw e, w) => (Throw e, host w)
  end.

(** The world of the store that a constructed manager is on host [h],
    when its tasks are task records. *)
Definition typed_world (m : LoadedManager) (h : Host) : option World :=
  l ← json_tasks (loaded_tasks m);
  Some (mkWorld (mkTaskManager (loaded_storageKey m) l) h).

(** The arguments of one [addTask] call, the call and the task it makes. *)
Record Addition : Type := mkAddition {
  add_text : jsstring;
  add_random36 : jsstring;
  add_now : Z
}.

Definition addition_call (a : Addition) : call :=
  Call_addTask (add_text a) (add_random36 a) (add_now a).

Definition addition_task (a : Addition) : Task :=
  mkTask (ID (add_random36 a)) (trim (add_text a)) false (add_now a).

(** [{ ...u1, ...u2 }]: the fields of [u2], and those of [u1] that [u2]
    does not have. *)
Definition Updates_merge (u1 u2 : Updates) : Updates :=
  {| upd_id := match upd_id u2 with Some x => Some x | None => upd_id u1 end;
     upd_text := match upd_text u2 with Some x => Some x | None => upd_text u1 end;
     upd_completed :=
       match upd_completed u2 with Some x => Some x | None => upd_completed u1 end;
     upd_createdAt :=
       match upd_createdAt u2 with Some x => Some x | None => upd_createdAt u1 end |}.

(** ** The page

    The state of the document that the UI module (lines 97-315) reads
    and writes: the attributes and texts that depend on the tasks, the
    theme or the input. Class names, titles, icons, tab order, focus and
    the caret are constant or have no reader in the program and are left
    out. *)

(** One [li.task-item] built by [createTaskElement]. *)
Record Row : Type := mkRow {
  dataset_id : jsstring;             (* li.dataset.id *)
  checkbox_checked : bool;           (* checkbox.checked *)
  checkbox_label : string;           (* aria-label of the checkbox *)
  text_textContent : jsstring;       (* textContent of div.task-text *)
  text_completed : bool;             (* its classList holds [completed] *)
  text_contentEditable : bool;       (* its contentEditable is [true] *)
  text_label : option string         (* its aria-label, once set *)
}.

(** A child of [#task-list]. *)
Inductive ListChild : Type :=
  | EmptyNotice (textContent : jsstring)   (* div.empty *)
  | TaskItem (r : Row).

Record Page : Type := mkPage {
  body_theme : option jsstring;            (* document.body.dataset.theme *)
  themeToggle_pressed : option jsstring;   (* aria-pressed of #theme-toggle *)
  themeToggle_textContent : jsstring;
  input_value : jsstring;                  (* #task-input *)
  addBtn_disabled : bool;                  (* #add-btn *)
  remaining_textContent : jsstring;        (* #remaining-count *)
  list_children : list ListChild           (* #task-list *)
}.

(** The page and the application: [App.tasks] and the host. *)
Record Browser : Type := mkBrowser {
  page : Page;
  App : World
}.

Definition Ui (A : Type) : Type := Browser → completion A * Browser.

#[global] Instance Ui_ret : MRet Ui := λ A a b, (Normal a, b).

#[global] Instance Ui_bind : MBind Ui := λ A B k m b,
  match m b with
  | (Normal a, b') => k a b'
  | (Throw e, b') => (Throw e, b')
  end.

(** A call of the store or of the host from the UI. *)
Definition call_app {A} (m : Js A) : Ui A :=
  λ b, let r := m (App b) in (r.1, mkBrowser (page b) r.2).

Definition get_page : Ui Page := λ b, (Normal (page b), b).
Definition set_page (p : Page) : Ui unit := λ b, (Normal (), mkBrowser p (App b)).

Definition set_body_theme (x : jsstring) (p : Page) : Page :=
  mkPage (Some x) (themeToggle_pressed p) (themeToggle_textContent p) (input_value p)
    (addBtn_disabled p) (remaining_textContent p) (list_children p).
Definition set_themeToggle_pressed (x : jsstring) (p : Page) : Page :=
  mkPage (body_theme p) (Some x) (themeToggle_textContent p) (input_value p)
    (addBtn_disabled p) (remaining_textContent p) (list_children p).
Definition set_themeToggle_textContent (x : jsstring) (p : Page) : Page :=
  mkPage (body_theme p) (themeToggle_pressed p) x (input_value p)
    (addBtn_disabled p) (remaining_textContent p) (list_children p).
Definition set_input_value (x : jsstring) (p : Page) : Page :=
  mkPage (body_theme p) (themeToggle_pressed p) (themeToggle_textContent p) x
    (addBtn_disabled p) (remaining_textContent p) (list_children p).
Definition set_addBtn_disabled (x : bool) (p : Page) : Page :=
  mkPage (body_theme p) (themeToggle_pressed p) (themeToggle_textContent p) (input_value p)
    x (remaining_textContent p) (list_children p).
Definition set_remaining_textContent (x : jsstring) (p : Page) : Page :=
  mkPage (body_theme p) (themeToggle_pressed p) (themeToggle_textContent p) (input_value p)
    (addBtn_disabled p) x (list_children p).
Definition set_list_children (x : list ListChild) (p : Page) : Page :=
  mkPage (body_theme p) (themeToggle_pressed p) (themeToggle_textContent p) (input_value p)
    (addBtn_disabled p) (remaining_textContent p) x.

(** [p] with its field changed by [f]. *)
Definition modify_page (f : Page → Page) : Ui unit :=
  λ b, (Normal (), mkBrowser (f (page b)) (App b)).

(** ** Rendering (lines 115-160 and 233-259) *)

(** The parts of [createTaskElement(task)] that depend on the task. *)
Definition createTaskElement (task : Task) : Row :=
  {| dataset_id := id task;
     checkbox_checked := completed task;
     checkbox_label := if completed task then "Mark as pending" else "Mark as completed";
     text_textContent := text task;
     text_completed := completed task;
     text_contentEditable := false;
     text_label := None |}.

(** [render(tasks)], lines 233-248. *)
Definition render (l : list Task) : Ui unit :=
  modify_page (set_list_children []);;
  if bool_decide (length l = 0) then
    modify_page (set_list_children [EmptyNotice (js "No tasks found.")])
  else
    modify_page (set_list_children (TaskItem ∘ createTaskElement <$> l)).

(** The template of line 252: the count, [task] or [tasks], [left]. *)
Definition remaining_label (rem : nat) : jsstring :=
  Number_toString (Z.of_nat rem) ++ js " task"
    ++ (if bool_decide (rem ≠ 1) then js "s" else []) ++ js " left".

(** [updateRemaining()], lines 250-253. *)
Definition updateRemaining : Ui unit :=
  rem ← call_app getRemainingCount;
  modify_page (set_remaining_textContent (remaining_label rem)).

(** [refresh()], lines 255-259. *)
Definition refresh : Ui unit :=
  l ← call_app getAll;
  render l;;
  updateRemaining.

(** ** The form (lines 262-288) *)

(** The [submit] listener, lines 264-276, with the values [Math.random]
    and [Date.now] give inside [addTask]. *)
Definition on_submit (random36 : jsstring) (now : Z) : Ui unit :=
  p ← get_page;
  let text0 := trim (input_value p) in
  if bool_decide (text0 = []) then mret () else
  added ← call_app (addTask text0 random36 now);
  match added with
  | Some _ =>
      modify_page (set_input_value []);;
      refresh
  | None => mret ()
  end.

(** The [input] listener, line 285. *)
Definition on_input : Ui unit :=
  p ← get_page;
  modify_page (set_addBtn_disabled (bool_decide (trim (input_value p) = []))).

(** What [initEventHandlers] does to the page besides registering the
    listeners (line 287). *)
Definition initEventHandlers : Ui unit := modify_page (set_addBtn_disabled true).

(** ** The theme (lines 278-305) *)

Definition theme_storageKey : jsstring := js "todo.theme.v1".

(** The sun, U+2600 U+FE0F, and the crescent moon, U+1F319. *)
Definition sun : jsstring := [0x2600; 0xFE0F]%N.
Definition moon : jsstring := [0xD83C; 0xDF19]%N.

(** [setTheme(name)], lines 291-296. Nothing catches the exception of
    [setItem] here. *)
Definition setTheme (name : jsstring) : Ui unit :=
  let theme := if bool_decide (name = js "dark") then js "dark" else js "light" in
  modify_page (set_body_theme theme);;
  call_app (localStorage_setItem theme_storageKey theme);;
  modify_page (set_themeToggle_pressed
                 (if bool_decide (theme = js "dark") then js "true" else js "false"));;
  modify_page (set_themeToggle_textContent
                 (if bool_decide (theme = js "dark") then sun else moon)).

(** [loadTheme()], lines 297-305. [prefers_dark] is the answer of
    [window.matchMedia], [None] where the browser has no [matchMedia]. *)
Definition loadTheme (prefers_dark : option bool) : Ui unit :=
  saved ← call_app (localStorage_getItem theme_storageKey);
  if negb (falsy saved) then setTheme (default [] saved)
  else setTheme (if default false prefers_dark then js "dark" else js "light").

(** The [click] listener of the theme toggle, lines 279-282. *)
Definition on_theme_click : Ui unit :=
  p ← get_page;
  let isDark := bool_decide (body_theme p = Some (js "dark")) in
  setTheme (if isDark then js "light" else js "dark").

(** [UI.init(app)], lines 308-312, and [App.start()], lines 320-324. *)
Definition UI_init (prefers_dark : option bool) : Ui unit :=
  loadTheme prefers_dark;;
  initEventHandlers;;
  refresh.

Definition App_start (prefers_dark : option bool) : Ui unit :=
  UI_init prefers_dark;;
  refresh.

(** The theme [setTheme(name)] shows and stores. *)
Definition theme_of (name : jsstring) : jsstring :=
  if bool_decide (name = js "dark") then js "dark" else js "light".

(** The theme a saved entry and the system preference lead to. *)
Definition initial_theme (saved : option jsstring) (prefers_dark : option bool)
  : jsstring :=
  match saved with
  | Some (c :: s) => theme_of (c :: s)
  | _ => if default false prefers_dark then js "dark" else js "light"
  end.

(** The toggle shows the theme: [aria-pressed] and the icon. *)
Definition toggle_shows (p : Page) (theme : jsstring) : Prop :=
  themeToggle_pressed p
    = Some (if bool_decide (theme = js "dark") then js "true" else js "false") ∧
  themeToggle_textContent p = (if bool_decide (theme = js "dark") then sun else moon).

(** ** What the page shows *)

(** The children [render] gives to the list. *)
Definition rendered (l : list Task) : list ListChild :=
  if bool_decide (length l = 0) then [EmptyNotice (js "No tasks found.")]
  else TaskItem ∘ createTaskElement <$> l.

(** The row shows the task: its id, its text and its state, and is not
    being edited. *)
Definition row_shows (c : ListChild) (t : Task) : Prop :=
  ∃ r, c = TaskItem r ∧ dataset_id r = id t ∧ text_textContent r = text t ∧
       checkbox_checked r = completed t ∧ text_completed r = completed t ∧
       text_contentEditable r = false.

(** The list region shows the tasks: the notice when there is none,
    else one row per task, in the order of the list. *)
Definition list_shows (children : list ListChild) (l : list Task) : Prop :=
  match l with
  | [] => children = [EmptyNotice (js "No tasks found.")]
  | _ :: _ => Forall2 row_shows children l
  end.

(** The page shows the list and the remaining count of the store. *)
Definition in_step (b : Browser) : Prop :=
  list_shows (list_children (page b)) (tasks (this (App b))) ∧
  remaining_textContent (page b)
    = remaining_label (count_not_completed (tasks (this (App b)))).

(** ** The listeners of a task row (lines 163-228)

    A listener of [createTaskElement(task)] closes over [task], the
    object it was built from, and over the elements of its row. Here the
    row is given by its position [k] among the children of [#task-list],
    the object by its fields at the time of the event ([task]) and by
    its place in [this.tasks] when the list still holds it ([place]):
    an assignment to a field of the object changes the list at that
    place. A listener of a row that is not in the document does not
    run. The answer to [confirm(...)] is an argument. *)

Definition set_checkbox_label (x : string) (r : Row) : Row :=
  mkRow (dataset_id r) (checkbox_checked r) x (text_textContent r) (text_completed r)
    (text_contentEditable r) (text_label r).
Definition set_text_textContent (x : jsstring) (r : Row) : Row :=
  mkRow (dataset_id r) (checkbox_checked r) (checkbox_label r) x (text_completed r)
    (text_contentEditable r) (text_label r).
Definition set_text_completed (x : bool) (r : Row) : Row :=
  mkRow (dataset_id r) (checkbox_checked r) (checkbox_label r) (text_textContent r) x
    (text_contentEditable r) (text_label r).
Definition set_text_contentEditable (x : bool) (r : Row) : Row :=
  mkRow (dataset_id r) (checkbox_checked r) (checkbox_label r) (text_textContent r)
    (text_completed r) x (text_label r).
Definition set_text_label (x : string) (r : Row) : Row :=
  mkRow (dataset_id r) (checkbox_checked r) (checkbox_label r) (text_textContent r)
    (text_completed r) (text_contentEditable r) (Some x).
Definition set_checkbox_checked (x : bool) (r : Row) : Row :=
  mkRow (dataset_id r) x (checkbox_label r) (text_textContent r) (text_completed r)
    (text_contentEditable r) (text_label r).

Definition map_row (f : Row → Row) (c : ListChild) : ListChild :=
  match c with
  | TaskItem r => TaskItem (f r)
  | EmptyNotice s => EmptyNotice s
  end.

(** A change of the row at position [k]. *)
Definition modify_row (k : nat) (f : Row → Row) : Ui unit :=
  modify_page (λ p, set_list_children (alter (map_row f) k (list_children p)) p).

(** [li.remove()] for the row at position [k]. *)
Definition remove_row (k : nat) : Ui unit :=
  modify_page (λ p, set_list_children (delete k (list_children p)) p).

(** The row at position [k], when there is one. *)
Definition row_at (k : nat) (p : Page) : option Row :=
  match list_children p !! k with
  | Some (TaskItem r) => Some r
  | _ => None
  end.

(** An assignment to a field of the object of the closure: [task'] is
    the object after it. *)
Definition assign_task (place : option nat) (task' : Task) : Ui unit :=
  match place with
  | Some i => call_app (l ← get_tasks; set_tasks (<[i := task']> l))
  | None => mret ()
  end.

Definition with_completed (b : bool) (t : Task) : Task :=
  mkTask (id t) (text t) b (createdAt t).
Definition with_text (s : jsstring) (t : Task) : Task :=
  mkTask (id t) s (completed t) (createdAt t).

(** The [change] listener of the checkbox, lines 165-173; the checkbox
    already shows its new state. *)
Definition on_checkbox_change (k : nat) (task : Task) (place : option nat) : Ui unit :=
  p ← get_page;
  match row_at k p with
  | Some r =>
      let task' := with_completed (checkbox_checked r) task in
      assign_task place task';;
      modify_row k (set_text_completed (completed task'));;
      modify_row k (set_checkbox_label
                      (if completed task' then "Mark as pending" else "Mark as completed"));;
      call_app (updateTask (id task') (completed_update (completed task')));;
      updateRemaining
  | None => mret ()
  end.

(** The [click] listener of the delete button, lines 176-183. *)
Definition on_delete_click (k : nat) (task : Task) (confirmed : bool) : Ui unit :=
  p ← get_page;
  match row_at k p with
  | Some _ =>
      if negb confirmed then mret () else
      removed ← call_app (removeTask (id task));
      if removed : bool then
        remove_row k;;
        updateRemaining
      else mret ()
  | None => mret ()
  end.

(** [enableEditMode()], lines 186-193, the listener of the edit button
    and of a double click on the text. *)
Definition enableEditMode (k : nat) : Ui unit :=
  modify_row k (set_text_contentEditable true);;
  modify_row k (set_text_label "Edit task text").

(** The [blur] listener of the text, lines 199-216. *)
Definition on_text_blur (k : nat) (task : Task) (place : option nat) (confirmed : bool)
  : Ui unit :=
  p ← get_page;
  match row_at k p with
  | Some r =>
      if text_contentEditable r then
        modify_row k (set_text_contentEditable false);;
        let newText := trim (text_textContent r) in
        if bool_decide (newText = []) then
          if confirmed then
            call_app (removeTask (id task));;
            remove_row k
          else modify_row k (set_text_textContent (text task))
        else
          let task' := with_text newText task in
          assign_task place task';;
          call_app (updateTask (id task') (text_update newText));;
          mret ()
      else mret ()
  | None => mret ()
  end.

(** The [keydown] listener of the text, lines 218-228. The text has the
    focus when it gets a key, so that [text.blur()] runs the [blur]
    listener before it returns. *)
Definition on_text_keydown (key : jsstring) (k : nat) (task : Task)
    (place : option nat) (confirmed : bool) : Ui unit :=
  (if bool_decide (key = js "Enter") then on_text_blur k task place confirmed
   else mret ());;
  (if bool_decide (key = js "Escape") then
     modify_row k (set_text_textContent (text task));;
     on_text_blur k task place confirmed
   else mret ()).

(** * Properties *)

(** ** The monad and [save] *)

#[local] Arguments JSON_stringify : simpl never.
#[local] Arguments js : simpl never.
#[local] Arguments trim : simpl never.
#[local] Arguments ID : simpl never.

Ltac js_unfold :=
  unfold mbind, Js_bind, mret, Js_ret, throw, get_tasks, get_storageKey,
    set_tasks, try_catch, console_error in *.

Lemma save_normal w : save w = (Normal (), (save w).2).
Proof.
  unfold save, localStorage_setItem. js_unfold. simpl.
  destruct (accessible (host w)); [|done].
  by destruct (_ <=? _)%N.
Qed.

Lemma save_this w : this (save w).2 = this w.
Proof.
  unfold save, localStorage_setItem. js_unfold. simpl.
  destruct (accessible (host w)); [|done].
  by destruct (_ <=? _)%N.
Qed.

Lemma save_accessible w : accessible (host (save w).2) = accessible (host w).
Proof.
  unfold save, localStorage_setItem. js_unfold. simpl.
  destruct (accessible (host w)) eqn:E; [|done].
  by destruct (_ <=? _)%N.
Qed.

Lemma save_persisted w : persisted w (save w).2.
Proof.
  unfold persisted. rewrite save_this.
  unfold save, localStorage_setItem, write_accepted, stored_text. js_unfold. simpl.
  destruct (accessible (host w)); simpl.
  - destruct (_ <=? _)%N; simpl; (split; [|done]).
    + by exists [].
    + eexists. by rewrite <- app_assoc.
  - split; [|done]. eexists. by rewrite <- app_assoc.
Qed.

(** A call that sets the list and saves: what it leaves behind. *)
Lemma set_then_save w l :
  let w1 := mkWorld (mkTaskManager (storageKey (this w)) l) (host w) in
  this (save w1).2 = mkTaskManager (storageKey (this w)) l ∧ persisted w (save w1).2.
Proof.
  intros w1. split; [by rewrite save_this|].
  apply (save_persisted w1).
Qed.

(** ** [addTask] *)

Lemma addTask_empty s r now w : trim s = [] → addTask s r now w = (Normal None, w).
Proof.
  intros E. unfold addTask. cbn [text]. by rewrite bool_decide_eq_true_2.
Qed.

Lemma addTask_nonempty s r now w :
  trim s ≠ [] →
  addTask s r now w =
    (Normal (Some (mkTask (ID r) (trim s) false now)),
     (save (mkWorld (mkTaskManager (storageKey (this w))
                       (mkTask (ID r) (trim s) false now :: tasks (this w)))
                    (host w))).2).
Proof.
  intros E. unfold addTask. cbn [text]. rewrite bool_decide_eq_false_2 by done.
  js_unfold. cbn [this host tasks]. by rewrite save_normal.
Qed.

(** C1. For every input string [s], [addTask(s)] returns a created task
    if and only if [trim(s)] is not empty. When it does, the task has
    text [trim(s)] and [completed = false], it is the new head of the
    list, whose other elements are the old list, and the list is
    persisted. When [trim(s)] is empty the call returns [null] and
    changes nothing: the list is as before and the storage is not
    touched. *)
Theorem addTask_spec (s random36 : jsstring) (now : Z) (w : World) :
  let t := mkTask (ID random36) (trim s) false now in
  ((∃ t' w', addTask s random36 now w = (Normal (Some t'), w')) ↔ trim s ≠ []) ∧
  (trim s ≠ [] →
     ∃ w', addTask s random36 now w = (Normal (Some t), w') ∧
           text t = trim s ∧ completed t = false ∧
           tasks (this w') = t :: tasks (this w) ∧
           storageKey (this w') = storageKey (this w) ∧
           persisted w w') ∧
  (trim s = [] → addTask s random36 now w = (Normal None, w)).
Proof.
  intros t. split; [|split].
  - split.
    + intros (t' & w' & H) E. by rewrite addTask_empty in H.
    + intros E. rewrite addTask_nonempty by done. eauto.
  - intros E. rewrite addTask_nonempty by done. eexists. split; [done|].
    destruct (set_then_save w (t :: tasks (this w))) as [Hthis Hp].
    fold t. by rewrite Hthis.
  - apply addTask_empty.
Qed.

(** ** [updateTask] *)

Lemma updateTask_absent id0 u w :
  list_find (λ x, id x = id0) (tasks (this w)) = None →
  updateTask id0 u w = (Normal false, w).
Proof. intros E. unfold updateTask. js_unfold. by rewrite E. Qed.

Lemma updateTask_present id0 u w i t :
  list_find (λ x, id x = id0) (tasks (this w)) = Some (i, t) →
  updateTask id0 u w =
    (Normal true,
     (save (mkWorld (mkTaskManager (storageKey (this w))
                       (<[i := Object_assign t u]> (tasks (this w))))
                    (host w))).2).
Proof.
  intros E. unfold updateTask. js_unfold. rewrite E.
  cbn [this host tasks]. by rewrite save_normal.
Qed.

(** C5. For every id and every partial record of fields: when no task
    has the id, [updateTask] returns [false] normally (nothing is thrown)
    and the world is the one before the call: the list is the same and
    nothing is written; when a task has it, [updateTask] returns [true]
    normally, the first task with that id is replaced, at its place, by
    itself with the given fields assigned, and the list is persisted. *)
Theorem updateTask_spec (id0 : jsstring) (u : Updates) (w : World) :
  ((∀ t, t ∈ tasks (this w) → id t ≠ id0) →
     updateTask id0 u w = (Normal false, w)) ∧
  ((∃ t, t ∈ tasks (this w) ∧ id t = id0) →
     ∃ i t w',
       tasks (this w) !! i = Some t ∧ id t = id0 ∧
       (∀ j t', j < i → tasks (this w) !! j = Some t' → id t' ≠ id0) ∧
       updateTask id0 u w = (Normal true, w') ∧
       tasks (this w') = <[i := Object_assign t u]> (tasks (this w)) ∧
       storageKey (this w') = storageKey (this w) ∧
       persisted w w').
Proof.
  split.
  - intros H. apply updateTask_absent. apply list_find_None.
    apply Forall_forall. intros t Ht. by apply H.
  - intros (t0 & Hin & Hid).
    destruct (list_find (λ x, id x = id0) (tasks (this w))) as [[i t]|] eqn:E.
    + apply list_find_Some in E as (Hi & Ht & Hfirst).
      exists i, t. eexists. split; [done|]. split; [done|].
      split; [intros j t' Hj Hl; by eapply Hfirst|].
      split; [apply updateTask_present; apply list_find_Some; eauto|].
      destruct (set_then_save w (<[i := Object_assign t u]> (tasks (this w))))
        as [Hthis Hp].
      by rewrite Hthis.
    + apply list_find_None in E. rewrite Forall_forall in E.
      by destruct (E t0 Hin).
Qed.

(** ** [removeTask] and [clearCompleted] *)

(** Both methods filter the list and save when it got shorter. *)
Lemma length_filter_eq {A} (P : A → Prop) `{!∀ x, Decision (P x)} (l : list A) :
  length (filter P l) = length l → filter P l = l.
Proof.
  induction l as [|x l IH]; [done|].
  rewrite filter_cons. destruct (decide (P x)); simpl; intros Hlen.
  - f_equal. apply IH. lia.
  - pose proof (length_filter P l). lia.
Qed.

Lemma length_filter_split {A} (P : A → Prop) `{!∀ x, Decision (P x)} (l : list A) :
  length (filter P l) + length (filter (λ x, ¬ P x) l) = length l.
Proof.
  induction l as [|x l IH]; [done|].
  rewrite !filter_cons. destruct (decide (P x)), (decide (¬ P x)); simpl; try lia; tauto.
Qed.

Lemma removeTask_eq id0 w :
  let l' := filter (λ t, id t ≠ id0) (tasks (this w)) in
  removeTask id0 w =
    if bool_decide (length l' ≠ length (tasks (this w)))
    then (Normal true, (save (mkWorld (mkTaskManager (storageKey (this w)) l') (host w))).2)
    else (Normal false, mkWorld (mkTaskManager (storageKey (this w)) l') (host w)).
Proof.
  intros l'. unfold removeTask. js_unfold. cbn [this host tasks]. fold l'.
  case_bool_decide; [by rewrite save_normal | done].
Qed.

Lemma clearCompleted_eq w :
  let l' := filter (λ t, completed t = false) (tasks (this w)) in
  clearCompleted w =
    if bool_decide (length l' ≠ length (tasks (this w)))
    then (Normal (), (save (mkWorld (mkTaskManager (storageKey (this w)) l') (host w))).2)
    else (Normal (), mkWorld (mkTaskManager (storageKey (this w)) l') (host w)).
Proof.
  intros l'. unfold clearCompleted. js_unfold. cbn [this host tasks]. fold l'.
  case_bool_decide; [by rewrite save_normal | done].
Qed.

Lemma world_eta w : mkWorld (mkTaskManager (storageKey (this w)) (tasks (this w))) (host w) = w.
Proof. by destruct w as [[] ?]. Qed.

Lemma filter_id_absent id0 (l : list Task) :
  (∀ t, t ∈ l → id t ≠ id0) → filter (λ t, id t ≠ id0) l = l.
Proof.
  intros H. induction l as [|x l IH]; [done|].
  rewrite filter_cons_True by (apply H; left).
  f_equal. apply IH. intros t Ht. apply H. by right.
Qed.

Lemma filter_id_none id0 (l : list Task) :
  id0 ∉ id <$> l → filter (λ t, id t = id0) l = [].
Proof.
  intros H. induction l as [|x l IH]; [done|].
  rewrite fmap_cons in H. apply not_elem_of_cons in H as [Hx Hl].
  rewrite filter_cons_False by done. by apply IH.
Qed.

(** C2, as the code has it. For every list and every id: when a task
    with the id is present, [removeTask] returns [true], removes every
    task that carries the id, so that the count decreases by the number
    of those tasks (by exactly one when the ids of the list are pairwise
    distinct), no task with the id is left, and the list is persisted;
    when no task has the id, it returns [false] and the world is the one
    before the call: same list, same length, nothing written. *)
Theorem removeTask_spec (id0 : jsstring) (w : World) :
  ((∃ t, t ∈ tasks (this w) ∧ id t = id0) →
     ∃ w', removeTask id0 w = (Normal true, w') ∧
           tasks (this w') = filter (λ t, id t ≠ id0) (tasks (this w)) ∧
           length (tasks (this w')) + length (filter (λ t, id t = id0) (tasks (this w)))
             = length (tasks (this w)) ∧
           (NoDup (id <$> tasks (this w)) →
              length (tasks (this w')) + 1 = length (tasks (this w))) ∧
           (∀ t, t ∈ tasks (this w') → id t ≠ id0) ∧
           storageKey (this w') = storageKey (this w) ∧
           persisted w w') ∧
  ((∀ t, t ∈ tasks (this w) → id t ≠ id0) →
     removeTask id0 w = (Normal false, w)).
Proof.
  split.
  - intros (t0 & Hin & Hid). rewrite removeTask_eq.
    set (l := tasks (this w)) in *. set (l' := filter _ l).
    assert (Hsplit : length l' + length (filter (λ t, id t = id0) l) = length l).
    { rewrite <- (length_filter_split (λ t, id t = id0) l). unfold l'. lia. }
    assert (Hpos : 0 < length (filter (λ t, id t = id0) l)).
    { assert (t0 ∈ filter (λ t, id t = id0) l) as Hm by (by apply list_elem_of_filter).
      destruct (filter (λ t, id t = id0) l); [by apply elem_of_nil in Hm | simpl; lia]. }
    rewrite bool_decide_eq_true_2 by lia.
    eexists. split; [done|].
    destruct (set_then_save w l') as [Hthis Hp]. rewrite Hthis. cbn [tasks storageKey].
    split; [done|]. split; [done|]. split; [|split; [|done]].
    + intros Hnd.
      assert (length (filter (λ t, id t = id0) l) ≤ 1); [|lia].
      clear -Hnd. induction l as [|x l IH]; [simpl; lia|].
      rewrite fmap_cons in Hnd. apply NoDup_cons in Hnd as [Hx Hnd].
      rewrite filter_cons. destruct (decide (id x = id0)) as [<-|]; [|by apply IH].
      rewrite filter_id_none by done. simpl; lia.
    + intros t Ht. by apply list_elem_of_filter in Ht as [? _].
  - intros H. rewrite removeTask_eq. cbn zeta.
    rewrite filter_id_absent by done.
    rewrite bool_decide_eq_false_2 by (intros Hne; by apply Hne).
    by rewrite world_eta.
Qed.

(** C2 fails as stated. Two [addTask] calls for which [Math.random()]
    gives the same number leave two tasks with one id, and so does an
    [updateTask] that assigns to a task the id of another; [removeTask]
    of that id finds a task with the id and takes the count from 2 to 0,
    not down by exactly one. *)
Lemma removeTask_not_exactly_one :
  let w0 := empty_manager default_storageKey (empty_host 5000000) in
  let w := run [Call_addTask (js "a") (js "0.abcdefghij") 1;
                Call_addTask (js "b") (js "0.abcdefghij") 2] w0 in
  let w' := run [Call_addTask (js "a") (js "0.abcdefghij") 1;
                 Call_addTask (js "b") (js "0.klmnopqrst") 2;
                 Call_updateTask (js "_klmnopq")
                   (mkUpdates (Some (js "_abcdefg")) None None None)] w0 in
  ((∃ t, t ∈ tasks (this w) ∧ id t = js "_abcdefg") ∧
   (removeTask (js "_abcdefg") w).1 = Normal true ∧
   length (tasks (this w)) = 2 ∧
   length (tasks (this (removeTask (js "_abcdefg") w).2)) = 0 ∧
   length (tasks (this (removeTask (js "_abcdefg") w).2)) + 1 ≠ length (tasks (this w))) ∧
  ((∃ t, t ∈ tasks (this w') ∧ id t = js "_abcdefg") ∧
   (removeTask (js "_abcdefg") w').1 = Normal true ∧
   length (tasks (this w')) = 2 ∧
   length (tasks (this (removeTask (js "_abcdefg") w').2)) = 0 ∧
   length (tasks (this (removeTask (js "_abcdefg") w').2)) + 1 ≠ length (tasks (this w'))).
Proof.
  intros w0 w w'. split; (split; [|by vm_compute]).
  - exists (mkTask (js "_abcdefg") (js "a") false 1). split; [|done].
    vm_compute. apply list_elem_of_In. right. by left.
  - exists (mkTask (js "_abcdefg") (js "a") false 1). split; [|done].
    vm_compute. apply list_elem_of_In. right. by left.
Qed.

Lemma filter_filter_same {A} (P : A → Prop) `{!∀ x, Decision (P x)} (l : list A) :
  filter P (filter P l) = filter P l.
Proof.
  induction l as [|x l IH]; [done|].
  rewrite filter_cons. destruct (decide (P x)) as [Hx|Hx]; [|done].
  rewrite filter_cons_True by done. by rewrite IH.
Qed.

(** C8. For every list, [clearCompleted] keeps, in their order, exactly
    the tasks whose [completed] is [false] (a task of the new list is a
    task of the old list that is not completed); it persists the list
    when the count changed and otherwise leaves the world as it was; and
    a second call right after the first changes nothing at all, so the
    list after two calls is the list after one. *)
Theorem clearCompleted_spec (w : World) :
  ∃ w', clearCompleted w = (Normal (), w') ∧
        tasks (this w') = filter (λ t, completed t = false) (tasks (this w)) ∧
        (∀ t, t ∈ tasks (this w') ↔ t ∈ tasks (this w) ∧ completed t ≠ true) ∧
        storageKey (this w') = storageKey (this w) ∧
        (length (tasks (this w')) ≠ length (tasks (this w)) → persisted w w') ∧
        (length (tasks (this w')) = length (tasks (this w)) → w' = w) ∧
        clearCompleted w' = (Normal (), w').
Proof.
  set (l' := filter (λ t, completed t = false) (tasks (this w))).
  assert (Hmem : ∀ t, t ∈ l' ↔ t ∈ tasks (this w) ∧ completed t ≠ true).
  { intros t. unfold l'. rewrite list_elem_of_filter.
    split.
    - intros [Hc Hin]. split; [done | by rewrite Hc].
    - intros [Hin Hc]. split; [by destruct (completed t) | done]. }
  assert (Hidem : ∀ w1, tasks (this w1) = l' →
            clearCompleted w1 = (Normal (), w1)).
  { intros w1 E. rewrite clearCompleted_eq. cbn zeta. rewrite E.
    assert (filter (λ t, completed t = false) l' = l') as ->
      by apply filter_filter_same.
    rewrite bool_decide_eq_false_2 by (intros Hne; by apply Hne).
    by rewrite <- E, world_eta. }
  rewrite clearCompleted_eq. cbn zeta. fold l'.
  destruct (set_then_save w l') as [Hthis Hp].
  case_bool_decide as Hlen; eexists; (split; [done|]).
  - rewrite Hthis. cbn [tasks storageKey].
    split; [done|]. split; [done|]. split; [done|]. split; [done|].
    split; [done|]. apply Hidem. by rewrite Hthis.
  - cbn [this tasks storageKey].
    assert (l' = tasks (this w)) as E.
    { apply length_filter_eq. destruct (decide (length l' = length (tasks (this w)))); [done|].
      by destruct Hlen. }
    split; [done|]. split; [done|]. split; [done|]. split; [done|].
    split; [intros _; by rewrite E, world_eta|]. by apply Hidem.
Qed.

(** ** [getRemainingCount] *)

Lemma count_not_completed_filter (l : list Task) :
  length (filter (λ t, completed t = false) l) = count_not_completed l.
Proof.
  induction l as [|t l IH]; [done|].
  rewrite filter_cons. simpl. destruct (completed t); simpl; by rewrite IH.
Qed.

(** C9. After any sequence of calls of the mutating operations, from any
    list, [getRemainingCount] returns the number of tasks of the list
    whose [completed] is [false], and the world after the call is the
    world before it: the call reads and changes nothing. *)
Theorem getRemainingCount_spec (cs : list call) (w0 : World) :
  let w := run cs w0 in
  getRemainingCount w = (Normal (count_not_completed (tasks (this w))), w).
Proof.
  intros w. unfold getRemainingCount. js_unfold.
  by rewrite count_not_completed_filter.
Qed.

(** ** Frame: what a mutation leaves alone *)

(** C10. [updateTask(id, u)] keeps the length of the list and every
    position but one, and a task whose id is not the given one is at its
    place, unchanged; the lists left by [removeTask] and by
    [clearCompleted] are sublists of the list before: the surviving tasks
    in their original relative order. *)
Theorem mutations_frame (w : World) :
  (∀ id0 u,
     let l := tasks (this w) in
     let l' := tasks (this (updateTask id0 u w).2) in
     length l' = length l ∧
     (∀ i t, l !! i = Some t → id t ≠ id0 → l' !! i = Some t) ∧
     (∃ i, ∀ j, j ≠ i → l' !! j = l !! j)) ∧
  (∀ id0, sublist (tasks (this (removeTask id0 w).2)) (tasks (this w))) ∧
  sublist (tasks (this (clearCompleted w).2)) (tasks (this w)).
Proof.
  split; [|split].
  - intros id0 u l l'. subst l'.
    destruct (list_find (λ x, id x = id0) l) as [[i t]|] eqn:E.
    + unfold l in E. rewrite (updateTask_present _ _ _ _ _ E). cbn [snd].
      rewrite save_this. cbn [this tasks]. fold l.
      apply list_find_Some in E as (Hi & Ht & _).
      split; [apply length_insert|]. split.
      * intros j t' Hj Hne. rewrite list_lookup_insert_ne; [done|].
        intros <-. fold l in Hi. congruence.
      * exists i. intros j Hne. by rewrite list_lookup_insert_ne.
    + unfold l in E. rewrite (updateTask_absent _ _ _ E). cbn [snd]. fold l.
      split; [done|]. split; [done|]. by exists 0.
  - intros id0. rewrite removeTask_eq. cbn zeta.
    case_bool_decide; cbn [snd]; rewrite ?save_this; cbn [this tasks];
      apply sublist_filter.
  - rewrite clearCompleted_eq. cbn zeta.
    case_bool_decide; cbn [snd]; rewrite ?save_this; cbn [this tasks];
      apply sublist_filter.
Qed.

(** ** Invariants over sequences of calls *)

Lemma exec_tasks c w : tasks (this (exec c w)) = tasks_after c (tasks (this w)).
Proof.
  destruct c as [s r now|id0 u|id0|]; cbn [exec tasks_after].
  - case_bool_decide as E.
    + by rewrite addTask_empty.
    + rewrite addTask_nonempty by done. cbn [snd]. by rewrite save_this.
  - destruct (list_find _ _) as [[i t]|] eqn:E.
    + rewrite (updateTask_present _ _ _ _ _ E). cbn [snd]. by rewrite save_this.
    + by rewrite (updateTask_absent _ _ _ E).
  - rewrite removeTask_eq. cbn zeta.
    case_bool_decide; cbn [snd]; by rewrite ?save_this.
  - rewrite clearCompleted_eq. cbn zeta.
    case_bool_decide; cbn [snd]; by rewrite ?save_this.
Qed.

(** None of the four mutating methods throws. *)
Lemma exec_normal c w :
  match c with
  | Call_addTask s r now => ∃ o, addTask s r now w = (Normal o, exec c w)
  | Call_updateTask id0 u => ∃ b, updateTask id0 u w = (Normal b, exec c w)
  | Call_removeTask id0 => ∃ b, removeTask id0 w = (Normal b, exec c w)
  | Call_clearCompleted => clearCompleted w = (Normal (), exec c w)
  end.
Proof.
  destruct c as [s r now|id0 u|id0|]; cbn [exec].
  - destruct (decide (trim s = [])) as [E|E].
    + rewrite addTask_empty by done. eauto.
    + rewrite addTask_nonempty by done. eauto.
  - destruct (list_find (λ x, id x = id0) (tasks (this w))) as [[i t]|] eqn:E.
    + rewrite (updateTask_present _ _ _ _ _ E). eauto.
    + rewrite (updateTask_absent _ _ _ E). eauto.
  - rewrite removeTask_eq. cbn zeta. case_bool_decide; eauto.
  - rewrite clearCompleted_eq. cbn zeta. by case_bool_decide.
Qed.

Lemma run_snoc cs c w : run (cs ++ [c]) w = exec c (run cs w).
Proof. unfold run. by rewrite foldl_app. Qed.

(** An invariant of the list that every permitted call keeps holds after
    every permitted sequence. *)
Lemma run_invariant (ok : call → World → bool) (I : list Task → Prop) :
  (∀ c w, ok c w = true → I (tasks (this w)) → I (tasks_after c (tasks (this w)))) →
  ∀ cs w, all_calls ok cs w = true → I (tasks (this w)) → I (tasks (this (run cs w))).
Proof.
  intros Hstep cs. induction cs as [|c cs IH]; intros w Hok HI; [done|].
  cbn [all_calls] in Hok. apply andb_true_iff in Hok as [Hc Hcs].
  cbn [run foldl]. apply IH; [done|]. rewrite exec_tasks. by apply Hstep.
Qed.

(** *** Identity of tasks *)

Lemma Object_assign_id t u : upd_id u = None → id (Object_assign t u) = id t.
Proof. intros E. unfold Object_assign. cbn [id]. by rewrite E. Qed.

Lemma update_keeps_ids id0 u (l : list Task) :
  upd_id u = None → id <$> tasks_after (Call_updateTask id0 u) l = id <$> l.
Proof.
  intros E. cbn [tasks_after].
  destruct (list_find _ _) as [[i t]|] eqn:F; [|done].
  apply list_find_Some in F as (Hi & _ & _).
  rewrite list_fmap_insert, Object_assign_id by done.
  apply list_insert_id. by rewrite list_lookup_fmap, Hi.
Qed.

Lemma keeps_ids_NoDup c w :
  keeps_ids c w = true →
  NoDup (id <$> tasks (this w)) → NoDup (id <$> tasks_after c (tasks (this w))).
Proof.
  intros Hok Hnd. destruct c as [s r now|id0 u|id0|]; cbn [keeps_ids] in Hok.
  - cbn [tasks_after]. destruct (decide (trim s = [])) as [E|E].
    + by rewrite bool_decide_eq_true_2.
    + rewrite (bool_decide_eq_false_2 _ E) in *. cbn [orb] in Hok.
      apply bool_decide_eq_true in Hok.
      rewrite fmap_cons. by apply NoDup_cons.
  - apply bool_decide_eq_true in Hok. by rewrite update_keeps_ids.
  - eapply sublist_NoDup; [exact Hnd|]. apply fmap_sublist, sublist_filter.
  - eapply sublist_NoDup; [exact Hnd|]. apply fmap_sublist, sublist_filter.
Qed.

(** C3, as the code has it. In every state reached from the empty list
    by a sequence of calls in which every id that [addTask] generates is
    not an id of the list at that time and no [updateTask] carries an
    [id] field, the ids of the tasks are pairwise distinct; and in such a
    state an [updateTask] that carries no [id] field leaves the id at
    every place of the list as it was. *)
Theorem ids_unique_and_kept (cs : list call) (key : jsstring) (h : Host) :
  all_calls keeps_ids cs (empty_manager key h) = true →
  let w := run cs (empty_manager key h) in
  NoDup (id <$> tasks (this w)) ∧
  (∀ id0 u, upd_id u = None →
     id <$> tasks (this (exec (Call_updateTask id0 u) w)) = id <$> tasks (this w)).
Proof.
  intros Hok w. split.
  - apply (run_invariant keeps_ids (λ l, NoDup (id <$> l))); [|done|].
    + apply keeps_ids_NoDup.
    + cbn. apply NoDup_nil_2.
  - intros id0 u E. rewrite exec_tasks. by apply update_keeps_ids.
Qed.

(** C3 fails as stated, in two ways. After two [addTask] calls with
    different random numbers, [updateTask(id_b, { id: id_a })] gives the
    second task the id of the first: the id of a task has changed and two
    tasks of the list share one id. And two [addTask] calls for which
    [Math.random()] gives the same number create two tasks with one id. *)
Lemma ids_changed_by_update :
  let w0 := empty_manager default_storageKey (empty_host 5000000) in
  let w1 := run [Call_addTask (js "a") (js "0.aaaaaaaaaa") 1;
                 Call_addTask (js "b") (js "0.bbbbbbbbbb") 2] w0 in
  let w2 := exec (Call_updateTask (js "_bbbbbbb")
                    (mkUpdates (Some (js "_aaaaaaa")) None None None)) w1 in
  let w3 := run [Call_addTask (js "a") (js "0.aaaaaaaaaa") 1;
                 Call_addTask (js "b") (js "0.aaaaaaaaaa") 2] w0 in
  (id <$> tasks (this w1) = [js "_bbbbbbb"; js "_aaaaaaa"] ∧
   id <$> tasks (this w2) = [js "_aaaaaaa"; js "_aaaaaaa"] ∧
   ¬ NoDup (id <$> tasks (this w2))) ∧
  (id <$> tasks (this w3) = [js "_aaaaaaa"; js "_aaaaaaa"] ∧
   ¬ NoDup (id <$> tasks (this w3))).
Proof.
  intros w0 w1 w2 w3.
  assert (Hdup : ¬ NoDup [js "_aaaaaaa"; js "_aaaaaaa"]).
  { intros Hnd. apply NoDup_cons in Hnd as [Hnotin _]. apply Hnotin. by left. }
  assert (id <$> tasks (this w2) = [js "_aaaaaaa"; js "_aaaaaaa"]) as E2
    by (by vm_compute).
  assert (id <$> tasks (this w3) = [js "_aaaaaaa"; js "_aaaaaaa"]) as E3
    by (by vm_compute).
  split; [split; [by vm_compute|]|]; (split; [done|]).
  - by rewrite E2.
  - by rewrite E3.
Qed.

(** *** Texts *)

Lemma trimStart_head s c r : trimStart s = c :: r → isStrWhiteSpaceChar c = false.
Proof.
  induction s as [|d s IH]; [done|]. cbn [trimStart].
  destruct (isStrWhiteSpaceChar d) eqn:E; [done|]. by intros [= <- _].
Qed.

Lemma trimStart_not_ws c r : isStrWhiteSpaceChar c = false → trimStart (c :: r) = c :: r.
Proof. intros E. cbn [trimStart]. by rewrite E. Qed.

Lemma trimStart_idemp s : trimStart (trimStart s) = trimStart s.
Proof.
  destruct (trimStart s) as [|c r] eqn:E; [done|].
  apply trimStart_not_ws. by eapply trimStart_head.
Qed.

Lemma trimStart_snoc s c :
  isStrWhiteSpaceChar c = false → trimStart (s ++ [c]) = trimStart s ++ [c].
Proof.
  intros E. induction s as [|d s IH]; [by apply trimStart_not_ws|].
  cbn [app trimStart]. by destruct (isStrWhiteSpaceChar d).
Qed.

Lemma trimEnd_cons_not_ws c r :
  isStrWhiteSpaceChar c = false → trimEnd (c :: r) = c :: trimEnd r.
Proof.
  intros E. unfold trimEnd. cbn [rev].
  rewrite trimStart_snoc by done. by rewrite rev_unit.
Qed.

Lemma trimEnd_idemp s : trimEnd (trimEnd s) = trimEnd s.
Proof. unfold trimEnd. by rewrite rev_involutive, trimStart_idemp. Qed.

(** [trim] leaves a trimmed text as it is. *)
Lemma trim_idemp s : trim (trim s) = trim s.
Proof.
  unfold trim at 1. assert (trimStart (trim s) = trim s) as ->; [|apply trimEnd_idemp].
  unfold trim. destruct (trimStart s) as [|c r] eqn:E; [done|].
  apply trimStart_head in E. rewrite trimEnd_cons_not_ws by done.
  by apply trimStart_not_ws.
Qed.

Lemma Forall_filter_keep {A} (P Q : A → Prop) `{!∀ x, Decision (Q x)} (l : list A) :
  Forall P l → Forall P (filter Q l).
Proof.
  rewrite !Forall_forall. intros Hl x Hx.
  apply list_elem_of_filter in Hx as [_ Hx]. by apply Hl.
Qed.

Lemma keeps_texts_ok c (l : list Task) :
  keeps_texts c = true → texts_ok l → texts_ok (tasks_after c l).
Proof.
  unfold texts_ok. intros Hok Hl.
  destruct c as [s r now|id0 u|id0|]; cbn [tasks_after].
  - case_bool_decide as E; [done|]. apply Forall_cons. split; [|done].
    cbn [text]. split; [done | apply trim_idemp].
  - destruct (list_find _ _) as [[i t]|] eqn:F; [|done].
    apply list_find_Some in F as (Hi & _ & _).
    apply Forall_insert; [done|].
    unfold Object_assign. cbn [text]. cbn [keeps_texts] in Hok.
    destruct (upd_text u) as [s|]; cbn [default].
    + apply andb_true_iff in Hok as [H1 H2].
      apply bool_decide_eq_true in H1, H2. done.
    + by eapply Forall_lookup_1 in Hl.
  - by apply Forall_filter_keep.
  - by apply Forall_filter_keep.
Qed.

(** The calls of the view keep ids and texts. *)
Lemma view_calls_keep id0 textContent confirmed checked w :
  (keeps_ids (view_toggle id0 checked) w = true ∧
   keeps_texts (view_toggle id0 checked) = true) ∧
  (∀ c, view_edit_commit id0 textContent confirmed = Some c →
        keeps_ids c w = true ∧ keeps_texts c = true).
Proof.
  split; [done|]. intros c. unfold view_edit_commit.
  case_bool_decide as E.
  - destruct confirmed; [|done]. by intros [= <-].
  - intros [= <-]. split; [done|]. cbn [keeps_texts text_update upd_text].
    apply andb_true_iff. split; apply bool_decide_eq_true; [done | apply trim_idemp].
Qed.

(** C4, as the code has it. Empty text is rejected at creation:
    [addTask] on a text that is empty after [trim] returns [null] and
    leaves the list and the storage as they are. On every other text it
    puts, at the head of the list, a task whose text is the trimmed
    input, a non-empty trimmed string. In every state reached from the
    empty list by a sequence of calls in which every [updateTask] that
    carries a [text] field carries a non-empty trimmed one, the text of
    every task is non-empty and trimmed. *)
Theorem texts_nonempty_and_trimmed (cs : list call) (key : jsstring) (h : Host) :
  (∀ s random36 now w,
     (trim s = [] → addTask s random36 now w = (Normal None, w)) ∧
     (trim s ≠ [] →
        ∃ t w', addTask s random36 now w = (Normal (Some t), w') ∧
                tasks (this w') = t :: tasks (this w) ∧
                text t = trim s ∧ text t ≠ [] ∧ trimmed (text t))) ∧
  (all_calls (λ c _, keeps_texts c) cs (empty_manager key h) = true →
   ∀ t, t ∈ tasks (this (run cs (empty_manager key h))) →
        text t ≠ [] ∧ trimmed (text t)).
Proof.
  split.
  - intros s random36 now w. split; [apply addTask_empty|].
    intros Hne. rewrite (addTask_nonempty s random36 now w Hne).
    eexists _, _. split; [reflexivity|]. rewrite save_this. cbn [this tasks text].
    split; [done|]. split; [done|]. split; [done|]. apply trim_idemp.
  - intros Hok.
    assert (texts_ok (tasks (this (run cs (empty_manager key h))))) as Hall.
    { apply (run_invariant (λ c _, keeps_texts c) texts_ok); [|done|].
      - intros c w. apply keeps_texts_ok.
      - apply Forall_nil_2. }
    intros t Ht. unfold texts_ok in Hall. rewrite Forall_forall in Hall. by apply Hall.
Qed.

(** C4 fails as stated. [updateTask(id, { text: '' })] on a task that
    [addTask] created stores the empty text, and [updateTask] with a text
    that has a space at each end stores that text untrimmed: the Task
    Store accepts both (the check is in the edit handler of the view,
    lines 202-214). *)
Lemma empty_text_stored_by_update :
  let w0 := empty_manager default_storageKey (empty_host 5000000) in
  let w := run [Call_addTask (js "a") (js "0.aaaaaaaaaa") 1;
                Call_updateTask (js "_aaaaaaa") (text_update [])] w0 in
  let w' := run [Call_addTask (js "a") (js "0.aaaaaaaaaa") 1;
                 Call_updateTask (js "_aaaaaaa") (text_update (js " a "))] w0 in
  (tasks (this w) = [mkTask (js "_aaaaaaa") [] false 1] ∧
   ∃ t, t ∈ tasks (this w) ∧ text t = []) ∧
  (tasks (this w') = [mkTask (js "_aaaaaaa") (js " a ") false 1] ∧
   ∃ t, t ∈ tasks (this w') ∧ trim (text t) ≠ text t).
Proof.
  intros w0 w w'.
  assert (tasks (this w) = [mkTask (js "_aaaaaaa") [] false 1]) as E
    by (by vm_compute).
  assert (tasks (this w') = [mkTask (js "_aaaaaaa") (js " a ") false 1]) as E'
    by (by vm_compute).
  split; (split; [done|]).
  - rewrite E. eexists. split; [by left | done].
  - rewrite E'. eexists. split; [by left|]. by vm_compute.
Qed.

(** ** [load] and [save] *)

Section Load.

Variable JSON_parse : jsstring → option json.

Local Ltac load_done :=
  eexists; (split; [reflexivity|]);
  cbn [this host items quota accessible log_event]; done.

(** What [load] returns, read off the storage. *)
Lemma load_eq w :
  ∃ w', load JSON_parse w =
          (Normal (if accessible (host w) then
                     match items (host w) !! storageKey (this w) with
                     | Some (c :: s) =>
                         match JSON_parse (c :: s) with
                         | Some (JArray l) => JArray l
                         | _ => JArray []
                         end
                     | _ => JArray []
                     end
                   else JArray []), w') ∧
        this w' = this w ∧ items (host w') = items (host w) ∧
        quota (host w') = quota (host w) ∧ accessible (host w') = accessible (host w).
Proof.
  unfold load, localStorage_getItem, JSON_parse_or_throw. js_unfold.
  cbn [this host accessible log_event items].
  destruct (accessible (host w)) eqn:Ha; [|load_done].
  destruct (items (host w) !! storageKey (this w)) as [[|c s]|];
    cbn [falsy default from_option Datatypes.id];
    try load_done.
  destruct (JSON_parse (c :: s)) as [v|]; [|load_done].
  destruct v; cbn [Array_isArray negb]; load_done.
Qed.

(** C7, as the code has it. Whatever the storage holds, [load] ends
    normally (it throws nothing) and leaves the manager and the entries
    of the storage as they are. It returns the empty list when the entry
    is missing, when it is the empty text, when it is not JSON
    ([JSON.parse] throws), when it denotes a value that is not an array,
    and when the storage cannot be read; an entry of one of these kinds
    gives what an absent entry gives. An entry that denotes an array is
    returned as that array, whatever its elements are: nothing checks
    that they are task records. *)
Theorem load_falls_back_to_empty (w : World) :
  let key := storageKey (this w) in
  let raw := items (host w) !! key in
  let without := mkWorld (this w)
                   (mkHost (delete key (items (host w))) (quota (host w))
                           (accessible (host w)) (trace (host w))) in
  (∃ v w', load JSON_parse w = (Normal v, w') ∧
           this w' = this w ∧ items (host w') = items (host w)) ∧
  (raw = None ∨ raw = Some [] ∨ accessible (host w) = false ∨
   (∃ s, raw = Some s ∧ JSON_parse s = None) ∨
   (∃ s v, raw = Some s ∧ JSON_parse s = Some v ∧ Array_isArray v = false) →
     (load JSON_parse w).1 = Normal (JArray [])) ∧
  (∀ s, raw = Some s →
     s = [] ∨ JSON_parse s = None ∨
     (∃ v, JSON_parse s = Some v ∧ Array_isArray v = false) →
     (load JSON_parse w).1 = (load JSON_parse without).1 ∧
     (load JSON_parse without).1 = Normal (JArray [])) ∧
  (∀ s l, accessible (host w) = true → raw = Some s → s ≠ [] →
     JSON_parse s = Some (JArray l) →
     (load JSON_parse w).1 = Normal (JArray l)).
Proof.
  intros key raw without.
  destruct (load_eq w) as (w' & Hload & Hthis & Hitems & _).
  assert (Hwithout : (load JSON_parse without).1 = Normal (JArray [])).
  { destruct (load_eq without) as (w2 & -> & _). cbn [fst this host items accessible without].
    fold key. rewrite lookup_delete_eq. by destruct (accessible (host w)). }
  assert (Hfall : raw = None ∨ raw = Some [] ∨ accessible (host w) = false ∨
            (∃ s, raw = Some s ∧ JSON_parse s = None) ∨
            (∃ s v, raw = Some s ∧ JSON_parse s = Some v ∧ Array_isArray v = false) →
            (load JSON_parse w).1 = Normal (JArray [])).
  { rewrite Hload. cbn [fst]. fold key raw.
    intros [H|[H|[H|[(s & H & Hp)|(s & v & H & Hp & Harr)]]]]; rewrite H.
    + by destruct (accessible (host w)).
    + by destruct (accessible (host w)).
    + done.
    + destruct (accessible (host w)); [|done]. destruct s; [done|]. by rewrite Hp.
    + destruct (accessible (host w)); [|done]. destruct s; [done|]. rewrite Hp.
      by destruct v. }
  split; [eauto|]. split; [exact Hfall|]. split.
  - intros s Hs Hkind. split; [|done]. rewrite Hwithout. apply Hfall.
    destruct Hkind as [->|[Hp|(v & Hp & Harr)]]; eauto 10.
  - intros s l Hacc Hs Hne Hp. rewrite Hload. cbn [fst]. fold key raw.
    rewrite Hacc, Hs. destruct s; [done|]. by rewrite Hp.
Qed.

(** [load] after a [save] that the storage took. *)
Lemma load_after_save (w : World) :
  let key := storageKey (this w) in
  let saved := JArray (task_json <$> tasks (this w)) in
  write_accepted (host w) key (JSON_stringify saved) = true →
  JSON_parse (JSON_stringify saved) = Some saved →
  (load JSON_parse (fresh_session key (host (save w).2))).1 = Normal saved.
Proof.
  intros key saved Hw Hparse.
  pose proof (save_persisted w) as (_ & Hitems & _).
  rewrite save_this in Hitems. fold key in Hitems.
  unfold stored_text in Hitems. fold saved in Hitems. specialize (Hitems Hw).
  destruct (load_eq (fresh_session key (host (save w).2))) as (w' & -> & _).
  cbn [fst fresh_session empty_manager this host storageKey].
  rewrite Hitems, lookup_insert_eq.
  assert (accessible (host (save w).2) = true) as ->.
  { rewrite save_accessible. unfold write_accepted in Hw.
    by apply andb_true_iff in Hw as [Ha _]. }
  destruct (JSON_stringify saved) as [|c s] eqn:E.
  { unfold saved in E. discriminate E. }
  by rewrite Hparse.
Qed.

End Load.

(** ** The reference parser inverts [JSON.stringify] *)

Lemma hex_value_hex_char d : (d < 16)%N → hex_value (hex_char d) = Some d.
Proof.
  intros Hd. unfold hex_char, hex_value.
  destruct (N.ltb_spec d 10).
  - rewrite (proj2 (N.leb_le 48 (48 + d))) by lia.
    rewrite (proj2 (N.leb_le (48 + d) 57)) by lia. cbn [andb]. f_equal. lia.
  - rewrite (proj2 (N.leb_gt (87 + d) 57)) by lia. rewrite andb_false_r.
    rewrite (proj2 (N.leb_le 97 (87 + d))) by lia.
    rewrite (proj2 (N.leb_le (87 + d) 102)) by lia. cbn [andb]. f_equal. lia.
Qed.

Lemma hex_digits_value c :
  (c < 65536)%N →
  (((c / 4096) mod 16) * 4096 + ((c / 256) mod 16) * 256
   + ((c / 16) mod 16) * 16 + c mod 16 = c)%N.
Proof.
  intros Hc.
  pose proof (N.div_mod c 16 ltac:(lia)).
  pose proof (N.div_mod (c / 16) 16 ltac:(lia)).
  pose proof (N.div_mod (c / 256) 16 ltac:(lia)).
  pose proof (N.mod_small (c / 4096) 16) as Hs.
  replace (c / 256)%N with (c / 16 / 16)%N in * by (rewrite N.Div0.div_div; reflexivity).
  replace (c / 4096)%N with (c / 16 / 16 / 16)%N in * by (rewrite !N.Div0.div_div; reflexivity).
  rewrite Hs.
  2:{ apply N.Div0.div_lt_upper_bound. apply N.Div0.div_lt_upper_bound.
      apply N.Div0.div_lt_upper_bound. lia. }
  lia.
Qed.

Lemma parse_chars_UnicodeEscape c x :
  (c < 65536)%N →
  parse_chars (UnicodeEscape c ++ x) = r ← parse_chars x; Some (c :: r.1, r.2).
Proof.
  intros Hc. unfold UnicodeEscape.
  change (parse_chars ([92; 117; hex_char ((c / 4096) mod 16);
                        hex_char ((c / 256) mod 16); hex_char ((c / 16) mod 16);
                        hex_char (c mod 16)]%N ++ x))
    with (a ← hex_value (hex_char ((c / 4096) mod 16));
          b ← hex_value (hex_char ((c / 256) mod 16));
          c' ← hex_value (hex_char ((c / 16) mod 16));
          d ← hex_value (hex_char (c mod 16));
          r ← parse_chars x;
          Some ((a * 4096 + b * 256 + c' * 16 + d)%N :: r.1, r.2)).
  rewrite !hex_value_hex_char by (apply N.mod_lt; lia).
  cbn [mbind option_bind]. by rewrite hex_digits_value.
Qed.

Lemma parse_chars_literal c x :
  c ≠ 34%N → c ≠ 92%N → (32 <= c)%N →
  parse_chars (c :: x) = r ← parse_chars x; Some (c :: r.1, r.2).
Proof.
  intros H1 H2 H3. cbn [parse_chars].
  rewrite (proj2 (N.eqb_neq c 34)), (proj2 (N.eqb_neq c 92)) by done.
  by rewrite (proj2 (N.ltb_ge c 32)).
Qed.

Lemma parse_chars_quote_unit c x :
  parse_chars (quote_unit c ++ x) = r ← parse_chars x; Some (c :: r.1, r.2).
Proof.
  unfold quote_unit.
  repeat (match goal with
          | |- context [(c =? ?k)%N] => destruct (N.eqb_spec c k) as [->|?]; [reflexivity|]
          end).
  destruct ((c <? 32)%N || is_high_surrogate c || is_low_surrogate c) eqn:E.
  - apply parse_chars_UnicodeEscape.
    unfold is_high_surrogate, is_low_surrogate in E.
    repeat (apply orb_true_iff in E as [E|E]); [apply N.ltb_lt in E; lia | |];
      apply andb_true_iff in E as [_ E]; apply N.leb_le in E; lia.
  - apply orb_false_iff in E as [E _]. apply orb_false_iff in E as [E _].
    apply N.ltb_ge in E. by apply parse_chars_literal.
Qed.

Lemma quote_units_cons c s :
  quote_units (c :: s) =
    match s with
    | d :: s' =>
        if is_high_surrogate c && is_low_surrogate d
        then c :: d :: quote_units s'
        else quote_unit c ++ quote_units s
    | [] => quote_unit c ++ quote_units s
    end.
Proof. destruct s; [by rewrite app_nil_r | done]. Qed.

(** A string literal is read back as the string it quotes. *)
Lemma parse_chars_quote_units s rest :
  parse_chars (quote_units s ++ 34%N :: rest) = Some (s, rest).
Proof.
  remember (length s) as n eqn:Hn. revert s Hn.
  induction n as [n IH] using lt_wf_ind. intros s Hn.
  destruct s as [|c s]; [done|].
  assert (Hplain : parse_chars ((quote_unit c ++ quote_units s) ++ 34%N :: rest)
                   = Some (c :: s, rest)).
  { rewrite <- app_assoc, parse_chars_quote_unit.
    rewrite (IH (length s)) by (simpl in Hn; lia || done). done. }
  rewrite quote_units_cons. destruct s as [|d s']; [done|].
  destruct (is_high_surrogate c && is_low_surrogate d) eqn:E; [|done].
  apply andb_true_iff in E as [Hc Hd].
  unfold is_high_surrogate in Hc. unfold is_low_surrogate in Hd.
  apply andb_true_iff in Hc as [Hc _]. apply andb_true_iff in Hd as [Hd _].
  apply N.leb_le in Hc, Hd.
  cbn [app]. rewrite !parse_chars_literal by lia.
  rewrite (IH (length s')) by (simpl in Hn; lia || done). done.
Qed.

(** *** Numbers *)

Lemma pos_digits_spec fuel n acc :
  fuel ≠ 0 → (n < 10 ^ N.of_nat fuel)%N →
  ∃ ds, pos_digits fuel n acc = ds ++ acc ∧
        Forall (λ c, is_digit c = true) ds ∧
        (∀ a, foldl (λ a d, a * 10 + (d - 48))%N a ds
              = (a * 10 ^ N.of_nat (length ds) + n)%N) ∧
        (∃ d ds', ds = d :: ds' ∧ (d = 48%N → ds' = [])).
Proof.
  revert n acc. induction fuel as [|f IH]; intros n acc Hf Hn; [done|].
  cbn [pos_digits]. destruct (N.ltb_spec n 10) as [Hlt|Hge].
  - exists [digit_char (n mod 10)]. unfold digit_char. rewrite N.mod_small by done.
    split; [done|]. split; [|split].
    + apply Forall_singleton. unfold is_digit.
      apply andb_true_iff. split; apply N.leb_le; lia.
    + intros a. cbn [foldl length]. change (N.of_nat 1) with 1%N. lia.
    + by eexists _, [].
  - assert (f ≠ 0) as Hf'.
    { intros ->. change (10 ^ N.of_nat 1)%N with 10%N in Hn. lia. }
    assert (n / 10 < 10 ^ N.of_nat f)%N as Hn'.
    { apply N.Div0.div_lt_upper_bound.
      replace (N.of_nat (S f)) with (N.succ (N.of_nat f)) in Hn by lia.
      by rewrite N.pow_succ_r' in Hn. }
    destruct (IH (n / 10)%N (digit_char (n mod 10) :: acc) Hf' Hn')
      as (ds & -> & Hdig & Hval & (d & ds' & -> & Hzero)).
    exists ((d :: ds') ++ [digit_char (n mod 10)]).
    split; [by rewrite <- app_assoc|]. split; [|split].
    + apply Forall_app. split; [done|]. apply Forall_singleton.
      unfold is_digit, digit_char. pose proof (N.mod_lt n 10 ltac:(lia)).
      pose proof (N.le_0_l (n mod 10)).
      apply andb_true_iff. split; apply N.leb_le; lia.
    + intros a. rewrite foldl_app, Hval. cbn [foldl]. rewrite length_app.
      cbn [length]. replace (N.of_nat (S (length ds') + 1))
        with (N.succ (N.of_nat (S (length ds')))) by lia.
      rewrite N.pow_succ_r'. unfold digit_char.
      pose proof (N.div_mod n 10 ltac:(lia)) as Hdm.
      rewrite (N.add_comm 48), N.add_sub.
      transitivity (a * (10 * 10 ^ N.of_nat (S (length ds')))
                    + (10 * (n / 10) + n mod 10))%N; [ring | by rewrite <- Hdm].
    + exists d, (ds' ++ [digit_char (n mod 10)]). split; [done|].
      intros ->. specialize (Hzero eq_refl) as ->.
      specialize (Hval 0%N). cbn in Hval.
      assert (n / 10 = 0)%N by lia.
      apply N.div_small_iff in H; lia.
Qed.

Lemma N_to_string_spec n :
  Forall (λ c, is_digit c = true) (N_to_string n) ∧
  digits_value (N_to_string n) = n ∧
  (∃ d ds', N_to_string n = d :: ds' ∧ (d = 48%N → ds' = [])).
Proof.
  unfold N_to_string, digits_value.
  destruct (pos_digits_spec (S (N.to_nat (N.log2 n))) n [])
    as (ds & E & Hdig & Hval & Hzero); [done| |].
  - replace (N.of_nat (S (N.to_nat (N.log2 n)))) with (N.succ (N.log2 n)) by lia.
    destruct (decide (n = 0%N)) as [->|Hn]; [done|].
    eapply N.lt_le_trans; [apply N.log2_spec; lia|].
    apply N.pow_le_mono_l. lia.
  - rewrite app_nil_r in E. rewrite E. split; [done|]. split; [|done].
    rewrite Hval. lia.
Qed.

Lemma read_digits_app ds rest :
  Forall (λ c, is_digit c = true) ds → delimited rest = true →
  read_digits (ds ++ rest) = (ds, rest).
Proof.
  intros Hds Hrest. induction Hds as [|c ds Hc _ IH].
  - destruct rest as [|c rest]; [done|]. cbn [app read_digits].
    cbn [delimited] in Hrest. apply andb_true_iff in Hrest as [Hd _].
    by destruct (is_digit c).
  - cbn [app read_digits]. by rewrite Hc, IH.
Qed.

Lemma parse_unsigned ds rest :
  Forall (λ c, is_digit c = true) ds →
  (∃ d ds', ds = d :: ds' ∧ (d = 48%N → ds' = [])) →
  delimited rest = true →
  parse_number (ds ++ rest) = Some (Z.of_N (digits_value ds), rest).
Proof.
  intros Hds (d & ds' & -> & Hzero) Hrest. unfold parse_number.
  assert (Hd : is_digit d = true) by (by apply Forall_cons in Hds as [? _]).
  assert ((d =? 45)%N = false) as Hminus.
  { apply N.eqb_neq. intros ->. done. }
  cbn [app]. rewrite Hminus. cbn [fst snd].
  change (d :: ds' ++ rest) with ((d :: ds') ++ rest).
  rewrite read_digits_app by done. cbn [fst snd].
  assert ((d =? 48)%N && negb (bool_decide (ds' = [])) = false) as ->.
  { destruct (N.eqb_spec d 48) as [E|E]; [|done].
    rewrite (Hzero E). by rewrite bool_decide_eq_true_2. }
  destruct rest as [|c rest]; [done|].
  cbn [delimited] in Hrest. apply andb_true_iff in Hrest as [_ Hc].
  apply negb_true_iff in Hc. by rewrite Hc.
Qed.

Lemma parse_number_toString z rest :
  delimited rest = true →
  parse_number (Number_toString z ++ rest) = Some (z, rest).
Proof.
  intros Hrest. unfold Number_toString.
  destruct z as [|p|p].
  - destruct (N_to_string_spec (Z.to_N 0)) as (Hdig & Hval & Hzero).
    rewrite parse_unsigned by done. by rewrite Hval.
  - destruct (N_to_string_spec (Z.to_N (Z.pos p))) as (Hdig & Hval & Hzero).
    rewrite parse_unsigned by done. by rewrite Hval.
  - destruct (N_to_string_spec (N.pos p)) as (Hdig & Hval & Hzero).
    pose proof (parse_unsigned _ _ Hdig Hzero Hrest) as Hu.
    destruct Hzero as (d & ds' & E & Hzero).
    assert (Hd : is_digit d = true).
    { rewrite E in Hdig. by apply Forall_cons in Hdig as [? _]. }
    assert ((d =? 45)%N = false) as Hminus by (apply N.eqb_neq; by intros ->).
    unfold parse_number in *. change (js "-" ++ ?x) with (45%N :: x).
    cbn [app]. change (45 =? 45)%N with true. cbn [fst snd].
    rewrite E in Hu. cbn [app] in Hu. rewrite Hminus in Hu. cbn [fst snd] in Hu.
    rewrite E. cbn [app].
    destruct (read_digits (d :: ds' ++ rest)) as [r1 r2]. cbn [fst snd] in *.
    destruct r1 as [|e r1]; [done|].
    destruct ((e =? 48)%N && negb (bool_decide (r1 = []))); [done|].
    destruct (match r2 with [] => false | c :: _ => _ end); [done|].
    injection Hu as Hv ->. rewrite <- E, Hval in Hv. by rewrite Hv.
Qed.

(** *** Values *)

Lemma json_ind' (P : json → Prop) :
  P JNull → (∀ b, P (JBool b)) → (∀ n, P (JNumber n)) → (∀ s, P (JString s)) →
  (∀ l, Forall P l → P (JArray l)) →
  (∀ ps, Forall (λ p, P p.2) ps → P (JObject ps)) →
  ∀ v, P v.
Proof.
  intros Hnull Hbool Hnum Hstr Harr Hobj.
  fix F 1. intros [| b | n | s | l | ps]; [done..| |].
  - apply Harr. induction l as [|x l IH]; constructor; [apply F | apply IH].
  - apply Hobj. induction ps as [|[k x] ps IH]; constructor; [apply F | apply IH].
Qed.

Lemma parse_value_null fuel rest :
  parse_value (S fuel) (js "null" ++ rest) = Some (JNull, rest).
Proof. reflexivity. Qed.

Lemma parse_value_bool fuel b rest :
  parse_value (S fuel) (JSON_stringify (JBool b) ++ rest) = Some (JBool b, rest).
Proof. by destruct b. Qed.

Lemma parse_value_string fuel s rest :
  parse_value (S fuel) (QuoteJSONString s ++ rest) = Some (JString s, rest).
Proof.
  unfold QuoteJSONString. rewrite <- !app_assoc.
  change (parse_value (S fuel) ([34%N] ++ quote_units s ++ [34%N] ++ rest))
    with (r ← parse_chars (quote_units s ++ 34%N :: rest); Some (JString r.1, r.2)).
  by rewrite parse_chars_quote_units.
Qed.

Lemma Number_toString_head z :
  ∃ c s, Number_toString z = c :: s ∧ (c = 45%N ∨ is_digit c = true).
Proof.
  unfold Number_toString. destruct z as [|p|p].
  - destruct (N_to_string_spec (Z.to_N 0)) as (Hdig & _ & (d & ds & E & _)).
    rewrite E in *. apply Forall_cons in Hdig as [? _]. eauto.
  - destruct (N_to_string_spec (Z.to_N (Z.pos p))) as (Hdig & _ & (d & ds & E & _)).
    rewrite E in *. apply Forall_cons in Hdig as [? _]. eauto.
  - exists 45%N. eexists. split; [reflexivity | by left].
Qed.

Lemma parse_value_number fuel z rest :
  delimited rest = true →
  parse_value (S fuel) (Number_toString z ++ rest) = Some (JNumber z, rest).
Proof.
  intros Hrest. pose proof (parse_number_toString z rest Hrest) as Hp.
  destruct (Number_toString_head z) as (c & s & E & Hc). rewrite E in *.
  cbn [app] in *.
  assert (parse_value (S fuel) (c :: s ++ rest)
          = r ← parse_number (c :: s ++ rest); Some (JNumber r.1, r.2)) as ->.
  { destruct Hc as [->|Hc]; [done|].
    unfold is_digit in Hc. apply andb_true_iff in Hc as [H1 H2].
    apply N.leb_le in H1, H2.
    cbn [parse_value skip_ws]. unfold is_json_ws.
    repeat (match goal with
            | |- context [(c =? ?k)%N] =>
                rewrite (proj2 (N.eqb_neq c k)) by lia
            end).
    cbn [orb].
    repeat (match goal with
            | |- context [(c =? ?k)%N] =>
                rewrite (proj2 (N.eqb_neq c k)) by lia
            end).
    done. }
  by rewrite Hp.
Qed.

Lemma parse_value_array fuel s :
  parse_value (S fuel) (91%N :: s) =
    match skip_ws s with
    | d :: s' =>
        if (d =? 93)%N then Some (JArray [], s')
        else r ← parse_elements fuel s; Some (JArray r.1, r.2)
    | [] => None
    end.
Proof. reflexivity. Qed.

Lemma parse_value_object fuel s :
  parse_value (S fuel) (123%N :: s) =
    match skip_ws s with
    | d :: s' =>
        if (d =? 125)%N then Some (JObject [], s')
        else r ← parse_members fuel s; Some (JObject r.1, r.2)
    | [] => None
    end.
Proof. reflexivity. Qed.

Lemma parse_elements_S fuel s :
  parse_elements (S fuel) s =
    v ← parse_value fuel s;
    match skip_ws v.2 with
    | c :: rest =>
        if (c =? 44)%N then r ← parse_elements fuel rest; Some (v.1 :: r.1, r.2)
        else if (c =? 93)%N then Some ([v.1], rest)
        else None
    | [] => None
    end.
Proof. reflexivity. Qed.

Lemma parse_members_S fuel s :
  parse_members (S fuel) (34%N :: s) =
    k ← parse_chars s;
    match skip_ws k.2 with
    | colon :: s' =>
        if (colon =? 58)%N then
          v ← parse_value fuel s';
          match skip_ws v.2 with
          | c :: rest =>
              if (c =? 44)%N then
                r ← parse_members fuel rest; Some ((k.1, v.1) :: r.1, r.2)
              else if (c =? 125)%N then Some ([(k.1, v.1)], rest)
              else None
          | [] => None
          end
        else None
    | [] => None
    end.
Proof. reflexivity. Qed.

Lemma skip_ws_not_ws c s : is_json_ws c = false → skip_ws (c :: s) = c :: s.
Proof. intros E. cbn [skip_ws]. by rewrite E. Qed.

(** The first character of the text of a value tells what the value is. *)
Lemma JSON_stringify_head v :
  ∃ c s, JSON_stringify v = c :: s ∧ is_json_ws c = false ∧ c ≠ 93%N ∧ c ≠ 125%N.
Proof.
  destruct v as [| [|] | z | s | l | ps];
    try (by eexists _, _; split; [reflexivity|]).
  destruct (Number_toString_head z) as (c & s & E & Hc).
  exists c, s. split; [done|].
  destruct Hc as [->|Hc]; [done|].
  unfold is_digit in Hc. apply andb_true_iff in Hc as [H1 H2].
  apply N.leb_le in H1, H2. unfold is_json_ws.
  repeat (match goal with
          | |- context [(c =? ?k)%N] => rewrite (proj2 (N.eqb_neq c k)) by lia
          end).
  split; [done|]. lia.
Qed.

Lemma join_comma_cons x (l : list jsstring) :
  l ≠ [] → join_comma (x :: l) = x ++ 44%N :: join_comma l.
Proof. by destruct l. Qed.

Lemma parse_elements_join l :
  Forall reads_back l → l ≠ [] →
  ∀ fuel rest,
    length (join_comma (map JSON_stringify l)) + 1 < fuel →
    parse_elements fuel (join_comma (map JSON_stringify l) ++ 93%N :: rest)
      = Some (l, rest).
Proof.
  induction 1 as [|v l Hv Hl IH]; [done|]. intros _ fuel rest Hfuel.
  destruct fuel as [|fuel]; [lia|]. rewrite parse_elements_S.
  destruct l as [|v2 l].
  - cbn [map join_comma] in *.
    rewrite Hv; [|lia|done]. cbn [mbind option_bind fst snd]. done.
  - cbn [map] in *. rewrite join_comma_cons in Hfuel |- * by done.
    rewrite length_app in Hfuel. cbn [length] in Hfuel.
    rewrite <- app_assoc. cbn [app].
    rewrite Hv; [|lia|done]. cbn [mbind option_bind fst snd skip_ws].
    change (is_json_ws 44) with false. cbn iota.
    change (44 =? 44)%N with true. cbn iota.
    rewrite IH; [done|done|lia].
Qed.

Lemma parse_members_join ps :
  Forall (λ p, reads_back p.2) ps → ps ≠ [] →
  ∀ fuel rest,
    length (join_comma (map (λ p, match p with
                                  | (k, x) => QuoteJSONString k ++ js ":" ++ JSON_stringify x
                                  end) ps)) + 1 < fuel →
    parse_members fuel
      (join_comma (map (λ p, match p with
                             | (k, x) => QuoteJSONString k ++ js ":" ++ JSON_stringify x
                             end) ps) ++ 125%N :: rest)
      = Some (ps, rest).
Proof.
  induction 1 as [|[k v] ps Hv Hl IH]; [done|]. intros _ fuel rest Hfuel.
  destruct fuel as [|fuel]; [lia|]. cbn [snd] in Hv.
  assert (Hmember : ∀ tail, delimited tail = true → (∃ c t, tail = c :: t ∧ is_json_ws c = false) →
            length (JSON_stringify v) < fuel →
            parse_members (S fuel)
              ((QuoteJSONString k ++ js ":" ++ JSON_stringify v) ++ tail) =
            match tail with
            | c :: rest' =>
                if (c =? 44)%N then
                  r ← parse_members fuel rest'; Some ((k, v) :: r.1, r.2)
                else if (c =? 125)%N then Some ([(k, v)], rest')
                else None
            | [] => None
            end).
  { intros tail Htail (c & t & -> & Hc) Hlen.
    unfold QuoteJSONString. rewrite <- !app_assoc.
    change ([34%N] ++ quote_units k ++ [34%N] ++ js ":" ++ JSON_stringify v ++ c :: t)
      with (34%N :: quote_units k ++ 34%N :: 58%N :: JSON_stringify v ++ c :: t).
    rewrite parse_members_S, parse_chars_quote_units.
    cbn [mbind option_bind fst snd skip_ws].
    change (is_json_ws 58) with false. cbn iota.
    change (58 =? 58)%N with true. cbn iota.
    rewrite Hv by done. cbn [mbind option_bind fst snd].
    by rewrite skip_ws_not_ws. }
  destruct ps as [|p2 ps].
  - cbn [map join_comma] in *.
    rewrite !length_app in Hfuel.
    rewrite Hmember; [done|done|by eexists _, _|lia].
  - cbn [map] in *. rewrite join_comma_cons in Hfuel |- * by done.
    rewrite !length_app in Hfuel. cbn [length] in Hfuel.
    rewrite <- app_assoc. cbn [app].
    rewrite Hmember; [|done|by eexists _, _|lia].
    change (44 =? 44)%N with true. cbn iota.
    rewrite IH; [done|done|lia].
Qed.

Lemma JSON_stringify_array l :
  JSON_stringify (JArray l) = 91%N :: join_comma (map JSON_stringify l) ++ [93%N].
Proof. reflexivity. Qed.

Lemma JSON_stringify_object ps :
  JSON_stringify (JObject ps) =
    123%N :: join_comma (map (λ p, match p with
                                   | (k, x) => QuoteJSONString k ++ js ":" ++ JSON_stringify x
                                   end) ps) ++ [125%N].
Proof. reflexivity. Qed.

(** Every value is read back from its text. *)
Lemma parse_value_stringify v : reads_back v.
Proof.
  induction v as [| b | z | s | l IH | ps IH] using json_ind';
    intros fuel rest Hfuel Hrest; (destruct fuel as [|fuel]; [lia|]).
  - apply parse_value_null.
  - apply parse_value_bool.
  - by apply parse_value_number.
  - apply parse_value_string.
  - rewrite JSON_stringify_array in *.
    cbn [length] in Hfuel. rewrite length_app in Hfuel. cbn [app length] in *.
    rewrite <- app_assoc. cbn [app].
    rewrite parse_value_array.
    destruct l as [|v l]; [done|].
    destruct (JSON_stringify_head v) as (c & s & E & Hws & Hc & _).
    assert (∃ t, join_comma (map JSON_stringify (v :: l)) = c :: t) as [t Et].
    { destruct l; [|rewrite map_cons, join_comma_cons by done];
        cbn [map join_comma]; rewrite E; by eexists. }
    rewrite Et at 1. cbn [app]. rewrite skip_ws_not_ws by done.
    rewrite (proj2 (N.eqb_neq c 93)) by done.
    rewrite parse_elements_join; [done|done|done|].
    lia.
  - rewrite JSON_stringify_object in *.
    cbn [length] in Hfuel. rewrite length_app in Hfuel. cbn [app length] in *.
    rewrite <- app_assoc. cbn [app].
    rewrite parse_value_object.
    destruct ps as [|[k v] ps]; [done|].
    match goal with
    | |- context [join_comma (map ?f ((k, v) :: ps))] =>
        assert (∃ t, join_comma (map f ((k, v) :: ps)) = 34%N :: t) as [t Et]
    end.
    { destruct ps; [|rewrite map_cons, join_comma_cons by done];
        cbn [map join_comma]; unfold QuoteJSONString; by eexists. }
    rewrite Et at 1. cbn [app skip_ws]. change (is_json_ws 34) with false. cbn iota.
    change (34 =? 125)%N with false. cbn iota.
    rewrite parse_members_join; [done|done|done|].
    lia.
Qed.

(** The reference parser inverts [JSON.stringify]. *)
Lemma JSON_parse_ref_stringify v : JSON_parse_ref (JSON_stringify v) = Some v.
Proof.
  unfold JSON_parse_ref.
  rewrite <- (app_nil_r (JSON_stringify v)) at 2.
  rewrite parse_value_stringify; [done|lia|done].
Qed.

(** C6, as the code has it. For every list of tasks: when the storage
    takes the write of [save] (it is accessible and the text fits its
    quota), [load] in a fresh session over the storage that [save] left
    returns the saved list, the same tasks in the same order; this holds
    with the reference parser, and with every [JSON.parse] that gives
    back the value [JSON.stringify] wrote. *)
Theorem save_then_load (w : World) :
  let key := storageKey (this w) in
  let saved := JArray (task_json <$> tasks (this w)) in
  write_accepted (host w) key (JSON_stringify saved) = true →
  (load JSON_parse_ref (fresh_session key (host (save w).2))).1 = Normal saved ∧
  (∀ JSON_parse, JSON_parse (JSON_stringify saved) = Some saved →
     (load JSON_parse (fresh_session key (host (save w).2))).1 = Normal saved).
Proof.
  intros key saved Hw. split.
  - apply load_after_save; [done | apply JSON_parse_ref_stringify].
  - intros JSON_parse Hparse. by apply load_after_save.
Qed.

(** C6 fails as stated. On a storage that is full, [setItem] throws,
    [save] logs the error and returns, and the entry is not written: a
    fresh session loads the empty list, not the list that was saved. *)
Lemma save_then_load_storage_full :
  let w := mkWorld (mkTaskManager default_storageKey
                      [mkTask (js "_aaaaaaa") (js "a") false 1])
                   (empty_host 0) in
  save w = (Normal (), (save w).2) ∧
  (load JSON_parse_ref (fresh_session default_storageKey (host (save w).2))).1
    = Normal (JArray []) ∧
  JArray [] ≠ JArray (task_json <$> tasks (this w)).
Proof.
  intros w. split; [apply save_normal|]. split; [by vm_compute | done].
Qed.

(** C7 fails as stated. An entry that holds the array of one [null] is
    not a list of task records, and [load] returns that array: not the
    empty list, and not what it returns when the entry is absent. *)
Lemma load_keeps_malformed_array :
  let stored := JSON_stringify (JArray [JNull]) in
  let w := fresh_session default_storageKey
             (mkHost {[ default_storageKey := stored ]} 5000000 true []) in
  let without := fresh_session default_storageKey (empty_host 5000000) in
  stored = js "[null]" ∧
  (load JSON_parse_ref w).1 = Normal (JArray [JNull]) ∧
  (load JSON_parse_ref w).1 ≠ Normal (JArray []) ∧
  (load JSON_parse_ref without).1 = Normal (JArray []) ∧
  (load JSON_parse_ref w).1 ≠ (load JSON_parse_ref without).1.
Proof.
  intros stored w without.
  assert (H1 : (load JSON_parse_ref w).1 = Normal (JArray [JNull]))
    by (vm_compute; reflexivity).
  assert (H2 : (load JSON_parse_ref without).1 = Normal (JArray []))
    by (vm_compute; reflexivity).
  split; [vm_compute; reflexivity|]. split; [exact H1|].
  split; [rewrite H1; discriminate|]. split; [exact H2|].
  rewrite H1, H2. discriminate.
Qed.

(** ** The theorems at concrete inputs *)

Lemma ids_unique_and_kept_witness :
  let cs := [Call_addTask (js "Buy milk") (js "0.4fzyo82mvyr") 1700000000000;
             Call_addTask (js " Walk dog ") (js "0.k3b9x1q7p2m") 1700000000500;
             Call_updateTask (js "_4fzyo82") (completed_update true);
             Call_updateTask (js "_k3b9x1q") (text_update (js "Walk the dog"));
             Call_clearCompleted;
             Call_removeTask (js "_nobody")] in
  let w := run cs (empty_manager default_storageKey (empty_host 5000000)) in
  all_calls keeps_ids cs (empty_manager default_storageKey (empty_host 5000000)) = true ∧
  NoDup (id <$> tasks (this w)) ∧
  (∀ id0 u, upd_id u = None →
     id <$> tasks (this (exec (Call_updateTask id0 u) w)) = id <$> tasks (this w)).
Proof.
  intros cs w. split; [vm_compute; reflexivity|].
  apply (ids_unique_and_kept cs default_storageKey (empty_host 5000000)).
  vm_compute; reflexivity.
Defined.

Lemma texts_nonempty_and_trimmed_witness :
  let cs := [Call_addTask (js "Buy milk") (js "0.4fzyo82mvyr") 1700000000000;
             Call_addTask (js " Walk dog ") (js "0.k3b9x1q7p2m") 1700000000500;
             Call_updateTask (js "_k3b9x1q") (text_update (js "Walk the dog"))] in
  let w0 := empty_manager default_storageKey (empty_host 5000000) in
  let w := run cs w0 in
  let t := mkTask (js "_k3b9x1q") (js "Walk the dog") false 1700000000500 in
  (trim (js "   ") = [] ∧
   addTask (js "   ") (js "0.4fzyo82mvyr") 1700000000000 w0 = (Normal None, w0)) ∧
  (trim (js " Walk dog ") ≠ [] ∧
   ∃ t' w', addTask (js " Walk dog ") (js "0.k3b9x1q7p2m") 1700000000500 w0
              = (Normal (Some t'), w') ∧
            tasks (this w') = [t'] ∧ text t' = js "Walk dog") ∧
  all_calls (λ c _, keeps_texts c) cs w0 = true ∧
  t ∈ tasks (this w) ∧
  text t ≠ [] ∧ trimmed (text t).
Proof.
  intros cs w0 w t.
  assert (Hblank : trim (js "   ") = []) by (vm_compute; reflexivity).
  assert (Hne : trim (js " Walk dog ") ≠ []) by (vm_compute; discriminate).
  assert (Hcalls : all_calls (λ c _, keeps_texts c) cs w0 = true)
    by (vm_compute; reflexivity).
  assert (Hin : t ∈ tasks (this w)).
  { apply list_elem_of_In. vm_compute. left. reflexivity. }
  destruct (texts_nonempty_and_trimmed cs default_storageKey (empty_host 5000000))
    as [Hadd Hinv].
  split; [split; [exact Hblank|]|split; [split; [exact Hne|]|]].
  - exact (proj1 (Hadd (js "   ") (js "0.4fzyo82mvyr") 1700000000000%Z w0) Hblank).
  - destruct (proj2 (Hadd (js " Walk dog ") (js "0.k3b9x1q7p2m") 1700000000500%Z w0) Hne)
      as (t' & w' & E & Ht & Htext & _).
    exists t', w'. split; [exact E|]. split; [exact Ht|].
    rewrite Htext. vm_compute. reflexivity.
  - split; [exact Hcalls|]. split; [exact Hin|]. exact (Hinv Hcalls t Hin).
Defined.

Lemma save_then_load_witness :
  let w := mkWorld (mkTaskManager default_storageKey
                      [mkTask (js "_k3b9x1q") (js "Walk dog") false 1700000000500;
                       mkTask (js "_4fzyo82") (js "Buy milk") true 1700000000000])
                   (empty_host 5000000) in
  let saved := JArray (task_json <$> tasks (this w)) in
  write_accepted (host w) default_storageKey (JSON_stringify saved) = true ∧
  (load JSON_parse_ref (fresh_session default_storageKey (host (save w).2))).1
    = Normal saved.
Proof.
  intros w saved.
  assert (Hw : write_accepted (host w) default_storageKey (JSON_stringify saved) = true)
    by (vm_compute; reflexivity).
  split; [exact Hw|].
  exact (proj1 (save_then_load w Hw)).
Defined.

Lemma addTask_spec_witness :
  let w := empty_manager default_storageKey (empty_host 5000000) in
  let t := mkTask (js "_4fzyo82") (js "Buy milk") false 1700000000000 in
  trim (js "  Buy milk ") ≠ [] ∧
  ∃ w', addTask (js "  Buy milk ") (js "0.4fzyo82mvyr") 1700000000000 w
          = (Normal (Some t), w') ∧
        tasks (this w') = [t] ∧ persisted w w'.
Proof.
  intros w t.
  assert (H : trim (js "  Buy milk ") ≠ []) by (vm_compute; discriminate).
  split; [exact H|].
  destruct (proj1 (proj2 (addTask_spec (js "  Buy milk ") (js "0.4fzyo82mvyr")
                            1700000000000 w)) H)
    as (w' & E & _ & _ & Hl & _ & Hp).
  exists w'. split; [exact E|]. split; [exact Hl | exact Hp].
Defined.

Lemma removeTask_spec_witness :
  let tB := mkTask (js "_k3b9x1q") (js "Walk dog") false 1700000000500 in
  let tA := mkTask (js "_4fzyo82") (js "Buy milk") false 1700000000000 in
  let w := mkWorld (mkTaskManager default_storageKey [tB; tA]) (empty_host 5000000) in
  (∃ t, t ∈ tasks (this w) ∧ id t = js "_4fzyo82") ∧
  NoDup (id <$> tasks (this w)) ∧
  ∃ w', removeTask (js "_4fzyo82") w = (Normal true, w') ∧
        tasks (this w') = [tB] ∧
        length (tasks (this w')) + 1 = length (tasks (this w)) ∧
        persisted w w'.
Proof.
  intros tB tA w.
  assert (Hin : ∃ t, t ∈ tasks (this w) ∧ id t = js "_4fzyo82").
  { exists tA. split; [|reflexivity]. apply list_elem_of_In. right. left. reflexivity. }
  assert (Hnd : NoDup (id <$> tasks (this w))).
  { apply (bool_decide_unpack _). vm_compute. exact I. }
  split; [exact Hin|]. split; [exact Hnd|].
  destruct (proj1 (removeTask_spec (js "_4fzyo82") w) Hin)
    as (w' & E & Hl & _ & Hone & _ & _ & Hp).
  exists w'. split; [exact E|]. split; [|split; [exact (Hone Hnd) | exact Hp]].
  rewrite Hl. vm_compute. reflexivity.
Defined.

Lemma updateTask_spec_witness :
  let tB := mkTask (js "_k3b9x1q") (js "Walk dog") false 1700000000500 in
  let tA := mkTask (js "_4fzyo82") (js "Buy milk") false 1700000000000 in
  let w := mkWorld (mkTaskManager default_storageKey [tB; tA]) (empty_host 5000000) in
  ((∀ t, t ∈ tasks (this w) → id t ≠ js "_nobody") ∧
   updateTask (js "_nobody") (completed_update true) w = (Normal false, w)) ∧
  ((∃ t, t ∈ tasks (this w) ∧ id t = js "_4fzyo82") ∧
   ∃ w', updateTask (js "_4fzyo82") (completed_update true) w = (Normal true, w') ∧
         tasks (this w')
           = [tB; mkTask (js "_4fzyo82") (js "Buy milk") true 1700000000000] ∧
         persisted w w').
Proof.
  intros tB tA w.
  assert (Habsent : ∀ t, t ∈ tasks (this w) → id t ≠ js "_nobody").
  { intros t Ht. apply list_elem_of_In in Ht.
    destruct Ht as [<-|[<-|[]]]; vm_compute; discriminate. }
  assert (Hin : ∃ t, t ∈ tasks (this w) ∧ id t = js "_4fzyo82").
  { exists tA. split; [|reflexivity]. apply list_elem_of_In. right. left. reflexivity. }
  split.
  - split; [exact Habsent|].
    exact (proj1 (updateTask_spec (js "_nobody") (completed_update true) w) Habsent).
  - split; [exact Hin|].
    destruct (proj2 (updateTask_spec (js "_4fzyo82") (completed_update true) w) Hin)
      as (i & t & w' & Hi & Hid & Hfirst & E & Hl & _ & Hp).
    exists w'. split; [exact E|]. split; [|exact Hp].
    rewrite Hl. destruct i as [|[|i]].
    + vm_compute in Hi. injection Hi as <-. vm_compute in Hid. discriminate Hid.
    + vm_compute in Hi. injection Hi as <-. vm_compute. reflexivity.
    + vm_compute in Hi. discriminate Hi.
Defined.

Lemma load_falls_back_to_empty_witness :
  let h := mkHost {[ default_storageKey := js "{oops" ]} 5000000 true [] in
  let w := fresh_session default_storageKey h in
  let stored := JSON_stringify (JArray [JString (js "milk"); JNumber 2]) in
  let w2 := fresh_session default_storageKey
              (mkHost {[ default_storageKey := stored ]} 5000000 true []) in
  ((items (host w) !! storageKey (this w) = Some (js "{oops") ∧
    JSON_parse_ref (js "{oops") = None) ∧
   (load JSON_parse_ref w).1 = Normal (JArray [])) ∧
  ((accessible (host w2) = true ∧
    items (host w2) !! storageKey (this w2) = Some stored ∧ stored ≠ [] ∧
    JSON_parse_ref stored = Some (JArray [JString (js "milk"); JNumber 2])) ∧
   (load JSON_parse_ref w2).1 = Normal (JArray [JString (js "milk"); JNumber 2])).
Proof.
  intros h w stored w2.
  assert (Hraw : items (host w) !! storageKey (this w) = Some (js "{oops"))
    by (vm_compute; reflexivity).
  assert (Hbad : JSON_parse_ref (js "{oops") = None) by (vm_compute; reflexivity).
  assert (Hacc : accessible (host w2) = true) by reflexivity.
  assert (Hraw2 : items (host w2) !! storageKey (this w2) = Some stored)
    by (vm_compute; reflexivity).
  assert (Hne : stored ≠ []) by (vm_compute; discriminate).
  assert (Hp : JSON_parse_ref stored = Some (JArray [JString (js "milk"); JNumber 2]))
    by (vm_compute; reflexivity).
  split.
  - split; [split; [exact Hraw | exact Hbad]|].
    apply (proj1 (proj2 (load_falls_back_to_empty JSON_parse_ref w))).
    right. right. right. left. exists (js "{oops"). split; [exact Hraw | exact Hbad].
  - split; [split; [exact Hacc | split; [exact Hraw2 | split; [exact Hne | exact Hp]]]|].
    exact (proj2 (proj2 (proj2 (load_falls_back_to_empty JSON_parse_ref w2)))
             stored _ Hacc Hraw2 Hne Hp).
Defined.

Lemma clearCompleted_spec_witness :
  let tB := mkTask (js "_k3b9x1q") (js "Walk dog") false 1700000000500 in
  let tA := mkTask (js "_4fzyo82") (js "Buy milk") true 1700000000000 in
  let w := mkWorld (mkTaskManager default_storageKey [tB; tA]) (empty_host 5000000) in
  ∃ w', clearCompleted w = (Normal (), w') ∧
        tasks (this w') = [tB] ∧
        length (tasks (this w')) ≠ length (tasks (this w)) ∧
        persisted w w' ∧
        clearCompleted w' = (Normal (), w').
Proof.
  intros tB tA w.
  destruct (clearCompleted_spec w) as (w' & E & Hl & _ & _ & Hp & _ & Hidem).
  assert (Hl' : tasks (this w') = [tB]) by (rewrite Hl; vm_compute; reflexivity).
  assert (Hlen : length (tasks (this w')) ≠ length (tasks (this w))).
  { rewrite Hl'. vm_compute. discriminate. }
  exists w'. split; [exact E|]. split; [exact Hl'|]. split; [exact Hlen|].
  split; [exact (Hp Hlen) | exact Hidem].
Defined.

Lemma mutations_frame_witness :
  let tB := mkTask (js "_k3b9x1q") (js "Walk dog") false 1700000000500 in
  let tA := mkTask (js "_4fzyo82") (js "Buy milk") false 1700000000000 in
  let w := mkWorld (mkTaskManager default_storageKey [tB; tA]) (empty_host 5000000) in
  let after := tasks (this (updateTask (js "_4fzyo82") (text_update (js "Buy oat milk")) w).2) in
  (tasks (this w) !! 0 = Some tB ∧ id tB ≠ js "_4fzyo82") ∧
  after !! 0 = Some tB ∧ length after = 2.
Proof.
  intros tB tA w after.
  assert (H0 : tasks (this w) !! 0 = Some tB) by reflexivity.
  assert (Hne : id tB ≠ js "_4fzyo82") by (vm_compute; discriminate).
  split; [split; [exact H0 | exact Hne]|].
  destruct (proj1 (mutations_frame w) (js "_4fzyo82") (text_update (js "Buy oat milk")))
    as (Hlen & Hkeep & _).
  split; [exact (Hkeep 0 tB H0 Hne) | exact Hlen].
Defined.

(** The scenario of the specification: add two tasks, complete the older
    one, delete the newer one, clear the completed ones. *)
Example scenario :
  let w0 := empty_manager default_storageKey (empty_host 5000000) in
  let w1 := exec (Call_addTask (js "Buy milk") (js "0.4fzyo82mvyr") 1000) w0 in
  let w2 := exec (Call_addTask (js "Walk dog") (js "0.k3b9x1q7p2m") 2000) w1 in
  let w3 := exec (Call_updateTask (js "_4fzyo82") (completed_update true)) w2 in
  let w4 := exec (Call_removeTask (js "_k3b9x1q")) w3 in
  let w5 := exec Call_clearCompleted w4 in
  tasks (this w1) = [mkTask (js "_4fzyo82") (js "Buy milk") false 1000] ∧
  (getRemainingCount w1).1 = Normal 1 ∧
  text <$> tasks (this w2) = [js "Walk dog"; js "Buy milk"] ∧
  (getRemainingCount w2).1 = Normal 2 ∧
  (getRemainingCount w3).1 = Normal 1 ∧
  tasks (this w4) = [mkTask (js "_4fzyo82") (js "Buy milk") true 1000] ∧
  tasks (this w5) = [] ∧
  (load JSON_parse_ref (fresh_session default_storageKey (host w4))).1
    = Normal (JArray (task_json <$> tasks (this w4))).
Proof. vm_compute. repeat split. Qed.

(** * More properties of the Task Store *)

(** ** What [save] leaves on the host *)

Lemma save_host w :
  let key := storageKey (this w) in
  let value := stored_text (this w) in
  host (save w).2 =
    if write_accepted (host w) key value
    then mkHost (<[key:=value]> (items (host w))) (quota (host w)) (accessible (host w))
           (trace (host w) ++ [E_setItem key value])
    else mkHost (items (host w)) (quota (host w)) (accessible (host w))
           (trace (host w) ++ [E_setItem key value;
                               E_console_error "Failed to save tasks:"
                                 (setItem_error (host w))]).
Proof.
  unfold save, localStorage_setItem, write_accepted, stored_text, setItem_error.
  js_unfold. cbn [this host items quota accessible trace log_event].
  destruct (accessible (host w)) eqn:Ha; cbn [andb];
    [destruct (_ <=? _)%N|]; cbn [snd host]; unfold log_event;
    cbn [items quota accessible trace]; rewrite ?Ha, <- ?app_assoc; done.
Qed.

(** A call either leaves the world as it is or sets the list and saves. *)
Lemma exec_eq c w :
  exec c w =
    if call_saves c (tasks (this w))
    then (save (mkWorld (mkTaskManager (storageKey (this w))
                           (tasks_after c (tasks (this w)))) (host w))).2
    else w.
Proof.
  destruct c as [s r now|id0 u|id0|]; cbn [exec call_saves].
  - cbn [tasks_after]. case_bool_decide as E; cbn [negb].
    + by rewrite addTask_empty.
    + by rewrite addTask_nonempty.
  - cbn [tasks_after].
    destruct (list_find (λ x, id x = id0) (tasks (this w))) as [[i t]|] eqn:E.
    + rewrite bool_decide_eq_true_2 by eauto. by rewrite (updateTask_present _ _ _ _ _ E).
    + rewrite bool_decide_eq_false_2 by (by intros [? ?]).
      by rewrite (updateTask_absent _ _ _ E).
  - rewrite removeTask_eq. cbn zeta. cbn [tasks_after].
    case_bool_decide as E; [done|]. cbn [snd].
    rewrite length_filter_eq; [apply world_eta|].
    destruct (decide (length (filter (λ t, id t ≠ id0) (tasks (this w)))
                      = length (tasks (this w)))); [done | by destruct E].
  - rewrite clearCompleted_eq. cbn zeta. cbn [tasks_after].
    case_bool_decide as E; [done|]. cbn [snd].
    rewrite length_filter_eq; [apply world_eta|].
    destruct (decide (length (filter (λ t, completed t = false) (tasks (this w)))
                      = length (tasks (this w)))); [done | by destruct E].
Qed.

Lemma exec_storageKey c w : storageKey (this (exec c w)) = storageKey (this w).
Proof. rewrite exec_eq. destruct (call_saves _ _); [by rewrite save_this | done]. Qed.

(** ** Blank texts and [trim] *)

Lemma trimStart_nil_blank s : trimStart s = [] ↔ blank s = true.
Proof.
  induction s as [|c s IH]; [done|]. cbn [trimStart blank forallb].
  destruct (isStrWhiteSpaceChar c); cbn [andb]; [apply IH | done].
Qed.

Lemma trimStart_split s :
  ∃ pre, s = pre ++ trimStart s ∧ blank pre = true.
Proof.
  induction s as [|c s (pre & E & Hpre)]; [by exists []|].
  cbn [trimStart]. destruct (isStrWhiteSpaceChar c) eqn:Hc.
  - exists (c :: pre). cbn [app blank forallb]. rewrite Hc. fold (blank pre).
    split; [by rewrite <- E | done].
  - by exists [].
Qed.

Lemma blank_rev s : blank (rev s) = blank s.
Proof.
  unfold blank. induction s as [|c s IH]; [done|].
  cbn [rev forallb]. rewrite forallb_app, IH. cbn [forallb].
  rewrite andb_true_r. apply andb_comm.
Qed.

Lemma trimEnd_split s :
  ∃ post, s = trimEnd s ++ post ∧ blank post = true.
Proof.
  unfold trimEnd. destruct (trimStart_split (rev s)) as (pre & E & Hpre).
  exists (rev pre). split; [|by rewrite blank_rev].
  rewrite <- rev_app_distr, <- E. by rewrite rev_involutive.
Qed.

Lemma trim_nil_blank s : trim s = [] ↔ blank s = true.
Proof.
  rewrite <- trimStart_nil_blank. unfold trim. split.
  - destruct (trimStart s) as [|c r] eqn:E; [done|].
    apply trimStart_head in E. by rewrite trimEnd_cons_not_ws.
  - by intros ->.
Qed.

Lemma trimEnd_last s c r :
  trimEnd s = r ++ [c] → isStrWhiteSpaceChar c = false.
Proof.
  unfold trimEnd. intros E. apply (f_equal (@rev N)) in E.
  rewrite rev_involutive, rev_unit in E. by apply trimStart_head in E.
Qed.

(** X1. [addTask] returns [null] exactly on the texts that hold nothing
    but white space and line terminators (the empty text among them);
    on every other text it returns a task whose text is the input
    without its blank ends: the input is a blank prefix, the stored text
    and a blank suffix, and the stored text begins and ends with a
    character that is not white space. *)
Theorem addTask_blank_or_stripped (s random36 : jsstring) (now : Z) (w : World) :
  ((addTask s random36 now w).1 = Normal None ↔ blank s = true) ∧
  (blank s = false →
     ∃ t pre post first last middle,
       (addTask s random36 now w).1 = Normal (Some t) ∧
       s = pre ++ text t ++ post ∧ blank pre = true ∧ blank post = true ∧
       text t = first :: middle ∧ isStrWhiteSpaceChar first = false ∧
       (∃ front, text t = front ++ [last]) ∧ isStrWhiteSpaceChar last = false).
Proof.
  split.
  - rewrite <- trim_nil_blank. split.
    + intros E. destruct (decide (trim s = [])) as [|Hne]; [done|].
      by rewrite addTask_nonempty in E.
    + intros E. by rewrite addTask_empty.
  - intros Hblank.
    assert (trim s ≠ []) as Hne.
    { intros E. apply trim_nil_blank in E. congruence. }
    rewrite addTask_nonempty by done. cbn [fst text].
    destruct (trimStart_split s) as (pre & Es & Hpre).
    destruct (trimEnd_split (trimStart s)) as (post & Et & Hpost). fold (trim s) in Et.
    destruct (trimStart s) as [|c r] eqn:E0.
    { exfalso. apply Hne. unfold trim. by rewrite E0. }
    pose proof (trimStart_head _ _ _ E0) as Hc.
    assert (trim s = c :: trimEnd r) as Etrim.
    { unfold trim. rewrite E0. by apply trimEnd_cons_not_ws. }
    destruct (exists_last Hne) as (front & last & Elast).
    exists (mkTask (ID random36) (trim s) false now), pre, post, c, last, (trimEnd r).
    cbn [text]. split; [done|]. split; [by rewrite <- Et|].
    split; [done|]. split; [done|]. split; [done|]. split; [done|].
    split; [by exists front|].
    unfold trim in Elast. by apply trimEnd_last in Elast.
Qed.

(** ** How calls compose *)

Lemma run_cons c cs w : run (c :: cs) w = run cs (exec c w).
Proof. done. Qed.

(** X3. A run of [addTask] calls with non-blank texts puts the new tasks
    in front of the list, the newest first: the list is the created tasks
    in the reverse of the order of the calls, followed by the old list,
    and [getAll] returns it. *)
Theorem additions_newest_first (adds : list Addition) (w : World) :
  Forall (λ a, blank (add_text a) = false) adds →
  let w' := run (addition_call <$> adds) w in
  tasks (this w') = reverse (addition_task <$> adds) ++ tasks (this w) ∧
  getAll w' = (Normal (reverse (addition_task <$> adds) ++ tasks (this w)), w').
Proof.
  intros Hadds.
  assert (E : tasks (this (run (addition_call <$> adds) w))
              = reverse (addition_task <$> adds) ++ tasks (this w)).
  { revert w. induction Hadds as [|a adds Ha _ IH]; intros w; [done|].
    rewrite !fmap_cons, run_cons, IH, exec_tasks. cbn [addition_call tasks_after].
    rewrite bool_decide_eq_false_2.
    - rewrite reverse_cons, <- app_assoc. done.
    - intros E. apply trim_nil_blank in E. congruence. }
  intros w'. split; [done|]. unfold getAll, get_tasks. unfold w'. by rewrite E.
Qed.

(** X4. [removeTask(id)] twice in a row: the second call finds nothing,
    returns [false] and leaves the world (list, storage and trace) as
    the first call left it. *)
Theorem removeTask_twice (id0 : jsstring) (w : World) :
  let w1 := (removeTask id0 w).2 in
  removeTask id0 w1 = (Normal false, w1).
Proof.
  intros w1.
  assert (Hl : tasks (this w1) = filter (λ t, id t ≠ id0) (tasks (this w))).
  { unfold w1. change ((removeTask id0 w).2) with (exec (Call_removeTask id0) w).
    by rewrite exec_tasks. }
  rewrite removeTask_eq. cbn zeta. rewrite Hl, filter_filter_same, <- Hl.
  rewrite bool_decide_eq_false_2 by (intros Hne; by apply Hne).
  by rewrite world_eta.
Qed.

(** X5. [addTask] followed by [removeTask] of the id it generated: the
    removal succeeds and leaves the old list without its tasks of that
    id, which is the old list itself when the id was not held before. *)
Theorem addTask_then_removeTask (s random36 : jsstring) (now : Z) (w : World) :
  blank s = false →
  let w1 := exec (Call_addTask s random36 now) w in
  ∃ w2, removeTask (ID random36) w1 = (Normal true, w2) ∧
        tasks (this w2) = filter (λ t, id t ≠ ID random36) (tasks (this w)) ∧
        (ID random36 ∉ id <$> tasks (this w) → tasks (this w2) = tasks (this w)).
Proof.
  intros Hs w1.
  assert (Hl1 : tasks (this w1)
                = mkTask (ID random36) (trim s) false now :: tasks (this w)).
  { unfold w1. rewrite exec_tasks. cbn [tasks_after].
    rewrite bool_decide_eq_false_2; [done|].
    intros E. apply trim_nil_blank in E. congruence. }
  rewrite removeTask_eq. cbn zeta. rewrite Hl1.
  rewrite filter_cons_False by (cbn [id]; by intros Hne).
  pose proof (length_filter (λ t, id t ≠ ID random36) (tasks (this w))) as Hlen.
  rewrite bool_decide_eq_true_2 by (cbn [length]; lia).
  eexists. split; [done|]. rewrite save_this. cbn [tasks].
  split; [done|]. intros Hfresh. apply filter_id_absent.
  intros t Ht Hid. apply Hfresh. rewrite <- Hid. by apply list_elem_of_fmap_2.
Qed.

Lemma Object_assign_merge t u1 u2 :
  Object_assign (Object_assign t u1) u2 = Object_assign t (Updates_merge u1 u2).
Proof.
  destruct u1 as [[?|] [?|] [?|] [?|]], u2 as [[?|] [?|] [?|] [?|]]; reflexivity.
Qed.

Lemma list_find_insert_same_id id0 (l : list Task) i t t' :
  list_find (λ x, id x = id0) l = Some (i, t) → id t' = id t →
  list_find (λ x, id x = id0) (<[i := t']> l) = Some (i, t').
Proof.
  intros Hfind Hid. apply list_find_Some in Hfind as (Hi & Ht & Hfirst).
  apply list_find_Some. split; [|split].
  - apply list_lookup_insert_eq. by eapply lookup_lt_Some.
  - congruence.
  - intros j y Hj Hlt. rewrite list_lookup_insert_ne in Hj by lia. by eapply Hfirst.
Qed.

(** X6. Two [updateTask] calls on one id, the first without an [id]
    field, leave the list that one call with the merged fields leaves
    (the fields of the second call win); and [updateTask] with no field
    at all on an id of the list returns [true], leaves the list as it
    is and still writes it to the storage. *)
Theorem updateTask_twice_merges (id0 : jsstring) (u1 u2 : Updates) (w : World) :
  (upd_id u1 = None →
     tasks (this (exec (Call_updateTask id0 u2) (exec (Call_updateTask id0 u1) w)))
     = tasks (this (exec (Call_updateTask id0 (Updates_merge u1 u2)) w))) ∧
  ((∃ t, t ∈ tasks (this w) ∧ id t = id0) →
     ∃ w', updateTask id0 no_updates w = (Normal true, w') ∧
           tasks (this w') = tasks (this w) ∧ persisted w w').
Proof.
  split.
  - intros Hu1. rewrite !exec_tasks. cbn [tasks_after].
    destruct (list_find (λ x, id x = id0) (tasks (this w))) as [[i t]|] eqn:E.
    + rewrite (list_find_insert_same_id _ _ _ _ _ E) by (by apply Object_assign_id).
      by rewrite list_insert_insert_eq, Object_assign_merge.
    + by rewrite E.
  - intros (t0 & Hin & Hid).
    destruct (list_find (λ x, id x = id0) (tasks (this w))) as [[i t]|] eqn:E.
    + rewrite (updateTask_present _ _ _ _ _ E). eexists. split; [done|].
      destruct (set_then_save w (<[i := Object_assign t no_updates]> (tasks (this w))))
        as [Hthis Hp].
      rewrite Hthis. cbn [tasks]. split; [|done].
      apply list_find_Some in E as (Hi & _ & _).
      apply list_insert_id. by destruct t.
    + apply list_find_None in E. rewrite Forall_forall in E. by destruct (E t0 Hin).
Qed.

(** ** The storage *)

(** X7. A call of the store touches the storage under its own key only:
    every other entry, the quota and the accessibility are as before, the
    key of the manager is kept, an entry under the key is replaced but
    never deleted, and the trace of the host only grows. *)
Theorem store_calls_frame (c : call) (w : World) :
  let w' := exec c w in
  storageKey (this w') = storageKey (this w) ∧
  quota (host w') = quota (host w) ∧
  accessible (host w') = accessible (host w) ∧
  (∀ k, k ≠ storageKey (this w) → items (host w') !! k = items (host w) !! k) ∧
  (is_Some (items (host w) !! storageKey (this w)) →
     is_Some (items (host w') !! storageKey (this w))) ∧
  (∃ more, trace (host w') = trace (host w) ++ more).
Proof.
  intros w'. unfold w'. split; [apply exec_storageKey|].
  rewrite exec_eq. destruct (call_saves c (tasks (this w))).
  - rewrite save_host. cbn [this host storageKey].
    destruct (write_accepted _ _ _); cbn [quota accessible items trace].
    + split; [done|]. split; [done|]. split; [|split].
      * intros k Hk. by rewrite lookup_insert_ne.
      * intros _. rewrite lookup_insert_eq. eauto.
      * eauto.
    + repeat split; eauto.
  - repeat split; try done. exists []. by rewrite app_nil_r.
Qed.

(** X8. When the storage refuses the write of a call that saves (it is
    full or not accessible), the call still ends normally and the list is
    changed in memory as if the write had succeeded; the entries of the
    storage are as before, and the trace gets the refused [setItem] and
    one [console.error] with the message of [save] and the exception. *)
Theorem refused_write_is_logged (c : call) (w : World) :
  let key := storageKey (this w) in
  let l' := tasks_after c (tasks (this w)) in
  let value := JSON_stringify (JArray (task_json <$> l')) in
  call_saves c (tasks (this w)) = true →
  write_accepted (host w) key value = false →
  tasks (this (exec c w)) = l' ∧
  items (host (exec c w)) = items (host w) ∧
  trace (host (exec c w)) =
    trace (host w) ++ [E_setItem key value;
                       E_console_error "Failed to save tasks:" (setItem_error (host w))] ∧
  match c with
  | Call_addTask s r now => ∃ o, addTask s r now w = (Normal o, exec c w)
  | Call_updateTask id0 u => ∃ b, updateTask id0 u w = (Normal b, exec c w)
  | Call_removeTask id0 => ∃ b, removeTask id0 w = (Normal b, exec c w)
  | Call_clearCompleted => clearCompleted w = (Normal (), exec c w)
  end.
Proof.
  intros key l' value Hsaves Hrefused.
  split; [apply exec_tasks|]. split; [|split; [|apply exec_normal]].
  - rewrite exec_eq, Hsaves, save_host. cbn zeta. unfold stored_text.
    cbn [this host storageKey tasks]. fold key l' value. by rewrite Hrefused.
  - rewrite exec_eq, Hsaves, save_host. cbn zeta. unfold stored_text.
    cbn [this host storageKey tasks]. fold key l' value. by rewrite Hrefused.
Qed.

(** X9. As long as the storage takes every write, the storage follows
    the list: from a world whose storage reloads to its list (an empty
    list over a storage without the entry, for one), after any sequence
    of calls a fresh session loads exactly the list the manager holds. *)
Theorem reload_follows_calls (cs : list call) (w : World) :
  reloads w → all_calls write_ok cs w = true → reloads (run cs w).
Proof.
  revert w. induction cs as [|c cs IH]; intros w Hw Hok; [done|].
  cbn [all_calls] in Hok. apply andb_true_iff in Hok as [Hc Hcs].
  rewrite run_cons. apply IH; [|done].
  unfold write_ok in Hc. rewrite exec_eq.
  destruct (call_saves c (tasks (this w))); cbn [negb orb] in Hc; [|done].
  unfold reloads. rewrite save_this. cbn [storageKey this tasks].
  apply (load_after_save JSON_parse_ref
           (mkWorld (mkTaskManager (storageKey (this w))
                       (tasks_after c (tasks (this w)))) (host w)));
    [done | apply JSON_parse_ref_stringify].
Qed.

(** ** The remaining count *)

Lemma count_not_completed_app l1 l2 :
  count_not_completed (l1 ++ l2) = count_not_completed l1 + count_not_completed l2.
Proof. induction l1 as [|t l1 IH]; [done|]. cbn [app count_not_completed]. lia. Qed.

Lemma count_not_completed_insert (l : list Task) i t t' :
  l !! i = Some t →
  count_not_completed (<[i := t']> l) + (if completed t then 0 else 1)
  = count_not_completed l + (if completed t' then 0 else 1).
Proof.
  revert i. induction l as [|x l IH]; intros [|i] Hi; try done.
  - injection Hi as ->. cbn [list_insert insert count_not_completed]. simpl. lia.
  - cbn in Hi. specialize (IH i Hi). simpl. simpl in IH. lia.
Qed.

(** X10. [clearCompleted] never changes the remaining count: the count
    after the call is the count before, it is the length of the list that
    is left, and every task that is left is not completed. *)
Theorem clearCompleted_keeps_remaining (w : World) :
  let w' := (clearCompleted w).2 in
  (getRemainingCount w').1 = (getRemainingCount w).1 ∧
  length (tasks (this w')) = count_not_completed (tasks (this w)) ∧
  (∀ t, t ∈ tasks (this w') → completed t = false).
Proof.
  intros w'.
  assert (Hl : tasks (this w') = filter (λ t, completed t = false) (tasks (this w))).
  { unfold w'. change ((clearCompleted w).2) with (exec Call_clearCompleted w).
    by rewrite exec_tasks. }
  unfold getRemainingCount. js_unfold. cbn [fst]. rewrite Hl.
  rewrite filter_filter_same, count_not_completed_filter.
  split; [done|]. split; [done|].
  intros t Ht. by apply list_elem_of_filter in Ht as [? _].
Qed.

(** X11. How the calls move the remaining count. An [addTask] that
    creates a task raises it by one; an [updateTask] that finds its task
    changes it by the difference between the old and the new [completed]
    of that task, so an update without a [completed] field keeps it;
    [removeTask] lowers it by the number of tasks of that id that are not
    completed. *)
Theorem remaining_count_bookkeeping (w : World) :
  let n := count_not_completed (tasks (this w)) in
  (∀ s r now, blank s = false →
     count_not_completed (tasks (this (exec (Call_addTask s r now) w))) = S n) ∧
  (∀ id0 u i t, list_find (λ x, id x = id0) (tasks (this w)) = Some (i, t) →
     count_not_completed (tasks (this (exec (Call_updateTask id0 u) w)))
       + (if completed t then 0 else 1)
     = n + (if default (completed t) (upd_completed u) then 0 else 1)) ∧
  (∀ id0,
     count_not_completed (tasks (this (exec (Call_removeTask id0) w)))
       + count_not_completed (filter (λ t, id t = id0) (tasks (this w)))
     = n).
Proof.
  intros n. split; [|split].
  - intros s r now Hs. rewrite exec_tasks. cbn [tasks_after].
    rewrite bool_decide_eq_false_2; [done|].
    intros E. apply trim_nil_blank in E. congruence.
  - intros id0 u i t E. rewrite exec_tasks. cbn [tasks_after]. rewrite E.
    apply list_find_Some in E as (Hi & _ & _).
    by rewrite (count_not_completed_insert _ _ _ _ Hi).
  - intros id0. rewrite exec_tasks. cbn [tasks_after]. subst n.
    induction (tasks (this w)) as [|t l IH]; [done|].
    rewrite !filter_cons. destruct (decide (id t = id0)) as [E|E].
    + rewrite decide_False by tauto. cbn [count_not_completed].
      destruct (completed t); lia.
    + rewrite decide_True by done. cbn [count_not_completed].
      destruct (completed t); lia.
Qed.

(** ** Loading and construction *)

(** X12. [load] never invents a list: it returns a non-empty array
    exactly when the storage is accessible and holds, under the key of
    the manager, a non-empty text that [JSON.parse] reads as that array;
    the elements of the array are returned as they are, task or not. *)
Theorem load_returns_what_is_stored
    (JSON_parse : jsstring → option json) (w : World) (l : list json) :
  l ≠ [] →
  ((load JSON_parse w).1 = Normal (JArray l) ↔
   accessible (host w) = true ∧
   ∃ raw, items (host w) !! storageKey (this w) = Some raw ∧ raw ≠ [] ∧
          JSON_parse raw = Some (JArray l)).
Proof.
  intros Hl. destruct (load_eq JSON_parse w) as (w' & -> & _). cbn [fst].
  destruct (accessible (host w)); [|split; [by intros [= <-] | by intros [? _]]].
  destruct (items (host w) !! storageKey (this w)) as [[|c s]|] eqn:Hraw.
  - split; [by intros [= <-] | by intros (_ & raw & [= <-] & ? & _)].
  - split.
    + intros E. split; [done|]. exists (c :: s). split; [done|]. split; [done|].
      destruct (JSON_parse (c :: s)) as [[]|]; by injection E as <-.
    + intros (_ & raw & [= <-] & _ & ->). done.
  - split; [by intros [= <-] | by intros (_ & raw & ? & _)].
Qed.

Lemma get_property_Some name ms v :
  get_property name ms = Some v → name ∈ ms.*1.
Proof.
  induction ms as [|[k x] ms IH]; [done|]. cbn [get_property fmap list_fmap fst].
  destruct (get_property name ms) as [v'|].
  - intros E. apply elem_of_cons. right. by apply IH.
  - destruct (decide (k = name)) as [->|Hk].
    + intros _. apply elem_of_cons. by left.
    + by rewrite bool_decide_eq_false_2.
Qed.

Lemma get_property_NoDup name v ms :
  NoDup ms.*1 → (name, v) ∈ ms → get_property name ms = Some v.
Proof.
  induction ms as [|[k x] ms IH]; intros Hnd Hin; [by apply elem_of_nil in Hin|].
  rewrite fmap_cons in Hnd. apply NoDup_cons in Hnd as [Hk Hnd]. cbn [fst] in Hk.
  cbn [get_property]. apply elem_of_cons in Hin as [[= <- <-]|Hin].
  - destruct (get_property name ms) as [v'|] eqn:E.
    + apply get_property_Some in E. done.
    + by rewrite bool_decide_eq_true_2.
  - by rewrite (IH Hnd Hin).
Qed.

Lemma json_task_same_object v t : same_object v (task_json t) → json_task v = Some t.
Proof.
  intros (ms & ms0 & -> & [= <-] & Hp). cbn [json_task].
  assert (Hkeys : forallb (λ kv : jsstring * json, bool_decide (kv.1 ∈ task_keys)) ms = true).
  { apply forallb_forall. intros kv Hin. apply list_elem_of_In in Hin. rewrite Hp in Hin.
    apply bool_decide_eq_true. unfold task_keys.
    repeat (apply elem_of_cons in Hin as [->|Hin]); cbn [fst]; [set_solver..|].
    by apply elem_of_nil in Hin. }
  assert (Hnd : NoDup ms.*1).
  { rewrite Hp. apply (bool_decide_unpack _). by vm_compute. }
  rewrite Hkeys.
  rewrite (get_property_NoDup (js "id") (JString (id t))), 
          (get_property_NoDup (js "text") (JString (text t))),
          (get_property_NoDup (js "completed") (JBool (completed t))),
          (get_property_NoDup (js "createdAt") (JNumber (createdAt t)));
    try done; try (rewrite Hp; set_solver).
  by destruct t.
Qed.

Lemma json_tasks_same_objects arr l :
  Forall2 (λ v t, same_object v (task_json t)) arr l → json_tasks (JArray arr) = Some l.
Proof.
  intros H. cbn [json_tasks]. apply mapM_Some.
  eapply Forall2_impl; [exact H|]. intros v t. apply json_task_same_object.
Qed.

Lemma same_object_refl ms : same_object (JObject ms) (JObject ms).
Proof. by exists ms, ms. Qed.

Lemma json_tasks_task_json l : json_tasks (JArray (task_json <$> l)) = Some l.
Proof.
  apply json_tasks_same_objects. apply Forall2_fmap_l, Forall_Forall2_diag, Forall_forall.
  intros t _. apply same_object_refl.
Qed.

(** X13. The constructor always builds a manager: it throws nothing,
    leaves the entries of the storage as they are and holds as tasks an
    array, the empty one when the storage has no entry under the key.
    Over an entry that [JSON.parse] reads as an array of task objects,
    the keys of each object in any order, it builds the manager of these
    tasks, in the order of the array. Over the storage that a [save] of a
    manager wrote, it builds that manager again: the same key and the
    same tasks in the same order. *)
Theorem new_TaskManager_restores (JSON_parse : jsstring → option json) (w : World) :
  let key := storageKey (this w) in
  (∃ arr h', new_TaskManager JSON_parse key (host w)
               = (Normal (mkLoadedManager key (JArray arr)), h') ∧
             items h' = items (host w) ∧
             (items (host w) !! key = None → arr = [])) ∧
  (∀ raw arr l,
     accessible (host w) = true → items (host w) !! key = Some raw → raw ≠ [] →
     JSON_parse raw = Some (JArray arr) →
     Forall2 (λ v t, same_object v (task_json t)) arr l →
     ∃ h', new_TaskManager JSON_parse key (host w)
             = (Normal (mkLoadedManager key (JArray arr)), h') ∧
           typed_world (mkLoadedManager key (JArray arr)) h'
             = Some (mkWorld (mkTaskManager key l) h')) ∧
  (write_accepted (host w) key (stored_text (this w)) = true →
     ∃ m h', new_TaskManager JSON_parse_ref key (host (save w).2) = (Normal m, h') ∧
             typed_world m h' = Some (mkWorld (this w) h') ∧
             items h' = items (host (save w).2)).
Proof.
  intros key. split; [|split].
  - unfold new_TaskManager.
    destruct (load_eq JSON_parse (mkWorld (mkTaskManager key []) (host w)))
      as (w1 & E & _ & Hitems & _).
    cbn [this host storageKey] in *. rewrite E.
    destruct (accessible (host w)).
    + destruct (items (host w) !! key) as [[|c s]|] eqn:Hraw;
        [by exists [], (host w1)| |by exists [], (host w1)].
      destruct (JSON_parse (c :: s)) as [[]|];
        first [by exists [], (host w1) | by eexists _, (host w1)].
    + by exists [], (host w1).
  - intros raw arr l Hacc Hraw Hne Hp Hobjs. unfold new_TaskManager.
    destruct (load_eq JSON_parse (mkWorld (mkTaskManager key []) (host w)))
      as (w1 & E & _ & Hitems & _).
    cbn [this host storageKey] in *. rewrite E, Hacc. unfold jsstring in *. rewrite Hraw.
    destruct raw as [|c s]; [done|]. rewrite Hp.
    exists (host w1). split; [done|]. unfold typed_world.
    cbn [loaded_tasks loaded_storageKey]. by rewrite (json_tasks_same_objects _ _ Hobjs).
  - intros Hw.
    pose proof (load_after_save JSON_parse_ref w Hw (JSON_parse_ref_stringify _)) as Hload.
    unfold new_TaskManager. fold key in Hload. unfold fresh_session, empty_manager in Hload.
    destruct (load_eq JSON_parse_ref (mkWorld (mkTaskManager key []) (host (save w).2)))
      as (w1 & E & _ & Hitems & _).
    rewrite E in Hload |- *. cbn [fst] in Hload. injection Hload as Hload.
    cbn [this host storageKey] in *. rewrite Hload.
    eexists _, (host w1). split; [done|]. split; [|done].
    unfold typed_world. cbn [loaded_tasks loaded_storageKey].
    rewrite json_tasks_task_json. cbn [mbind option_bind]. by destruct w as [[] ?].
Qed.

Lemma task_json_inj t1 t2 : task_json t1 = task_json t2 → t1 = t2.
Proof. destruct t1, t2. by intros [= -> -> -> ->]. Qed.

(** X14. The text that [save] writes determines the list: two managers
    whose lists differ in a task, in a field of a task or in the order
    never write the same text, whatever characters the texts hold. *)
Theorem stored_text_inj (tm1 tm2 : TaskManager) :
  stored_text tm1 = stored_text tm2 → tasks tm1 = tasks tm2.
Proof.
  unfold stored_text. intros E. apply (f_equal JSON_parse_ref) in E.
  rewrite !JSON_parse_ref_stringify in E. injection E as E.
  revert E. generalize (tasks tm2). induction (tasks tm1) as [|t l IH]; intros [|t' l'] E;
    try done.
  rewrite !fmap_cons in E. apply (inj2 cons) in E as [Et El].
  f_equal; [by apply task_json_inj | by apply IH].
Qed.

(** X15. Managers with different keys do not see each other: what a
    session with another key loads from the storage is not changed by
    any call of the store. *)
Theorem other_key_unaffected
    (JSON_parse : jsstring → option json) (c : call) (w : World) (key' : jsstring) :
  key' ≠ storageKey (this w) →
  (load JSON_parse (fresh_session key' (host (exec c w)))).1
  = (load JSON_parse (fresh_session key' (host w))).1.
Proof.
  intros Hkey.
  destruct (load_eq JSON_parse (fresh_session key' (host (exec c w)))) as (w1 & -> & _).
  destruct (load_eq JSON_parse (fresh_session key' (host w))) as (w2 & -> & _).
  cbn [fst fresh_session empty_manager this host storageKey].
  assert (accessible (host (exec c w)) = accessible (host w) ∧
          items (host (exec c w)) !! key' = items (host w) !! key') as [Ha Hi];
    [|unfold jsstring in *; by rewrite Ha, Hi].
  rewrite exec_eq. destruct (call_saves c (tasks (this w))); [|done].
  rewrite save_host. cbn [this host storageKey].
  destruct (write_accepted _ _ _); cbn [accessible items]; [|done].
  split; [done|]. by rewrite lookup_insert_ne.
Qed.

(** * Properties of the view *)

Ltac ui_unfold :=
  unfold mbind, Ui_bind, mret, Ui_ret, call_app, get_page, set_page, modify_page in *.

(** ** The remaining-count label *)

Lemma parse_number_remaining_label n :
  ∃ rest, parse_number (remaining_label n) = Some (Z.of_nat n, rest).
Proof.
  unfold remaining_label. eexists. apply parse_number_toString. reflexivity.
Qed.

(** X16. The label of the remaining count reads [1 task left] for one
    task and the count followed by [tasks left] for every other count,
    zero included; two different counts never give the same label. *)
Theorem remaining_label_plural (n m : nat) :
  remaining_label 1 = js "1 task left" ∧
  (n ≠ 1 → remaining_label n = Number_toString (Z.of_nat n) ++ js " tasks left") ∧
  (remaining_label n = remaining_label m → n = m).
Proof.
  split; [done|]. split.
  - intros Hn. unfold remaining_label. by rewrite bool_decide_eq_true_2.
  - intros E.
    destruct (parse_number_remaining_label n) as (r1 & H1).
    destruct (parse_number_remaining_label m) as (r2 & H2).
    rewrite E, H2 in H1. injection H1 as H1 _. lia.
Qed.

(** ** Rendering *)

Lemma updateRemaining_eq b :
  updateRemaining b =
    (Normal (),
     mkBrowser
       (set_remaining_textContent
          (remaining_label (count_not_completed (tasks (this (App b))))) (page b))
       (App b)).
Proof.
  unfold updateRemaining, getRemainingCount. ui_unfold. js_unfold.
  cbn [fst snd page App]. by rewrite count_not_completed_filter.
Qed.

Lemma render_eq l b :
  render l b = (Normal (), mkBrowser (set_list_children (rendered l) (page b)) (App b)).
Proof.
  unfold render, rendered. ui_unfold. cbn [fst snd page App].
  by case_bool_decide.
Qed.

Lemma refresh_eq b :
  refresh b =
    (Normal (),
     mkBrowser
       (set_remaining_textContent
          (remaining_label (count_not_completed (tasks (this (App b)))))
          (set_list_children (rendered (tasks (this (App b)))) (page b)))
       (App b)).
Proof.
  unfold refresh. unfold mbind at 1 2. unfold Ui_bind.
  unfold call_app, getAll, get_tasks. cbn [fst snd page App].
  rewrite render_eq, updateRemaining_eq. done.
Qed.

Lemma rendered_shows l : list_shows (rendered l) l.
Proof.
  unfold rendered. destruct l as [|t l]; [done|].
  rewrite bool_decide_eq_false_2 by done. cbn [list_shows].
  apply Forall2_fmap_l, Forall_Forall2_diag, Forall_forall. intros x _.
  by eexists.
Qed.

(** X17. [refresh()] brings the page in step with the store: the list
    region shows the notice when the store holds no task and otherwise
    one row per task in the order of the list, none of them being edited,
    and the label shows the remaining count; the store, the storage and
    the rest of the page are not touched, and a second [refresh()]
    changes nothing. *)
Theorem refresh_in_step (b : Browser) :
  ∃ b', refresh b = (Normal (), b') ∧
        in_step b' ∧
        App b' = App b ∧
        body_theme (page b') = body_theme (page b) ∧
        themeToggle_pressed (page b') = themeToggle_pressed (page b) ∧
        themeToggle_textContent (page b') = themeToggle_textContent (page b) ∧
        input_value (page b') = input_value (page b) ∧
        addBtn_disabled (page b') = addBtn_disabled (page b) ∧
        refresh b' = (Normal (), b').
Proof.
  rewrite refresh_eq. eexists. split; [done|].
  split; [split; [apply rendered_shows | done]|].
  repeat (split; [done|]). by rewrite refresh_eq.
Qed.

(** ** The form *)

(** X18. The add button and the form agree with the store. After an
    [input] event the button is disabled exactly when the input is blank;
    submitting a blank input changes nothing, neither the page nor the
    store; submitting any other input adds, at the head of the list, a
    task whose text is the trimmed input, persists, empties the input
    and leaves the page in step with the store. [addTask] never answers
    [null] to the form, and the button keeps its state when the input is
    emptied. *)
Theorem form_adds_trimmed_input (random36 : jsstring) (now : Z) (b : Browser) :
  let s := input_value (page b) in
  (∃ b1, on_input b = (Normal (), b1) ∧ App b1 = App b ∧
         addBtn_disabled (page b1) = blank s) ∧
  (blank s = true → on_submit random36 now b = (Normal (), b)) ∧
  (blank s = false →
     ∃ b', on_submit random36 now b = (Normal (), b') ∧
           tasks (this (App b'))
             = mkTask (ID random36) (trim s) false now :: tasks (this (App b)) ∧
           persisted (App b) (App b') ∧
           input_value (page b') = [] ∧
           addBtn_disabled (page b') = addBtn_disabled (page b) ∧
           in_step b').
Proof.
  intros s. split; [|split].
  - unfold on_input. ui_unfold. eexists. split; [done|]. split; [done|].
    cbn [page addBtn_disabled set_addBtn_disabled]. fold s.
    destruct (blank s) eqn:E.
    + apply bool_decide_eq_true, trim_nil_blank, E.
    + apply bool_decide_eq_false. intros Ht. apply trim_nil_blank in Ht. congruence.
  - intros Hs. apply trim_nil_blank in Hs. unfold on_submit. ui_unfold. fold s.
    rewrite bool_decide_eq_true_2 by done. by destruct b.
  - intros Hs.
    assert (trim s ≠ []) as Hne.
    { intros E. apply trim_nil_blank in E. congruence. }
    unfold on_submit. unfold mbind at 1. unfold Ui_bind, get_page. fold s.
    rewrite bool_decide_eq_false_2 by done.
    unfold mbind at 1. unfold Ui_bind, call_app.
    rewrite addTask_nonempty by (by rewrite trim_idemp). rewrite trim_idemp.
    cbn [fst snd]. unfold mbind at 1. unfold Ui_bind, modify_page. cbn [page App].
    rewrite refresh_eq. cbn [page App]. eexists. split; [done|].
    cbn [App page].
    destruct (set_then_save (App b)
                (mkTask (ID random36) (trim s) false now :: tasks (this (App b))))
      as [Hthis Hp].
    rewrite Hthis. cbn [tasks]. split; [done|]. split; [done|]. split; [done|].
    split; [done|]. unfold in_step.
    cbn [page App list_children remaining_textContent set_list_children
         set_remaining_textContent set_input_value].
    rewrite ?Hthis. cbn [tasks]. split; [apply rendered_shows | done].
Qed.

(** ** The theme *)

Lemma usage_insert (k v : jsstring) (m : gmap jsstring jsstring) :
  usage (<[k:=v]> m)
  = (N.of_nat (length k) + N.of_nat (length v) + usage (delete k m))%N.
Proof.
  unfold usage. rewrite <- insert_delete_eq.
  rewrite map_fold_insert_L; [done| |apply lookup_delete_eq].
  intros. lia.
Qed.

Lemma write_accepted_insert (h : Host) (k x v : jsstring) :
  write_accepted (mkHost (<[k:=x]> (items h)) (quota h) (accessible h) (trace h ++ [E_setItem k x])) k v
  = write_accepted h k v.
Proof.
  unfold write_accepted. cbn [items quota accessible].
  by rewrite insert_insert_eq.
Qed.

Lemma write_accepted_shorter (h : Host) (k v v' : jsstring) :
  length v' ≤ length v →
  write_accepted h k v = true → write_accepted h k v' = true.
Proof.
  unfold write_accepted. intros Hlen H. apply andb_true_iff in H as [-> H].
  cbn [andb]. apply N.leb_le in H. apply N.leb_le.
  rewrite usage_insert in *. lia.
Qed.

Lemma theme_of_cases name :
  (name = js "dark" ∧ theme_of name = js "dark") ∨
  (name ≠ js "dark" ∧ theme_of name = js "light").
Proof. unfold theme_of. case_bool_decide; [by left | by right]. Qed.

Lemma setTheme_accepted name b :
  write_accepted (host (App b)) theme_storageKey (theme_of name) = true →
  setTheme name b =
    (Normal (),
     mkBrowser
       (mkPage (Some (theme_of name))
          (Some (if bool_decide (theme_of name = js "dark") then js "true" else js "false"))
          (if bool_decide (theme_of name = js "dark") then sun else moon)
          (input_value (page b)) (addBtn_disabled (page b))
          (remaining_textContent (page b)) (list_children (page b)))
       (mkWorld (this (App b))
          (mkHost (<[theme_storageKey := theme_of name]> (items (host (App b))))
             (quota (host (App b))) (accessible (host (App b)))
             (trace (host (App b)) ++ [E_setItem theme_storageKey (theme_of name)])))).
Proof.
  unfold write_accepted. intros H. apply andb_true_iff in H as [Ha Hq].
  unfold setTheme. fold (theme_of name). ui_unfold. unfold localStorage_setItem.
  cbn [fst snd page App host this accessible items quota log_event].
  rewrite Ha, Hq. cbn [fst snd page App]. done.
Qed.

Lemma setTheme_refused name b :
  write_accepted (host (App b)) theme_storageKey (theme_of name) = false →
  setTheme name b =
    (Throw (setItem_error (host (App b))),
     mkBrowser (set_body_theme (theme_of name) (page b))
       (mkWorld (this (App b))
          (log_event (E_setItem theme_storageKey (theme_of name)) (host (App b))))).
Proof.
  unfold write_accepted, setItem_error. intros H.
  unfold setTheme. fold (theme_of name). ui_unfold. unfold localStorage_setItem.
  cbn [fst snd page App host this accessible items quota log_event].
  destruct (accessible (host (App b))); cbn [andb] in H; [|done].
  by rewrite H.
Qed.

(** X19. [setTheme(name)] shows and stores one of two themes: [dark]
    when the name is [dark], [light] for every other name. When the
    storage takes the write, the body, the entry under the theme key and
    the toggle ([aria-pressed] and icon) all carry that theme; the
    manager, every other entry of the storage (the tasks among them) and
    the rest of the page are as before. *)
Theorem setTheme_shows_and_stores (name : jsstring) (b : Browser) :
  (theme_of name = js "dark" ∨ theme_of name = js "light") ∧
  (theme_of name = js "dark" ↔ name = js "dark") ∧
  (write_accepted (host (App b)) theme_storageKey (theme_of name) = true →
   ∃ b', setTheme name b = (Normal (), b') ∧
         body_theme (page b') = Some (theme_of name) ∧
         items (host (App b')) !! theme_storageKey = Some (theme_of name) ∧
         toggle_shows (page b') (theme_of name) ∧
         this (App b') = this (App b) ∧
         (∀ k, k ≠ theme_storageKey →
               items (host (App b')) !! k = items (host (App b)) !! k) ∧
         input_value (page b') = input_value (page b) ∧
         addBtn_disabled (page b') = addBtn_disabled (page b) ∧
         remaining_textContent (page b') = remaining_textContent (page b) ∧
         list_children (page b') = list_children (page b)).
Proof.
  split; [|split].
  - destruct (theme_of_cases name) as [[_ ->]|[_ ->]]; [by left | by right].
  - destruct (theme_of_cases name) as [[-> ->]|[Hn ->]]; [done|].
    split; [done | by intros ->].
  - intros Hw. rewrite setTheme_accepted by done. eexists. split; [done|].
    cbn [page App host this items body_theme themeToggle_pressed
         themeToggle_textContent input_value addBtn_disabled
         remaining_textContent list_children].
    split; [done|]. split; [apply lookup_insert_eq|]. split; [done|].
    split; [done|]. split; [|done].
    intros k Hk. by rewrite lookup_insert_ne.
Qed.

(** X20. Nothing in [setTheme] catches a refused write: when the storage
    is full or not accessible, [setTheme] throws the exception of
    [setItem] after it has changed the theme of the body; the toggle
    keeps its [aria-pressed] and its icon, and the storage keeps its
    entries. *)
Theorem setTheme_throws_when_refused (name : jsstring) (b : Browser) :
  write_accepted (host (App b)) theme_storageKey (theme_of name) = false →
  ∃ b', setTheme name b = (Throw (setItem_error (host (App b))), b') ∧
        body_theme (page b') = Some (theme_of name) ∧
        themeToggle_pressed (page b') = themeToggle_pressed (page b) ∧
        themeToggle_textContent (page b') = themeToggle_textContent (page b) ∧
        items (host (App b')) = items (host (App b)) ∧
        this (App b') = this (App b).
Proof.
  intros Hw. rewrite setTheme_refused by done. eexists. split; [done|]. done.
Qed.

Lemma theme_of_idemp name : theme_of (theme_of name) = theme_of name.
Proof. by destruct (theme_of_cases name) as [[_ ->]|[_ ->]]. Qed.

Lemma theme_write_accepted (h : Host) name :
  write_accepted h theme_storageKey (js "light") = true →
  write_accepted h theme_storageKey (theme_of name) = true.
Proof.
  intros H. destruct (theme_of_cases name) as [[_ ->]|[_ ->]]; [|done].
  eapply write_accepted_shorter; [|exact H]. vm_compute. lia.
Qed.

(** X21. With a storage that takes the writes, a click on the theme
    toggle shows and stores [light] when the body is [dark] and [dark]
    in every other case; from a body that is [dark] or [light], two
    clicks lead back to the theme of the start, on the body, in the
    storage and on the toggle. The tasks are not touched. *)
Theorem theme_toggle_alternates (b : Browser) :
  write_accepted (host (App b)) theme_storageKey (js "light") = true →
  let next := if bool_decide (body_theme (page b) = Some (js "dark"))
              then js "light" else js "dark" in
  ∃ b1 b2,
    on_theme_click b = (Normal (), b1) ∧
    on_theme_click b1 = (Normal (), b2) ∧
    body_theme (page b1) = Some next ∧
    items (host (App b1)) !! theme_storageKey = Some next ∧
    toggle_shows (page b1) next ∧
    (body_theme (page b) = Some (js "dark") ∨ body_theme (page b) = Some (js "light") →
       body_theme (page b2) = body_theme (page b) ∧
       items (host (App b2)) !! theme_storageKey = body_theme (page b) ∧
       ∃ theme, body_theme (page b) = Some theme ∧ toggle_shows (page b2) theme) ∧
    this (App b2) = this (App b) ∧
    list_children (page b2) = list_children (page b).
Proof.
  intros Hw next.
  assert (Hdark : write_accepted (host (App b)) theme_storageKey (js "dark") = true).
  { eapply write_accepted_shorter; [|exact Hw]. vm_compute. lia. }
  assert (Hclick : ∀ x, on_theme_click x =
            setTheme (if bool_decide (body_theme (page x) = Some (js "dark"))
                      then js "light" else js "dark") x) by done.
  assert (Hagain : ∀ x y v,
            write_accepted
              (mkHost (<[theme_storageKey:=x]> (items (host (App b)))) (quota (host (App b)))
                 (accessible (host (App b))) y) theme_storageKey v
            = write_accepted (host (App b)) theme_storageKey v).
  { intros. unfold write_accepted. cbn [items quota accessible].
    by rewrite insert_insert_eq. }
  rewrite Hclick. fold next. unfold next.
  destruct (decide (body_theme (page b) = Some (js "dark"))) as [Hd|Hnd].
  - rewrite (bool_decide_eq_true_2 _ Hd).
    rewrite (setTheme_accepted (js "light")) by done.
    change (theme_of (js "light")) with (js "light").
    eexists. eexists. split; [done|]. rewrite Hclick.
    cbn [page App body_theme].
    rewrite (bool_decide_eq_false_2 (Some (js "light") = Some (js "dark"))) by done.
    rewrite (setTheme_accepted (js "dark")) by (cbn [App host]; by rewrite Hagain).
    change (theme_of (js "dark")) with (js "dark").
    split; [done|]. cbn [page App host this items body_theme list_children].
    split; [done|]. split; [apply lookup_insert_eq|]. split; [done|].
    split; [|done]. intros _. rewrite Hd. split; [done|].
    split; [apply lookup_insert_eq|]. by exists (js "dark").
  - rewrite (bool_decide_eq_false_2 _ Hnd).
    rewrite (setTheme_accepted (js "dark")) by done.
    change (theme_of (js "dark")) with (js "dark").
    eexists. eexists. split; [done|]. rewrite Hclick.
    cbn [page App body_theme].
    rewrite (bool_decide_eq_true_2 (Some (js "dark") = Some (js "dark"))) by done.
    rewrite (setTheme_accepted (js "light")) by (cbn [App host]; by rewrite Hagain).
    change (theme_of (js "light")) with (js "light").
    split; [done|]. cbn [page App host this items body_theme list_children].
    split; [done|]. split; [apply lookup_insert_eq|]. split; [done|].
    split; [|done]. intros [Hd|Hl]; [done|]. rewrite Hl. split; [done|].
    split; [apply lookup_insert_eq|]. by exists (js "light").
Qed.

Lemma setTheme_theme_of name b : setTheme (theme_of name) b = setTheme name b.
Proof.
  destruct (theme_of_cases name) as [[-> E]|[Hn E]]; rewrite E; [done|].
  unfold setTheme. by rewrite (bool_decide_eq_false_2 _ Hn).
Qed.

Lemma loadTheme_accessible prefers_dark b :
  accessible (host (App b)) = true →
  loadTheme prefers_dark b =
    setTheme (initial_theme (items (host (App b)) !! theme_storageKey) prefers_dark)
      (mkBrowser (page b)
         (mkWorld (this (App b)) (log_event (E_getItem theme_storageKey) (host (App b))))).
Proof.
  intros Ha. unfold loadTheme. unfold mbind at 1. unfold Ui_bind, call_app.
  unfold localStorage_getItem. cbn [fst snd host this accessible items log_event].
  rewrite Ha. cbn [fst snd].
  destruct (items (host (App b)) !! theme_storageKey) as [[|c s]|];
    cbn [falsy negb initial_theme default from_option Datatypes.id]; try done.
  by rewrite setTheme_theme_of.
Qed.

Lemma loadTheme_restores_saved_theme_aux prefers_dark b :
  accessible (host (App b)) = true →
  write_accepted (host (App b)) theme_storageKey (js "light") = true →
  ∃ b', loadTheme prefers_dark b = (Normal (), b') ∧
        body_theme (page b')
          = Some (initial_theme (items (host (App b)) !! theme_storageKey) prefers_dark) ∧
        items (host (App b')) !! theme_storageKey
          = Some (initial_theme (items (host (App b)) !! theme_storageKey) prefers_dark) ∧
        this (App b') = this (App b) ∧
        input_value (page b') = input_value (page b) ∧
        list_children (page b') = list_children (page b) ∧
        remaining_textContent (page b') = remaining_textContent (page b) ∧
        addBtn_disabled (page b') = addBtn_disabled (page b).
Proof.
  intros Ha Hw. rewrite loadTheme_accessible by done.
  rewrite setTheme_accepted.
  2:{ cbn [App host]. unfold write_accepted in *. cbn [log_event items quota accessible].
      by apply (theme_write_accepted (host (App b))). }
  assert (Hinit : ∀ saved, theme_of (initial_theme saved prefers_dark)
                           = initial_theme saved prefers_dark).
  { intros saved. unfold initial_theme. destruct saved as [[|c s]|];
      try apply theme_of_idemp; by destruct (default false prefers_dark). }
  rewrite Hinit. eexists. split; [done|].
  cbn [page App host this items log_event]. split; [done|].
  split; [apply lookup_insert_eq | done].
Qed.

(** X22. [loadTheme()] on an accessible storage that takes the write
    restores the saved theme without regard to the system preference:
    [dark] for a saved [dark], [light] for any other saved text that is
    not empty. Without an entry, or with an empty one, it follows the
    system preference, and shows [light] where the browser has no
    [matchMedia]. The theme it shows is also the theme it stores and the
    one on the toggle. *)
Theorem loadTheme_restores_saved_theme (prefers_dark : option bool) (b : Browser) :
  let saved := items (host (App b)) !! theme_storageKey in
  accessible (host (App b)) = true →
  write_accepted (host (App b)) theme_storageKey (js "light") = true →
  ∃ b' theme,
    loadTheme prefers_dark b = (Normal (), b') ∧
    body_theme (page b') = Some theme ∧
    items (host (App b')) !! theme_storageKey = Some theme ∧
    toggle_shows (page b') theme ∧
    this (App b') = this (App b) ∧
    (saved = Some (js "dark") → theme = js "dark") ∧
    (∀ s, saved = Some s → s ≠ [] → s ≠ js "dark" → theme = js "light") ∧
    (saved = None ∨ saved = Some [] →
       theme = if default false prefers_dark then js "dark" else js "light").
Proof.
  intros saved Ha Hw. rewrite loadTheme_accessible by done. fold saved.
  rewrite setTheme_accepted.
  2:{ cbn [App host]. unfold write_accepted in *. cbn [log_event items quota accessible].
      by apply (theme_write_accepted (host (App b))). }
  assert (Hinit : theme_of (initial_theme saved prefers_dark)
                  = initial_theme saved prefers_dark).
  { unfold initial_theme. destruct saved as [[|c s]|]; try apply theme_of_idemp;
      by destruct (default false prefers_dark). }
  rewrite Hinit. eexists _, (initial_theme saved prefers_dark). split; [done|].
  cbn [page App host this items body_theme themeToggle_pressed themeToggle_textContent].
  split; [done|]. split; [apply lookup_insert_eq|]. split; [done|]. split; [done|].
  split; [by intros ->|]. split.
  - intros s -> Hne Hnd. destruct s as [|c s]; [done|]. cbn [initial_theme].
    by destruct (theme_of_cases (c :: s)) as [[? _]|[_ ->]].
  - by intros [->| ->].
Qed.

(** X23. The theme survives a reload: after a [setTheme(name)] that the
    storage took, [loadTheme()] on a fresh page over that storage shows
    the theme that was set, whatever the system preference is. *)
Theorem theme_round_trip (name : jsstring) (prefers_dark : option bool)
    (b : Browser) (fresh : Page) :
  write_accepted (host (App b)) theme_storageKey (js "light") = true →
  ∃ b1 b2,
    setTheme name b = (Normal (), b1) ∧
    loadTheme prefers_dark (mkBrowser fresh (App b1)) = (Normal (), b2) ∧
    body_theme (page b2) = body_theme (page b1) ∧
    body_theme (page b2) = Some (theme_of name) ∧
    toggle_shows (page b2) (theme_of name).
Proof.
  intros Hw. rewrite setTheme_accepted by (by apply theme_write_accepted).
  eexists. eexists. split; [done|].
  assert (Ha : accessible (host (App b)) = true).
  { unfold write_accepted in Hw. by apply andb_true_iff in Hw as [? _]. }
  rewrite loadTheme_accessible by done.
  cbn [App page host this items log_event]. rewrite lookup_insert_eq.
  assert (Hinit : initial_theme (Some (theme_of name)) prefers_dark = theme_of name).
  { destruct (theme_of_cases name) as [[_ ->]|[_ ->]]; done. }
  rewrite Hinit, setTheme_accepted.
  2:{ cbn [App host]. unfold write_accepted in *.
      cbn [log_event items quota accessible] in *. rewrite insert_insert_eq.
      by apply (theme_write_accepted (host (App b))). }
  rewrite theme_of_idemp. split; [done|]. done.
Qed.

(** ** Start of the application *)

Lemma initEventHandlers_eq b :
  initEventHandlers b = (Normal (), mkBrowser (set_addBtn_disabled true (page b)) (App b)).
Proof. done. Qed.

(** X24. On an accessible storage that takes the theme, [App.start()]
    ends normally with the page in step with the store (the rows of the
    tasks or the notice, and the remaining count), the add button
    disabled, and the saved theme or else the system preference on the
    body and in the storage; the manager and the input are as before. *)
Theorem App_start_shows_the_store (prefers_dark : option bool) (b : Browser) :
  accessible (host (App b)) = true →
  write_accepted (host (App b)) theme_storageKey (js "light") = true →
  ∃ b', App_start prefers_dark b = (Normal (), b') ∧
        in_step b' ∧
        addBtn_disabled (page b') = true ∧
        body_theme (page b')
          = Some (initial_theme (items (host (App b)) !! theme_storageKey) prefers_dark) ∧
        items (host (App b')) !! theme_storageKey = body_theme (page b') ∧
        this (App b') = this (App b) ∧
        input_value (page b') = input_value (page b).
Proof.
  intros Ha Hw.
  destruct (loadTheme_restores_saved_theme_aux prefers_dark b Ha Hw)
    as (b1 & Hload & Htheme & Hstored & Hthis & Hin & Hch & Hrem & Hbtn).
  unfold App_start, UI_init.
  unfold mbind at 1 2 3. unfold Ui_bind.
  rewrite Hload, initEventHandlers_eq, !refresh_eq. eexists. split; [done|].
  cbn [page App]. unfold in_step.
  cbn [page App list_children remaining_textContent addBtn_disabled body_theme input_value
       set_list_children set_remaining_textContent set_addBtn_disabled].
  rewrite Hthis. split; [split; [apply rendered_shows | done]|].
  split; [done|]. split; [done|]. split; [by rewrite Hstored, Htheme|]. by split.
Qed.

(** X25. [App.start()] does not survive a storage that refuses the
    theme: nothing catches the exception of [getItem] or [setItem] in
    [loadTheme]. When the storage is not accessible it throws before it
    has changed the page; when the storage is full it throws after it has
    set the theme of the body. In both cases the list is not rendered,
    the remaining count is not shown and the add button keeps its
    state. *)
Theorem App_start_throws_when_refused (prefers_dark : option bool) (b : Browser) :
  let theme := initial_theme (items (host (App b)) !! theme_storageKey) prefers_dark in
  (accessible (host (App b)) = false →
     ∃ b', App_start prefers_dark b = (Throw SecurityError, b') ∧ page b' = page b) ∧
  (accessible (host (App b)) = true →
   write_accepted (host (App b)) theme_storageKey theme = false →
     ∃ b', App_start prefers_dark b = (Throw QuotaExceededError, b') ∧
           body_theme (page b') = Some theme ∧
           list_children (page b') = list_children (page b) ∧
           remaining_textContent (page b') = remaining_textContent (page b) ∧
           addBtn_disabled (page b') = addBtn_disabled (page b)).
Proof.
  intros theme. split.
  - intros Ha. unfold App_start, UI_init, loadTheme.
    unfold mbind at 1 2 3 4. unfold Ui_bind, call_app, localStorage_getItem.
    cbn [fst snd host this accessible log_event]. rewrite Ha. cbn [fst snd].
    eexists. split; [done|]. done.
  - intros Ha Hw. unfold App_start, UI_init.
    unfold mbind at 1 2 3. unfold Ui_bind.
    rewrite loadTheme_accessible by done. fold theme.
    assert (Htheme : theme_of theme = theme).
    { unfold theme, initial_theme.
      destruct (items (host (App b)) !! theme_storageKey) as [[|c s]|];
        try apply theme_of_idemp; by destruct (default false prefers_dark). }
    rewrite setTheme_refused.
    2:{ cbn [App host]. unfold write_accepted in *.
        cbn [log_event items quota accessible] in *. by rewrite Htheme. }
    rewrite Htheme. unfold setItem_error. cbn [App host log_event accessible].
    rewrite Ha. eexists. split; [done|]. done.
Qed.

(** * Properties of the listeners of a row *)

Lemma list_find_unique_id (l : list Task) i t :
  NoDup (id <$> l) → l !! i = Some t →
  list_find (λ x, id x = id t) l = Some (i, t).
Proof.
  intros Hnd Hi. apply list_find_Some. split; [done|]. split; [done|].
  intros j y Hj Hlt Hid.
  assert (j = i); [|lia].
  eapply (NoDup_lookup (id <$> l) j i (id t)); [done| |].
  - by rewrite list_lookup_fmap, Hj, <- Hid.
  - by rewrite list_lookup_fmap, Hi.
Qed.

Lemma row_at_alter k f p r :
  row_at k p = Some r →
  row_at k (set_list_children (alter (map_row f) k (list_children p)) p) = Some (f r).
Proof.
  unfold row_at. cbn [list_children set_list_children].
  rewrite list_lookup_alter_eq.
  destruct (list_children p !! k) as [[|r']|]; try done. by intros [= ->].
Qed.

Lemma on_checkbox_change_eq k task i b r :
  row_at k (page b) = Some r →
  let task' := with_completed (checkbox_checked r) task in
  let w1 := mkWorld (mkTaskManager (storageKey (this (App b)))
                       (<[i := task']> (tasks (this (App b))))) (host (App b)) in
  let w2 := exec (Call_updateTask (id task') (completed_update (completed task'))) w1 in
  on_checkbox_change k task (Some i) b =
    (Normal (),
     mkBrowser
       (set_remaining_textContent
          (remaining_label (count_not_completed (tasks (this w2))))
          (set_list_children
             (alter (map_row (set_checkbox_label
                                (if completed task' then "Mark as pending"
                                 else "Mark as completed"))) k
                (alter (map_row (set_text_completed (completed task'))) k
                   (list_children (page b))))
             (page b)))
       w2).
Proof.
  intros Hrow task' w1 w2.
  destruct (exec_normal (Call_updateTask (id task') (completed_update (completed task'))) w1)
    as [b0 E]. fold w2 in E.
  unfold on_checkbox_change, assign_task, modify_row, updateRemaining, getRemainingCount.
  ui_unfold. js_unfold. cbn [fst snd page App this host storageKey tasks].
  rewrite Hrow. cbn [fst snd page App this host storageKey tasks]. fold task' w1.
  rewrite E. cbn [fst snd list_children set_list_children].
  by rewrite count_not_completed_filter.
Qed.

Lemma exec_persisted c w :
  call_saves c (tasks (this w)) = true → persisted w (exec c w).
Proof.
  intros Hs. rewrite exec_eq, Hs.
  by destruct (set_then_save w (tasks_after c (tasks (this w)))) as [_ Hp].
Qed.

Lemma persisted_same_host w1 w w' : host w1 = host w → persisted w1 w' → persisted w w'.
Proof. unfold persisted. by intros ->. Qed.

(** The list after a field of the task at place [i] was assigned and
    [updateTask] was called with the same field, when ids are distinct. *)
Lemma update_after_assignment (l : list Task) i task task' u key h :
  NoDup (id <$> l) → l !! i = Some task → id task' = id task →
  Object_assign task' u = task' →
  let w1 := mkWorld (mkTaskManager key (<[i := task']> l)) h in
  tasks (this (exec (Call_updateTask (id task') u) w1)) = <[i := task']> l ∧
  call_saves (Call_updateTask (id task') u) (tasks (this w1)) = true.
Proof.
  intros Hnd Hi Hid Hassign w1.
  assert (Hfind : list_find (λ x, id x = id task') (<[i := task']> l) = Some (i, task')).
  { rewrite Hid. apply (list_find_insert_same_id _ _ _ task); [|done].
    by apply list_find_unique_id. }
  split.
  - rewrite exec_tasks. cbn [tasks_after w1 this tasks]. rewrite Hfind, Hassign.
    by rewrite list_insert_insert_eq.
  - cbn [call_saves w1 this tasks]. rewrite Hfind. by apply bool_decide_eq_true_2.
Qed.

(** X26. A change of the checkbox of a row whose task is in the list,
    the ids of the list being distinct: the task gets the state of the
    checkbox at its place in the list, every other task is as before, the
    list is persisted, the text of the row gets or loses the completed
    style and the checkbox its new label, the other rows are not touched
    and the label shows the new remaining count. *)
Theorem checkbox_change_updates_task (k i : nat) (task : Task) (r : Row) (b : Browser) :
  row_at k (page b) = Some r →
  tasks (this (App b)) !! i = Some task →
  NoDup (id <$> tasks (this (App b))) →
  let c := checkbox_checked r in
  ∃ b', on_checkbox_change k task (Some i) b = (Normal (), b') ∧
        tasks (this (App b')) = <[i := with_completed c task]> (tasks (this (App b))) ∧
        persisted (App b) (App b') ∧
        row_at k (page b')
          = Some (set_checkbox_label
                    (if c then "Mark as pending" else "Mark as completed")
                    (set_text_completed c r)) ∧
        (∀ j, j ≠ k → list_children (page b') !! j = list_children (page b) !! j) ∧
        remaining_textContent (page b')
          = remaining_label (count_not_completed (tasks (this (App b')))).
Proof.
  intros Hrow Hi Hnd c.
  rewrite (on_checkbox_change_eq _ _ _ _ _ Hrow). cbn zeta. fold c.
  destruct (update_after_assignment (tasks (this (App b))) i task (with_completed c task)
              (completed_update (completed (with_completed c task)))
              (storageKey (this (App b))) (host (App b)) Hnd Hi eq_refl eq_refl)
    as [Htasks Hsaves].
  eexists. split; [done|]. cbn [App page].
  split; [exact Htasks|]. split; [|split; [|split; [|done]]].
  - eapply persisted_same_host; [|by apply exec_persisted]. done.
  - cbn [remaining_textContent set_remaining_textContent].
    unfold row_at in *. cbn [list_children set_list_children set_remaining_textContent].
    rewrite !list_lookup_alter_eq.
    destruct (list_children (page b) !! k) as [[|r']|]; try done.
    by injection Hrow as ->.
  - intros j Hj. cbn [list_children set_list_children set_remaining_textContent].
    by rewrite !list_lookup_alter_ne.
Qed.

Lemma filter_other_ids_delete (l : list Task) k task :
  NoDup (id <$> l) → l !! k = Some task →
  filter (λ t, id t ≠ id task) l = delete k l.
Proof.
  revert k. induction l as [|x l IH]; intros [|k] Hnd Hk; try done.
  - injection Hk as ->. rewrite fmap_cons in Hnd. apply NoDup_cons in Hnd as [Hx _].
    rewrite filter_cons_False by (by intros Hne). cbn [delete list_delete].
    apply filter_id_absent. intros t Ht Hid. apply Hx. rewrite <- Hid.
    by apply list_elem_of_fmap_2.
  - rewrite fmap_cons in Hnd. apply NoDup_cons in Hnd as [Hx Hnd]. cbn in Hk.
    rewrite filter_cons_True.
    + cbn [delete list_delete]. f_equal. by apply IH.
    + intros Hid. apply Hx. rewrite Hid. apply list_elem_of_fmap_2.
      by eapply list_elem_of_lookup_2.
Qed.

Lemma removeTask_run id0 w :
  removeTask id0 w
  = (Normal (call_saves (Call_removeTask id0) (tasks (this w))),
     exec (Call_removeTask id0) w).
Proof.
  rewrite exec_eq. rewrite removeTask_eq. cbn zeta. cbn [call_saves tasks_after].
  case_bool_decide as E; [done|].
  rewrite length_filter_eq; [by rewrite world_eta|].
  destruct (decide (length (filter (λ t, id t ≠ id0) (tasks (this w)))
                    = length (tasks (this w)))); [done | by destruct E].
Qed.

Lemma call_saves_removeTask id0 (l : list Task) :
  call_saves (Call_removeTask id0) l = true ↔ ∃ t, t ∈ l ∧ id t = id0.
Proof.
  cbn [call_saves tasks_after]. rewrite bool_decide_eq_true. split.
  - intros Hlen. destruct (decide (Exists (λ t, id t = id0) l)) as [Hex|Hno].
    + apply Exists_exists in Hex as (t & ? & ?). eauto.
    + exfalso. apply Hlen. f_equal. apply filter_id_absent.
      intros t Ht Hid. apply Hno, Exists_exists. eauto.
  - intros (t & Hin & Hid).
    pose proof (length_filter_lt (λ t, id t ≠ id0) l t Hin) as Hlt.
    assert (¬ id t ≠ id0) as Hn by (by intros Hne). specialize (Hlt Hn). lia.
Qed.

(** X27. A click on the delete button of a row. When the user declines
    the confirmation, or when no task of the list has the id of the
    task of the row, nothing changes, neither the page nor the store.
    Otherwise the tasks of that id leave the list, the list is persisted,
    exactly that row leaves the page and the label shows the new
    remaining count; if the rows showed the tasks one for one, the ids
    being distinct and the row being the one of its task, they still do,
    and after the last task the list region is empty, without the
    notice. *)
Theorem delete_click_removes_task_and_row (k : nat) (task : Task) (r : Row) (b : Browser) :
  row_at k (page b) = Some r →
  let l := tasks (this (App b)) in
  on_delete_click k task false b = (Normal (), b) ∧
  ((∀ t, t ∈ l → id t ≠ id task) → on_delete_click k task true b = (Normal (), b)) ∧
  ((∃ t, t ∈ l ∧ id t = id task) →
     ∃ b', on_delete_click k task true b = (Normal (), b') ∧
           tasks (this (App b')) = filter (λ t, id t ≠ id task) l ∧
           persisted (App b) (App b') ∧
           list_children (page b') = delete k (list_children (page b)) ∧
           remaining_textContent (page b')
             = remaining_label (count_not_completed (tasks (this (App b')))) ∧
           (Forall2 row_shows (list_children (page b)) l → l !! k = Some task →
            NoDup (id <$> l) →
              Forall2 row_shows (list_children (page b')) (tasks (this (App b'))) ∧
              (tasks (this (App b')) = [] → list_children (page b') = []))).
Proof.
  intros Hrow l.
  assert (Hrun : on_delete_click k task true b =
            if call_saves (Call_removeTask (id task)) l
            then (Normal (),
                  mkBrowser
                    (set_remaining_textContent
                       (remaining_label
                          (count_not_completed
                             (tasks (this (exec (Call_removeTask (id task)) (App b))))))
                       (set_list_children (delete k (list_children (page b))) (page b)))
                    (exec (Call_removeTask (id task)) (App b)))
            else (Normal (), b)).
  { unfold on_delete_click, remove_row, updateRemaining, getRemainingCount.
    ui_unfold. js_unfold. cbn [fst snd page App]. rewrite Hrow. cbn [negb].
    rewrite removeTask_run. cbn [fst snd]. fold l.
    destruct (call_saves (Call_removeTask (id task)) l) eqn:Hs.
    - cbn [fst snd page App list_children set_list_children].
      by rewrite count_not_completed_filter.
    - rewrite exec_eq. fold l. rewrite Hs. by destruct b. }
  split; [|split].
  - unfold on_delete_click. ui_unfold. cbn [fst snd page App]. rewrite Hrow.
    cbn [negb]. by destruct b.
  - intros Habsent. rewrite Hrun.
    destruct (call_saves (Call_removeTask (id task)) l) eqn:Hs; [|done].
    apply call_saves_removeTask in Hs as (t & Hin & Hid). by destruct (Habsent t Hin).
  - intros Hpresent. rewrite Hrun.
    rewrite (proj2 (call_saves_removeTask (id task) l) Hpresent).
    eexists. split; [done|]. cbn [App page].
    assert (Htasks : tasks (this (exec (Call_removeTask (id task)) (App b)))
                     = filter (λ t, id t ≠ id task) l) by (by rewrite exec_tasks).
    split; [done|].
    split; [apply exec_persisted; by apply call_saves_removeTask|].
    split; [done|]. split; [done|].
    intros Hshows Hk Hnd.
    cbn [list_children set_list_children set_remaining_textContent].
    rewrite Htasks, (filter_other_ids_delete l k task) by done.
    split; [by apply Forall2_delete|].
    intros Hempty. apply Forall2_length in Hshows.
    apply (f_equal length) in Hempty. rewrite length_delete in Hempty by eauto.
    cbn [length] in Hempty.
    assert (length (delete k (list_children (page b))) = 0) as Hz.
    { rewrite length_delete; [lia|]. unfold row_at in Hrow.
      destruct (list_children (page b) !! k); [eauto | done]. }
    by destruct (delete k (list_children (page b))).
Qed.

Lemma delete_alter {A} (f : A → A) k (l : list A) : delete k (alter f k l) = delete k l.
Proof.
  revert k. induction l as [|x l IH]; intros [|k]; try done.
  cbn. f_equal. apply IH.
Qed.

Lemma on_text_blur_commit_eq k task i b r confirmed :
  row_at k (page b) = Some r → text_contentEditable r = true →
  trim (text_textContent r) ≠ [] →
  let task' := with_text (trim (text_textContent r)) task in
  let w1 := mkWorld (mkTaskManager (storageKey (this (App b)))
                       (<[i := task']> (tasks (this (App b))))) (host (App b)) in
  on_text_blur k task (Some i) confirmed b =
    (Normal (),
     mkBrowser
       (set_list_children
          (alter (map_row (set_text_contentEditable false)) k (list_children (page b)))
          (page b))
       (exec (Call_updateTask (id task') (text_update (trim (text_textContent r)))) w1)).
Proof.
  intros Hrow Hed Hne task' w1.
  destruct (exec_normal
              (Call_updateTask (id task') (text_update (trim (text_textContent r)))) w1)
    as [b0 E].
  unfold on_text_blur, assign_task, modify_row.
  ui_unfold. js_unfold. cbn [fst snd page App this host storageKey tasks].
  rewrite Hrow, Hed. cbn [fst snd page App this host storageKey tasks].
  rewrite bool_decide_eq_false_2 by done.
  cbn [fst snd page App this host storageKey tasks]. fold task' w1.
  rewrite E. done.
Qed.

(** X28. When the text of a row loses the focus. If the row is not
    being edited, nothing happens. If it is and the text is not blank,
    the ids of the list being distinct and the task being in the list:
    the task gets the trimmed text at its place in the list, every other
    task is as before, the list is persisted and the row leaves the edit
    mode; the row keeps the text as it was typed, blank ends included,
    and the other rows and the remaining count are not touched. *)
Theorem edit_commit_stores_trimmed_text
    (k i : nat) (task : Task) (r : Row) (confirmed : bool) (b : Browser) :
  row_at k (page b) = Some r →
  (text_contentEditable r = false →
     on_text_blur k task (Some i) confirmed b = (Normal (), b)) ∧
  (text_contentEditable r = true → blank (text_textContent r) = false →
   tasks (this (App b)) !! i = Some task → NoDup (id <$> tasks (this (App b))) →
     ∃ b', on_text_blur k task (Some i) confirmed b = (Normal (), b') ∧
           tasks (this (App b'))
             = <[i := with_text (trim (text_textContent r)) task]> (tasks (this (App b))) ∧
           persisted (App b) (App b') ∧
           row_at k (page b') = Some (set_text_contentEditable false r) ∧
           (∀ j, j ≠ k → list_children (page b') !! j = list_children (page b) !! j) ∧
           remaining_textContent (page b') = remaining_textContent (page b)).
Proof.
  intros Hrow. split.
  - intros Hed. unfold on_text_blur. ui_unfold. cbn [fst snd page App].
    rewrite Hrow, Hed. by destruct b.
  - intros Hed Hblank Hi Hnd.
    assert (trim (text_textContent r) ≠ []) as Hne.
    { intros E. apply trim_nil_blank in E. congruence. }
    rewrite (on_text_blur_commit_eq _ _ _ _ _ _ Hrow Hed Hne). cbn zeta.
    destruct (update_after_assignment (tasks (this (App b))) i task
                (with_text (trim (text_textContent r)) task)
                (text_update (trim (text_textContent r)))
                (storageKey (this (App b))) (host (App b)) Hnd Hi eq_refl eq_refl)
      as [Htasks Hsaves].
    eexists. split; [done|]. cbn [App page].
    split; [exact Htasks|]. split; [|split; [|split; [|done]]].
    + eapply persisted_same_host; [|by apply exec_persisted]. done.
    + by apply row_at_alter.
    + intros j Hj. cbn [list_children set_list_children].
      by rewrite list_lookup_alter_ne.
Qed.

Lemma count_not_completed_split id0 (l : list Task) :
  count_not_completed (filter (λ t, id t ≠ id0) l)
    + count_not_completed (filter (λ t, id t = id0) l)
  = count_not_completed l.
Proof.
  induction l as [|t l IH]; [done|].
  rewrite !filter_cons. destruct (decide (id t = id0)) as [E|E].
  - rewrite decide_False by tauto. cbn [count_not_completed].
    destruct (completed t); lia.
  - rewrite decide_True by done. cbn [count_not_completed].
    destruct (completed t); lia.
Qed.

Lemma remaining_label_inj n m : remaining_label n = remaining_label m → n = m.
Proof.
  intros E.
  destruct (parse_number_remaining_label n) as (r1 & H1).
  destruct (parse_number_remaining_label m) as (r2 & H2).
  rewrite E, H2 in H1. injection H1 as H1 _. lia.
Qed.

(** X29. When a row being edited loses the focus with a blank text. If
    the user declines the deletion, the row shows the text of the task
    again and leaves the edit mode, and the store is not touched. If the
    user confirms, the tasks of that id leave the list, the list is
    persisted when there was one, and the row leaves the page; the label
    of the remaining count is not refreshed, so that it shows a wrong
    count when it was right before and a removed task was not
    completed. *)
Theorem empty_edit_deletes_or_reverts
    (k : nat) (task : Task) (place : option nat) (r : Row) (b : Browser) :
  row_at k (page b) = Some r →
  text_contentEditable r = true →
  blank (text_textContent r) = true →
  let l := tasks (this (App b)) in
  (∃ b', on_text_blur k task place false b = (Normal (), b') ∧
         App b' = App b ∧
         row_at k (page b')
           = Some (set_text_textContent (text task) (set_text_contentEditable false r)) ∧
         (∀ j, j ≠ k → list_children (page b') !! j = list_children (page b) !! j)) ∧
  (∃ b', on_text_blur k task place true b = (Normal (), b') ∧
         tasks (this (App b')) = filter (λ t, id t ≠ id task) l ∧
         list_children (page b') = delete k (list_children (page b)) ∧
         remaining_textContent (page b') = remaining_textContent (page b) ∧
         ((∃ t, t ∈ l ∧ id t = id task) → persisted (App b) (App b')) ∧
         (remaining_textContent (page b) = remaining_label (count_not_completed l) →
          (∃ t, t ∈ l ∧ id t = id task ∧ completed t = false) →
            remaining_textContent (page b')
            ≠ remaining_label (count_not_completed (tasks (this (App b')))))).
Proof.
  intros Hrow Hed Hblank l. apply trim_nil_blank in Hblank. split.
  - unfold on_text_blur, modify_row. ui_unfold. cbn [fst snd page App].
    rewrite Hrow, Hed. cbn [fst snd page App]. rewrite bool_decide_eq_true_2 by done.
    eexists. split; [done|]. cbn [page App]. split; [done|]. split.
    + cbn [list_children set_list_children].
      unfold row_at in *. cbn [list_children set_list_children].
      rewrite !list_lookup_alter_eq.
      destruct (list_children (page b) !! k) as [[|r']|]; try done.
      by injection Hrow as ->.
    + intros j Hj. cbn [list_children set_list_children].
      by rewrite !list_lookup_alter_ne.
  - unfold on_text_blur, modify_row, remove_row. ui_unfold. cbn [fst snd page App].
    rewrite Hrow, Hed. cbn [fst snd page App]. rewrite bool_decide_eq_true_2 by done.
    rewrite removeTask_run. cbn [fst snd page App]. eexists. split; [done|].
    cbn [page App list_children set_list_children remaining_textContent].
    assert (Htasks : tasks (this (exec (Call_removeTask (id task)) (App b)))
                     = filter (λ t, id t ≠ id task) l) by (by rewrite exec_tasks).
    split; [done|]. split; [apply delete_alter|]. split; [done|]. split.
    + intros Hpresent. apply exec_persisted. by apply call_saves_removeTask.
    + intros Hstep (t & Hin & Hid & Hpending). rewrite Hstep, Htasks.
      intros E. apply remaining_label_inj in E.
      pose proof (count_not_completed_split (id task) l) as Hsplit.
      assert (0 < count_not_completed (filter (λ t, id t = id task) l)); [|lia].
      assert (t ∈ filter (λ t, id t = id task) l) as Hm
        by (by apply list_elem_of_filter).
      clear -Hm Hpending. induction (filter (λ t, id t = id task) l) as [|x l' IH].
      * by apply elem_of_nil in Hm.
      * apply elem_of_cons in Hm as [<-|Hm]; cbn [count_not_completed].
        -- rewrite Hpending. lia.
        -- specialize (IH Hm). lia.
Qed.

(** X30. Keys in the text of a row. [Enter] does what losing the focus
    does, and every key other than [Enter] and [Escape] does nothing.
    [Escape] on a row being edited puts the text of the task back in the
    row and then commits it like a loss of focus: with distinct ids, a
    task in the list and a text that is not blank, the row leaves the
    edit mode showing the text of the task, the task keeps its text when
    that text is trimmed, and the list is written to the storage
    again. *)
Theorem keys_commit_or_cancel
    (key : jsstring) (k i : nat) (task : Task) (place : option nat) (r : Row)
    (confirmed : bool) (b : Browser) :
  (key = js "Enter" →
     on_text_keydown key k task place confirmed b = on_text_blur k task place confirmed b) ∧
  (key ≠ js "Enter" → key ≠ js "Escape" →
     on_text_keydown key k task place confirmed b = (Normal (), b)) ∧
  (key = js "Escape" →
   row_at k (page b) = Some r → text_contentEditable r = true →
   blank (text task) = false →
   tasks (this (App b)) !! i = Some task → NoDup (id <$> tasks (this (App b))) →
     ∃ b', on_text_keydown key k task (Some i) confirmed b = (Normal (), b') ∧
           row_at k (page b')
             = Some (set_text_contentEditable false (set_text_textContent (text task) r)) ∧
           tasks (this (App b'))
             = <[i := with_text (trim (text task)) task]> (tasks (this (App b))) ∧
           (trimmed (text task) → tasks (this (App b')) = tasks (this (App b))) ∧
           persisted (App b) (App b')).
Proof.
  split; [|split].
  - intros ->. unfold on_text_keydown.
    rewrite (bool_decide_eq_true_2 (js "Enter" = js "Enter")) by done.
    rewrite (bool_decide_eq_false_2 (js "Enter" = js "Escape")) by (by vm_compute).
    unfold mbind, Ui_bind, mret, Ui_ret.
    by destruct (on_text_blur k task place confirmed b) as [[[]|e] b'].
  - intros H1 H2. unfold on_text_keydown.
    rewrite !bool_decide_eq_false_2 by done. by destruct b.
  - intros -> Hrow Hed Hblank Hi Hnd. unfold on_text_keydown.
    rewrite (bool_decide_eq_false_2 (js "Escape" = js "Enter")) by (by vm_compute).
    rewrite (bool_decide_eq_true_2 (js "Escape" = js "Escape")) by done.
    unfold mbind at 1 2. unfold Ui_bind, mret, Ui_ret, modify_row, modify_page.
    set (b1 := mkBrowser
                 (set_list_children
                    (alter (map_row (set_text_textContent (text task))) k
                       (list_children (page b))) (page b)) (App b)).
    assert (Hrow1 : row_at k (page b1) = Some (set_text_textContent (text task) r))
      by (by apply row_at_alter).
    assert (trim (text task) ≠ []) as Hne.
    { intros E. apply trim_nil_blank in E. congruence. }
    rewrite (on_text_blur_commit_eq k task i b1 _ confirmed Hrow1 Hed Hne). cbn zeta.
    cbn [text_textContent set_text_textContent b1 App page].
    destruct (update_after_assignment (tasks (this (App b))) i task
                (with_text (trim (text task)) task) (text_update (trim (text task)))
                (storageKey (this (App b))) (host (App b)) Hnd Hi eq_refl eq_refl)
      as [Htasks Hsaves].
    eexists. split; [done|]. cbn [App page]. split; [|split; [exact Htasks|split]].
    + unfold row_at in *. cbn [list_children set_list_children].
      rewrite !list_lookup_alter_eq.
      destruct (list_children (page b) !! k) as [[|r']|]; try done.
      by injection Hrow as ->.
    + intros Htrim. rewrite Htasks. apply list_insert_id.
      rewrite Hi. f_equal. unfold with_text. rewrite Htrim. by destruct task.
    + eapply persisted_same_host; [|by apply exec_persisted]. done.
Qed.


(** ** The further properties at concrete inputs *)

Lemma addTask_blank_or_stripped_witness :
  let w := empty_manager default_storageKey (empty_host 5000000) in
  blank (js "  Buy milk ") = false ∧
  ∃ t pre post,
    (addTask (js "  Buy milk ") (js "0.4fzyo82mvyr") 1700000000000 w).1 = Normal (Some t) ∧
    js "  Buy milk " = pre ++ text t ++ post ∧ blank pre = true ∧ blank post = true.
Proof.
  intros w.
  assert (H : blank (js "  Buy milk ") = false) by (vm_compute; reflexivity).
  split; [exact H|].
  destruct (proj2 (addTask_blank_or_stripped (js "  Buy milk ") (js "0.4fzyo82mvyr")
                     1700000000000 w) H)
    as (t & pre & post & _ & _ & _ & E & Hs & Hpre & Hpost & _).
  exists t, pre, post. auto.
Defined.

Lemma additions_newest_first_witness :
  let adds := [mkAddition (js "Buy milk") (js "0.4fzyo82mvyr") 1700000000000;
               mkAddition (js " Walk dog ") (js "0.k3b9x1q7p2m") 1700000000500] in
  let w := empty_manager default_storageKey (empty_host 5000000) in
  Forall (λ a, blank (add_text a) = false) adds ∧
  tasks (this (run (addition_call <$> adds) w))
    = [mkTask (js "_k3b9x1q") (js "Walk dog") false 1700000000500;
       mkTask (js "_4fzyo82") (js "Buy milk") false 1700000000000].
Proof.
  intros adds w.
  assert (H : Forall (λ a, blank (add_text a) = false) adds)
    by (repeat constructor; vm_compute; reflexivity).
  split; [exact H|].
  rewrite (proj1 (additions_newest_first adds w H)). vm_compute. reflexivity.
Defined.

Lemma addTask_then_removeTask_witness :
  let w := mkWorld (mkTaskManager default_storageKey
                      [mkTask (js "_k3b9x1q") (js "Walk dog") false 1700000000500])
                   (empty_host 5000000) in
  blank (js "Buy milk") = false ∧
  ∃ w2, removeTask (js "_4fzyo82")
          (exec (Call_addTask (js "Buy milk") (js "0.4fzyo82mvyr") 1700000000000) w)
        = (Normal true, w2) ∧
        tasks (this w2) = tasks (this w).
Proof.
  intros w.
  assert (H : blank (js "Buy milk") = false) by (vm_compute; reflexivity).
  split; [exact H|].
  destruct (addTask_then_removeTask (js "Buy milk") (js "0.4fzyo82mvyr") 1700000000000 w H)
    as (w2 & E & _ & Hsame).
  exists w2. split; [exact E|].
  apply Hsame. vm_compute. intros Hin.
  apply list_elem_of_singleton in Hin. discriminate Hin.
Defined.

Lemma updateTask_twice_merges_witness :
  let tA := mkTask (js "_4fzyo82") (js "Buy milk") false 1700000000000 in
  let w := mkWorld (mkTaskManager default_storageKey [tA]) (empty_host 5000000) in
  upd_id (completed_update true) = None ∧
  tasks (this (exec (Call_updateTask (js "_4fzyo82") (text_update (js "Buy oat milk")))
                 (exec (Call_updateTask (js "_4fzyo82") (completed_update true)) w)))
    = [mkTask (js "_4fzyo82") (js "Buy oat milk") true 1700000000000].
Proof.
  intros tA w. split; [reflexivity|].
  rewrite (proj1 (updateTask_twice_merges (js "_4fzyo82") (completed_update true)
                    (text_update (js "Buy oat milk")) w) eq_refl).
  vm_compute. reflexivity.
Defined.

Lemma refused_write_is_logged_witness :
  let w := empty_manager default_storageKey (empty_host 10) in
  let c := Call_addTask (js "Buy milk") (js "0.4fzyo82mvyr") 1700000000000 in
  let l' := [mkTask (js "_4fzyo82") (js "Buy milk") false 1700000000000] in
  (call_saves c (tasks (this w)) = true ∧
   write_accepted (host w) default_storageKey (JSON_stringify (JArray (task_json <$> l')))
     = false) ∧
  tasks (this (exec c w)) = l' ∧
  items (host (exec c w)) = ∅.
Proof.
  intros w c l'.
  assert (H1 : call_saves c (tasks (this w)) = true) by (vm_compute; reflexivity).
  assert (H2 : write_accepted (host w) default_storageKey
                 (JSON_stringify (JArray (task_json <$> l'))) = false)
    by (vm_compute; reflexivity).
  split; [split; [exact H1 | exact H2]|].
  assert (H2' : write_accepted (host w) (storageKey (this w))
                  (JSON_stringify
                     (JArray (task_json <$> tasks_after c (tasks (this w))))) = false)
    by (vm_compute; reflexivity).
  destruct (refused_write_is_logged c w H1 H2') as (Ht & Hi & _).
  split.
  - rewrite Ht. vm_compute. reflexivity.
  - rewrite Hi. reflexivity.
Defined.

Lemma reload_follows_calls_witness :
  let cs := [Call_addTask (js "Buy milk") (js "0.4fzyo82mvyr") 1700000000000;
             Call_addTask (js " Walk dog ") (js "0.k3b9x1q7p2m") 1700000000500;
             Call_updateTask (js "_4fzyo82") (completed_update true);
             Call_clearCompleted;
             Call_removeTask (js "_nobody")] in
  let w := empty_manager default_storageKey (empty_host 5000000) in
  (reloads w ∧ all_calls write_ok cs w = true) ∧
  reloads (run cs w).
Proof.
  intros cs w.
  assert (H1 : reloads w) by (vm_compute; reflexivity).
  assert (H2 : all_calls write_ok cs w = true) by (vm_compute; reflexivity).
  split; [split; [exact H1 | exact H2]|].
  exact (reload_follows_calls cs w H1 H2).
Defined.

Lemma remaining_count_bookkeeping_witness :
  let tA := mkTask (js "_4fzyo82") (js "Buy milk") false 1700000000000 in
  let w := mkWorld (mkTaskManager default_storageKey [tA]) (empty_host 5000000) in
  blank (js "Walk dog") = false ∧
  count_not_completed
    (tasks (this (exec (Call_addTask (js "Walk dog") (js "0.k3b9x1q7p2m") 1700000000500) w)))
    = 2.
Proof.
  intros tA w.
  assert (H : blank (js "Walk dog") = false) by (vm_compute; reflexivity).
  split; [exact H|].
  exact (proj1 (remaining_count_bookkeeping w)
           (js "Walk dog") (js "0.k3b9x1q7p2m") 1700000000500%Z H).
Defined.

Lemma load_returns_what_is_stored_witness :
  let l := [mkTask (js "_4fzyo82") (js "Buy milk") false 1700000000000] in
  let raw := JSON_stringify (JArray (task_json <$> l)) in
  let w := fresh_session default_storageKey
             (mkHost {[ default_storageKey := raw ]} 5000000 true []) in
  task_json <$> l ≠ [] ∧
  (load JSON_parse_ref w).1 = Normal (JArray (task_json <$> l)).
Proof.
  intros l raw w.
  assert (H : task_json <$> l ≠ []) by (vm_compute; discriminate).
  split; [exact H|].
  apply (proj2 (load_returns_what_is_stored JSON_parse_ref w (task_json <$> l) H)).
  split; [reflexivity|]. exists raw.
  split; [vm_compute; reflexivity|].
  split; [vm_compute; discriminate|].
  vm_compute. reflexivity.
Defined.

Lemma new_TaskManager_restores_witness :
  let tB := mkTask (js "_k3b9x1q") (js "Walk dog") false 1700000000500 in
  let tA := mkTask (js "_4fzyo82") (js "Buy milk") true 1700000000000 in
  let arr := [JObject [(js "createdAt", JNumber 1700000000500);
                       (js "completed", JBool false);
                       (js "text", JString (js "Walk dog"));
                       (js "id", JString (js "_k3b9x1q"))];
              JObject [(js "text", JString (js "Buy milk"));
                       (js "id", JString (js "_4fzyo82"));
                       (js "completed", JBool true);
                       (js "createdAt", JNumber 1700000000000)]] in
  let raw := JSON_stringify (JArray arr) in
  let h := mkHost {[ default_storageKey := raw ]} 5000000 true [] in
  let w := empty_manager default_storageKey h in
  let saved := mkWorld (mkTaskManager default_storageKey [tB; tA]) (empty_host 5000000) in
  ((accessible (host w) = true ∧ items (host w) !! default_storageKey = Some raw ∧
    raw ≠ [] ∧ JSON_parse_ref raw = Some (JArray arr) ∧
    Forall2 (λ v t, same_object v (task_json t)) arr [tB; tA]) ∧
   ∃ h', new_TaskManager JSON_parse_ref default_storageKey h
           = (Normal (mkLoadedManager default_storageKey (JArray arr)), h') ∧
         typed_world (mkLoadedManager default_storageKey (JArray arr)) h'
           = Some (mkWorld (mkTaskManager default_storageKey [tB; tA]) h')) ∧
  (write_accepted (host saved) default_storageKey (stored_text (this saved)) = true ∧
   ∃ m h', new_TaskManager JSON_parse_ref default_storageKey (host (save saved).2)
             = (Normal m, h') ∧
           typed_world m h' = Some (mkWorld (this saved) h')).
Proof.
  intros tB tA arr raw h w saved.
  assert (H1 : accessible (host w) = true) by reflexivity.
  assert (H2 : items (host w) !! default_storageKey = Some raw)
    by (vm_compute; reflexivity).
  assert (H3 : raw ≠ []) by (vm_compute; discriminate).
  assert (H4 : JSON_parse_ref raw = Some (JArray arr)) by (vm_compute; reflexivity).
  assert (H5 : Forall2 (λ v t, same_object v (task_json t)) arr [tB; tA]).
  { constructor; [|constructor; [|constructor]].
    - eexists _, _. split; [reflexivity|]. split; [reflexivity|].
      apply (reverse_Permutation
               [(js "id", JString (js "_k3b9x1q")); (js "text", JString (js "Walk dog"));
                (js "completed", JBool false); (js "createdAt", JNumber 1700000000500)]).
    - eexists _, _. split; [reflexivity|]. split; [reflexivity|].
      apply Permutation_swap. }
  assert (H6 : write_accepted (host saved) default_storageKey (stored_text (this saved))
               = true) by (vm_compute; reflexivity).
  split.
  - split; [repeat split; assumption|].
    exact (proj1 (proj2 (new_TaskManager_restores JSON_parse_ref w))
             raw arr [tB; tA] H1 H2 H3 H4 H5).
  - split; [exact H6|].
    destruct (proj2 (proj2 (new_TaskManager_restores JSON_parse_ref saved)) H6)
      as (m & h' & E & Ht & _).
    exists m, h'. split; [exact E | exact Ht].
Defined.

Lemma stored_text_inj_witness :
  let l := [mkTask (js "_4fzyo82") (js "Buy milk") false 1700000000000] in
  let tm1 := mkTaskManager default_storageKey l in
  let tm2 := mkTaskManager (js "todo.tasks.v2") l in
  stored_text tm1 = stored_text tm2 ∧ tasks tm1 = tasks tm2.
Proof.
  intros l tm1 tm2.
  assert (H : stored_text tm1 = stored_text tm2) by reflexivity.
  split; [exact H|]. exact (stored_text_inj tm1 tm2 H).
Defined.

Lemma other_key_unaffected_witness :
  let w := empty_manager default_storageKey
             (mkHost {[ js "todo.tasks.v2" := js "[]" ]} 5000000 true []) in
  let c := Call_addTask (js "Buy milk") (js "0.4fzyo82mvyr") 1700000000000 in
  js "todo.tasks.v2" ≠ storageKey (this w) ∧
  (load JSON_parse_ref (fresh_session (js "todo.tasks.v2") (host (exec c w)))).1
  = (load JSON_parse_ref (fresh_session (js "todo.tasks.v2") (host w))).1.
Proof.
  intros w c.
  assert (H : js "todo.tasks.v2" ≠ storageKey (this w)) by (vm_compute; discriminate).
  split; [exact H|].
  exact (other_key_unaffected JSON_parse_ref c w (js "todo.tasks.v2") H).
Defined.

Lemma form_adds_trimmed_input_witness :
  let p := mkPage (Some (js "light")) (Some (js "false")) moon (js " Buy milk ") false
             (js "0 tasks left") [EmptyNotice (js "No tasks found.")] in
  let b := mkBrowser p (empty_manager default_storageKey (empty_host 5000000)) in
  blank (input_value (page b)) = false ∧
  ∃ b', on_submit (js "0.4fzyo82mvyr") 1700000000000 b = (Normal (), b') ∧
        tasks (this (App b')) = [mkTask (js "_4fzyo82") (js "Buy milk") false 1700000000000] ∧
        input_value (page b') = [] ∧
        in_step b'.
Proof.
  intros p b.
  assert (H : blank (input_value (page b)) = false) by (vm_compute; reflexivity).
  split; [exact H|].
  destruct (proj2 (proj2 (form_adds_trimmed_input (js "0.4fzyo82mvyr") 1700000000000 b)) H)
    as (b' & E & Ht & _ & Hi & _ & Hs).
  exists b'. split; [exact E|]. split; [|split; [exact Hi | exact Hs]].
  rewrite Ht. vm_compute. reflexivity.
Defined.

Lemma setTheme_shows_and_stores_witness :
  let p := mkPage None None [] [] true [] [] in
  let b := mkBrowser p (empty_manager default_storageKey (empty_host 5000000)) in
  write_accepted (host (App b)) theme_storageKey (theme_of (js "dark")) = true ∧
  ∃ b', setTheme (js "dark") b = (Normal (), b') ∧
        body_theme (page b') = Some (js "dark") ∧
        items (host (App b')) !! theme_storageKey = Some (js "dark") ∧
        themeToggle_textContent (page b') = sun.
Proof.
  intros p b.
  assert (H : write_accepted (host (App b)) theme_storageKey (theme_of (js "dark")) = true)
    by (vm_compute; reflexivity).
  split; [exact H|].
  destruct (proj2 (proj2 (setTheme_shows_and_stores (js "dark") b)) H)
    as (b' & E & Hb & Hi & [_ Hicon] & _).
  exists b'. split; [exact E|]. split; [exact Hb|]. split; [exact Hi | exact Hicon].
Defined.

Lemma setTheme_throws_when_refused_witness :
  let p := mkPage None None [] [] true [] [] in
  let b := mkBrowser p (empty_manager default_storageKey (empty_host 10)) in
  write_accepted (host (App b)) theme_storageKey (theme_of (js "dark")) = false ∧
  ∃ b', setTheme (js "dark") b = (Throw QuotaExceededError, b') ∧
        body_theme (page b') = Some (js "dark") ∧
        themeToggle_pressed (page b') = None.
Proof.
  intros p b.
  assert (H : write_accepted (host (App b)) theme_storageKey (theme_of (js "dark")) = false)
    by (vm_compute; reflexivity).
  split; [exact H|].
  destruct (setTheme_throws_when_refused (js "dark") b H) as (b' & E & Hb & Hp & _).
  exists b'. split; [exact E|]. split; [exact Hb | exact Hp].
Defined.

Lemma theme_toggle_alternates_witness :
  let p := mkPage (Some (js "dark")) (Some (js "true")) sun [] true [] [] in
  let b := mkBrowser p (empty_manager default_storageKey (empty_host 5000000)) in
  write_accepted (host (App b)) theme_storageKey (js "light") = true ∧
  ∃ b1 b2, on_theme_click b = (Normal (), b1) ∧
           on_theme_click b1 = (Normal (), b2) ∧
           body_theme (page b1) = Some (js "light") ∧
           body_theme (page b2) = Some (js "dark").
Proof.
  intros p b.
  assert (H : write_accepted (host (App b)) theme_storageKey (js "light") = true)
    by (vm_compute; reflexivity).
  split; [exact H|].
  destruct (theme_toggle_alternates b H) as (b1 & b2 & E1 & E2 & Hb1 & _ & _ & Hback & _).
  exists b1, b2. split; [exact E1|]. split; [exact E2|]. split; [exact Hb1|].
  exact (proj1 (Hback (or_introl eq_refl))).
Defined.

Lemma loadTheme_restores_saved_theme_witness :
  let p := mkPage None None [] [] true [] [] in
  let h := mkHost {[ theme_storageKey := js "dark" ]} 5000000 true [] in
  let b := mkBrowser p (empty_manager default_storageKey h) in
  (accessible (host (App b)) = true ∧
   write_accepted (host (App b)) theme_storageKey (js "light") = true) ∧
  ∃ b', loadTheme (Some false) b = (Normal (), b') ∧
        body_theme (page b') = Some (js "dark").
Proof.
  intros p h b.
  assert (H1 : accessible (host (App b)) = true) by reflexivity.
  assert (H2 : write_accepted (host (App b)) theme_storageKey (js "light") = true)
    by (vm_compute; reflexivity).
  split; [split; [exact H1 | exact H2]|].
  destruct (loadTheme_restores_saved_theme (Some false) b H1 H2)
    as (b' & theme & E & Hb & _ & _ & _ & Hdark & _).
  exists b'. split; [exact E|]. rewrite Hb. f_equal. apply Hdark.
  vm_compute. reflexivity.
Defined.

Lemma theme_round_trip_witness :
  let p := mkPage None None [] [] true [] [] in
  let b := mkBrowser p (empty_manager default_storageKey (empty_host 5000000)) in
  write_accepted (host (App b)) theme_storageKey (js "light") = true ∧
  ∃ b1 b2, setTheme (js "dark") b = (Normal (), b1) ∧
           loadTheme (Some false) (mkBrowser p (App b1)) = (Normal (), b2) ∧
           body_theme (page b2) = Some (js "dark").
Proof.
  intros p b.
  assert (H : write_accepted (host (App b)) theme_storageKey (js "light") = true)
    by (vm_compute; reflexivity).
  split; [exact H|].
  destruct (theme_round_trip (js "dark") (Some false) b p H)
    as (b1 & b2 & E1 & E2 & _ & Hb & _).
  exists b1, b2. split; [exact E1|]. split; [exact E2 | exact Hb].
Defined.

Lemma App_start_shows_the_store_witness :
  let tB := mkTask (js "_k3b9x1q") (js "Walk dog") false 1700000000500 in
  let tA := mkTask (js "_4fzyo82") (js "Buy milk") true 1700000000000 in
  let p := mkPage None None [] [] false [] [] in
  let b := mkBrowser p (mkWorld (mkTaskManager default_storageKey [tB; tA])
                          (empty_host 5000000)) in
  (accessible (host (App b)) = true ∧
   write_accepted (host (App b)) theme_storageKey (js "light") = true) ∧
  ∃ b', App_start (Some true) b = (Normal (), b') ∧
        in_step b' ∧
        addBtn_disabled (page b') = true ∧
        body_theme (page b') = Some (js "dark").
Proof.
  intros tB tA p b.
  assert (H1 : accessible (host (App b)) = true) by reflexivity.
  assert (H2 : write_accepted (host (App b)) theme_storageKey (js "light") = true)
    by (vm_compute; reflexivity).
  split; [split; [exact H1 | exact H2]|].
  destruct (App_start_shows_the_store (Some true) b H1 H2)
    as (b' & E & Hs & Hd & Hb & _).
  exists b'. split; [exact E|]. split; [exact Hs|]. split; [exact Hd|].
  rewrite Hb. vm_compute. reflexivity.
Defined.

Lemma App_start_throws_when_refused_witness :
  let p := mkPage None None [] [] false [] [] in
  let h := mkHost ∅ 5000000 false [] in
  let b := mkBrowser p (empty_manager default_storageKey h) in
  accessible (host (App b)) = false ∧
  ∃ b', App_start None b = (Throw SecurityError, b') ∧ page b' = page b.
Proof.
  intros p h b.
  assert (H : accessible (host (App b)) = false) by reflexivity.
  split; [exact H|].
  exact (proj1 (App_start_throws_when_refused None b) H).
Defined.

Lemma checkbox_change_updates_task_witness :
  let tB := mkTask (js "_k3b9x1q") (js "Walk dog") false 1700000000500 in
  let tA := mkTask (js "_4fzyo82") (js "Buy milk") false 1700000000000 in
  let rB := set_checkbox_checked true (createTaskElement tB) in
  let p := mkPage (Some (js "light")) (Some (js "false")) moon [] true (js "2 tasks left")
             [TaskItem rB; TaskItem (createTaskElement tA)] in
  let b := mkBrowser p (mkWorld (mkTaskManager default_storageKey [tB; tA])
                          (empty_host 5000000)) in
  (row_at 0 (page b) = Some rB ∧ tasks (this (App b)) !! 0 = Some tB ∧
   NoDup (id <$> tasks (this (App b)))) ∧
  ∃ b', on_checkbox_change 0 tB (Some 0) b = (Normal (), b') ∧
        tasks (this (App b'))
          = [mkTask (js "_k3b9x1q") (js "Walk dog") true 1700000000500; tA] ∧
        remaining_textContent (page b') = js "1 task left".
Proof.
  intros tB tA rB p b.
  assert (H1 : row_at 0 (page b) = Some rB) by reflexivity.
  assert (H2 : tasks (this (App b)) !! 0 = Some tB) by reflexivity.
  assert (H3 : NoDup (id <$> tasks (this (App b)))).
  { apply (bool_decide_unpack _). vm_compute. exact I. }
  split; [split; [exact H1 | split; [exact H2 | exact H3]]|].
  destruct (checkbox_change_updates_task 0 0 tB rB b H1 H2 H3)
    as (b' & E & Ht & _ & _ & _ & Hrem).
  exists b'. split; [exact E|].
  assert (Ht' : tasks (this (App b'))
                = [mkTask (js "_k3b9x1q") (js "Walk dog") true 1700000000500; tA])
    by (rewrite Ht; vm_compute; reflexivity).
  split; [exact Ht'|]. rewrite Hrem, Ht'. vm_compute. reflexivity.
Defined.

Lemma delete_click_removes_task_and_row_witness :
  let tB := mkTask (js "_k3b9x1q") (js "Walk dog") false 1700000000500 in
  let tA := mkTask (js "_4fzyo82") (js "Buy milk") false 1700000000000 in
  let p := mkPage (Some (js "light")) (Some (js "false")) moon [] true (js "2 tasks left")
             [TaskItem (createTaskElement tB); TaskItem (createTaskElement tA)] in
  let b := mkBrowser p (mkWorld (mkTaskManager default_storageKey [tB; tA])
                          (empty_host 5000000)) in
  (row_at 0 (page b) = Some (createTaskElement tB) ∧
   ∃ t, t ∈ tasks (this (App b)) ∧ id t = id tB) ∧
  ∃ b', on_delete_click 0 tB true b = (Normal (), b') ∧
        tasks (this (App b')) = [tA] ∧
        list_children (page b') = [TaskItem (createTaskElement tA)] ∧
        remaining_textContent (page b') = js "1 task left".
Proof.
  intros tB tA p b.
  assert (H1 : row_at 0 (page b) = Some (createTaskElement tB)) by reflexivity.
  assert (H2 : ∃ t, t ∈ tasks (this (App b)) ∧ id t = id tB).
  { exists tB. split; [apply list_elem_of_here | reflexivity]. }
  split; [split; [exact H1 | exact H2]|].
  destruct (proj2 (proj2 (delete_click_removes_task_and_row 0 tB _ b H1)) H2)
    as (b' & E & Ht & _ & Hc & Hrem & _).
  exists b'. split; [exact E|].
  assert (Ht' : tasks (this (App b')) = [tA]) by (rewrite Ht; vm_compute; reflexivity).
  split; [exact Ht'|]. split; [rewrite Hc; reflexivity|].
  rewrite Hrem, Ht'. vm_compute. reflexivity.
Defined.

Lemma edit_commit_stores_trimmed_text_witness :
  let tB := mkTask (js "_k3b9x1q") (js "Walk dog") false 1700000000500 in
  let tA := mkTask (js "_4fzyo82") (js "Buy milk") false 1700000000000 in
  let rB := set_text_textContent (js "  Walk the dog ")
              (set_text_label "Edit task text"
                 (set_text_contentEditable true (createTaskElement tB))) in
  let p := mkPage (Some (js "light")) (Some (js "false")) moon [] true (js "2 tasks left")
             [TaskItem rB; TaskItem (createTaskElement tA)] in
  let b := mkBrowser p (mkWorld (mkTaskManager default_storageKey [tB; tA])
                          (empty_host 5000000)) in
  (row_at 0 (page b) = Some rB ∧ text_contentEditable rB = true ∧
   blank (text_textContent rB) = false ∧ tasks (this (App b)) !! 0 = Some tB ∧
   NoDup (id <$> tasks (this (App b)))) ∧
  ∃ b', on_text_blur 0 tB (Some 0) true b = (Normal (), b') ∧
        tasks (this (App b'))
          = [mkTask (js "_k3b9x1q") (js "Walk the dog") false 1700000000500; tA] ∧
        (text_textContent <$> row_at 0 (page b')) = Some (js "  Walk the dog ").
Proof.
  intros tB tA rB p b.
  assert (H1 : row_at 0 (page b) = Some rB) by reflexivity.
  assert (H2 : text_contentEditable rB = true) by reflexivity.
  assert (H3 : blank (text_textContent rB) = false) by (vm_compute; reflexivity).
  assert (H4 : tasks (this (App b)) !! 0 = Some tB) by reflexivity.
  assert (H5 : NoDup (id <$> tasks (this (App b)))).
  { apply (bool_decide_unpack _). vm_compute. exact I. }
  split; [repeat split; assumption|].
  destruct (proj2 (edit_commit_stores_trimmed_text 0 0 tB rB true b H1) H2 H3 H4 H5)
    as (b' & E & Ht & _ & Hrow & _).
  exists b'. split; [exact E|]. split.
  - rewrite Ht. vm_compute. reflexivity.
  - rewrite Hrow. reflexivity.
Defined.

Lemma empty_edit_deletes_or_reverts_witness :
  let tB := mkTask (js "_k3b9x1q") (js "Walk dog") false 1700000000500 in
  let tA := mkTask (js "_4fzyo82") (js "Buy milk") false 1700000000000 in
  let rB := set_text_textContent (js "  ")
              (set_text_label "Edit task text"
                 (set_text_contentEditable true (createTaskElement tB))) in
  let p := mkPage (Some (js "light")) (Some (js "false")) moon [] true (js "2 tasks left")
             [TaskItem rB; TaskItem (createTaskElement tA)] in
  let b := mkBrowser p (mkWorld (mkTaskManager default_storageKey [tB; tA])
                          (empty_host 5000000)) in
  (row_at 0 (page b) = Some rB ∧ text_contentEditable rB = true ∧
   blank (text_textContent rB) = true) ∧
  (∃ b', on_text_blur 0 tB (Some 0) false b = (Normal (), b') ∧ App b' = App b ∧
         (text_textContent <$> row_at 0 (page b')) = Some (js "Walk dog")) ∧
  (∃ b', on_text_blur 0 tB (Some 0) true b = (Normal (), b') ∧
         tasks (this (App b')) = [tA] ∧
         list_children (page b') = [TaskItem (createTaskElement tA)] ∧
         remaining_textContent (page b') = js "2 tasks left").
Proof.
  intros tB tA rB p b.
  assert (H1 : row_at 0 (page b) = Some rB) by reflexivity.
  assert (H2 : text_contentEditable rB = true) by reflexivity.
  assert (H3 : blank (text_textContent rB) = true) by (vm_compute; reflexivity).
  split; [repeat split; assumption|].
  destruct (empty_edit_deletes_or_reverts 0 tB (Some 0) rB b H1 H2 H3)
    as [(b1 & E1 & Happ & Hrow & _) (b2 & E2 & Ht & Hc & Hrem & _)].
  split.
  - exists b1. split; [exact E1|]. split; [exact Happ|]. rewrite Hrow. reflexivity.
  - exists b2. split; [exact E2|]. split; [|split].
    + rewrite Ht. vm_compute. reflexivity.
    + rewrite Hc. reflexivity.
    + rewrite Hrem. reflexivity.
Defined.

Lemma keys_commit_or_cancel_witness :
  let tB := mkTask (js "_k3b9x1q") (js "Walk dog") false 1700000000500 in
  let tA := mkTask (js "_4fzyo82") (js "Buy milk") false 1700000000000 in
  let rB := set_text_textContent (js "Walk the d")
              (set_text_label "Edit task text"
                 (set_text_contentEditable true (createTaskElement tB))) in
  let p := mkPage (Some (js "light")) (Some (js "false")) moon [] true (js "2 tasks left")
             [TaskItem rB; TaskItem (createTaskElement tA)] in
  let b := mkBrowser p (mkWorld (mkTaskManager default_storageKey [tB; tA])
                          (empty_host 5000000)) in
  (row_at 0 (page b) = Some rB ∧ text_contentEditable rB = true ∧
   blank (text tB) = false ∧ tasks (this (App b)) !! 0 = Some tB ∧
   NoDup (id <$> tasks (this (App b))) ∧ trimmed (text tB)) ∧
  ∃ b', on_text_keydown (js "Escape") 0 tB (Some 0) true b = (Normal (), b') ∧
        tasks (this (App b')) = [tB; tA] ∧
        (text_textContent <$> row_at 0 (page b')) = Some (js "Walk dog") ∧
        persisted (App b) (App b').
Proof.
  intros tB tA rB p b.
  assert (H1 : row_at 0 (page b) = Some rB) by reflexivity.
  assert (H2 : text_contentEditable rB = true) by reflexivity.
  assert (H3 : blank (text tB) = false) by (vm_compute; reflexivity).
  assert (H4 : tasks (this (App b)) !! 0 = Some tB) by reflexivity.
  assert (H5 : NoDup (id <$> tasks (this (App b)))).
  { apply (bool_decide_unpack _). vm_compute. exact I. }
  assert (H6 : trimmed (text tB)) by (vm_compute; reflexivity).
  split; [repeat split; assumption|].
  destruct (proj2 (proj2 (keys_commit_or_cancel (js "Escape") 0 0 tB (Some 0) rB true b))
              eq_refl H1 H2 H3 H4 H5)
    as (b' & E & Hrow & _ & Hsame & Hp).
  exists b'. split; [exact E|]. split; [exact (Hsame H6)|].
  split; [rewrite Hrow; reflexivity | exact Hp].
Defined.

Lemma store_calls_frame_witness :
  let w := mkWorld (mkTaskManager default_storageKey [])
             (mkHost {[ default_storageKey := js "[]" ]} 5000000 true []) in
  let c := Call_addTask (js "Buy milk") (js "0.4fzyo82mvyr") 1700000000000 in
  is_Some (items (host w) !! storageKey (this w)) ∧
  is_Some (items (host (exec c w)) !! storageKey (this w)).
Proof.
  intros w c.
  assert (H : is_Some (items (host w) !! storageKey (this w)))
    by (exists (js "[]"); vm_compute; reflexivity).
  split; [exact H|].
  destruct (store_calls_frame c w) as (_ & _ & _ & _ & Hkept & _).
  exact (Hkept H).
Defined.

Lemma clearCompleted_keeps_remaining_witness :
  let tB := mkTask (js "_k3b9x1q") (js "Walk dog") false 1700000000500 in
  let tA := mkTask (js "_4fzyo82") (js "Buy milk") true 1700000000000 in
  let w := mkWorld (mkTaskManager default_storageKey [tB; tA]) (empty_host 5000000) in
  tB ∈ tasks (this (clearCompleted w).2) ∧ completed tB = false.
Proof.
  intros tB tA w.
  assert (H : tB ∈ tasks (this (clearCompleted w).2)).
  { assert (E : tasks (this (clearCompleted w).2) = [tB]) by (vm_compute; reflexivity).
    rewrite E. apply list_elem_of_here. }
  split; [exact H|].
  destruct (clearCompleted_keeps_remaining w) as (_ & _ & Hall).
  exact (Hall tB H).
Defined.

Lemma remaining_label_plural_witness :
  2 ≠ 1 ∧ remaining_label 2 = js "2 tasks left".
Proof.
  assert (H : 2 ≠ 1) by discriminate.
  split; [exact H|].
  rewrite (proj1 (proj2 (remaining_label_plural 2 2)) H). vm_compute. reflexivity.
Defined.
